(** * macFUSE library: channel, session, dispatch loops, unmount, signals

    A shallow embedding of the parts of [lib/fuse_session.c],
    [lib/fuse_loop_dispatch.c], [lib/fuse_mt.c], [lib/fuse_signals.c] and
    [lib/helper.c] that own the channel/session life cycle, together with
    the properties the design document states about them.

    Conventions.
    - A C pointer is [ptr]: [None] is [NULL], [Some a] the address [a].
    - Heap objects live in finite maps from addresses; a dereference of an
      address that holds no object of the expected type is undefined
      behaviour ([Undef]), and so is signed overflow of an [int].
    - [assert] (the library is built with assertions on) and [exit] end
      the process: outcome [Halt].
    - Calls that leave the library (operation-table callbacks, the kernel
      unmount, CoreFoundation, [stderr]) are recorded in the [trace]; a
      value such a call returns is an argument of the embedded function,
      named after the call.
    - [pthread_mutex_lock]/[unlock] pairs delimit critical sections; the
      sequential functions below are the bodies of those sections. *)

From stdpp Require Import gmap list strings.
From Stdlib Require Import ZArith Lia.

Open Scope Z_scope.

(** ** C data *)

Definition addr := positive.
Definition ptr := option addr.
Definition NULL : ptr := None.

(** A function pointer is identified by the address of the function. *)
Definition fn := positive.

Definition INT_MAX : Z := 2147483647.
Definition INT_MIN : Z := -2147483648.

(** [lib/fuse_common.h]: [FUSE_BUF_IS_FD = (1 << 1)]. *)
Definition FUSE_BUF_IS_FD : Z := Z.shiftl 1 1.

Inductive platform := Darwin | Other.

(** Fields are prefixed with the name of their struct: Rocq projections
    share one name space, C struct members do not. *)

(** [struct fuse_session_ops] (fuse_lowlevel.h). *)
Record fuse_session_ops := {
  op_process : fn;
  op_destroy : option fn;
  op_exit : option fn;
  op_exited : option fn
}.

(** [struct fuse_session] (fuse_i.h). *)
Record fuse_session := {
  se_op : fuse_session_ops;
  se_receive_buf : option fn;
  se_process_buf : option fn;
  se_data : ptr;
  se_exited : Z;
  se_ch : ptr
}.

(** [struct fuse_chan_ops] (fuse_lowlevel.h). *)
Record fuse_chan_ops := {
  op_receive : fn;
  op_send : fn;
  op_chan_destroy : option fn
}.

(** [struct fuse_chan] (fuse_session.c); [lock] is not a field of the
    model, see the conventions. *)
Record fuse_chan := {
  ch_retain_count : Z;
  ch_op : fuse_chan_ops;
  ch_se : ptr;
  ch_fd : Z;
  ch_disk : ptr;
  ch_bufsize : Z;
  ch_data : ptr;
  ch_compat : Z
}.

(** [struct fuse_buf] (fuse_common.h). *)
Record fuse_buf := {
  buf_size : Z;
  buf_flags : Z;
  buf_mem : ptr;
  buf_fd : Z
}.

Definition set_se_ch (s : fuse_session) (c : ptr) : fuse_session :=
  {| se_op := se_op s; se_receive_buf := se_receive_buf s;
     se_process_buf := se_process_buf s; se_data := se_data s;
     se_exited := se_exited s; se_ch := c |}.

Definition set_se_exited (s : fuse_session) (e : Z) : fuse_session :=
  {| se_op := se_op s; se_receive_buf := se_receive_buf s;
     se_process_buf := se_process_buf s; se_data := se_data s;
     se_exited := e; se_ch := se_ch s |}.

Definition set_ch_retain_count (c : fuse_chan) (n : Z) : fuse_chan :=
  {| ch_retain_count := n; ch_op := ch_op c; ch_se := ch_se c;
     ch_fd := ch_fd c; ch_disk := ch_disk c; ch_bufsize := ch_bufsize c;
     ch_data := ch_data c; ch_compat := ch_compat c |}.

Definition set_ch_se (c : fuse_chan) (p : ptr) : fuse_chan :=
  {| ch_retain_count := ch_retain_count c; ch_op := ch_op c; ch_se := p;
     ch_fd := ch_fd c; ch_disk := ch_disk c; ch_bufsize := ch_bufsize c;
     ch_data := ch_data c; ch_compat := ch_compat c |}.

Definition set_ch_fd (c : fuse_chan) (n : Z) : fuse_chan :=
  {| ch_retain_count := ch_retain_count c; ch_op := ch_op c;
     ch_se := ch_se c; ch_fd := n; ch_disk := ch_disk c;
     ch_bufsize := ch_bufsize c; ch_data := ch_data c;
     ch_compat := ch_compat c |}.

Definition set_ch_disk (c : fuse_chan) (d : ptr) : fuse_chan :=
  {| ch_retain_count := ch_retain_count c; ch_op := ch_op c;
     ch_se := ch_se c; ch_fd := ch_fd c; ch_disk := d;
     ch_bufsize := ch_bufsize c; ch_data := ch_data c;
     ch_compat := ch_compat c |}.

(** ** The world outside the library *)

Inductive event :=
| EvStderr (msg : string)
| EvProcess (f : fn) (d : ptr) (buf : ptr) (len : Z) (c : ptr)
| EvProcessBuf (f : fn) (d : ptr) (buf : fuse_buf) (c : ptr)
| EvChanReceive (f : fn) (is_compat : bool) (c : ptr) (buf : ptr) (len : Z)
| EvChanDestroy (f : fn) (c : ptr)
| EvSessionExit (f : fn) (d : ptr) (forced : Z)
| EvCFRetain (d : addr)
| EvCFRelease (d : addr)
| EvMutexDestroy (c : ptr)
| EvFree (a : addr)
| EvKernUnmountDisk (d : ptr) (fd : Z)
| EvKernUnmountPath (mountpoint : string) (fd : Z).

Inductive halt :=
| AssertFailed (e : string)
| Exit (status : Z).

(** [cf] is CoreFoundation's retain count of every object the library
    handles: [CFRetain] adds one, [CFRelease] takes one away. *)
Record state := {
  sessions : gmap addr fuse_session;
  chans : gmap addr fuse_chan;
  cf : gmap addr Z;
  trace : list event
}.

Definition upd_sessions (f : gmap addr fuse_session → gmap addr fuse_session)
    (s : state) : state :=
  {| sessions := f (sessions s); chans := chans s; cf := cf s;
     trace := trace s |}.

Definition upd_chans (f : gmap addr fuse_chan → gmap addr fuse_chan)
    (s : state) : state :=
  {| sessions := sessions s; chans := f (chans s); cf := cf s;
     trace := trace s |}.

Definition upd_cf (f : gmap addr Z → gmap addr Z) (s : state) : state :=
  {| sessions := sessions s; chans := chans s; cf := f (cf s);
     trace := trace s |}.

Definition upd_trace (f : list event → list event) (s : state) : state :=
  {| sessions := sessions s; chans := chans s; cf := cf s;
     trace := f (trace s) |}.

Definition cf_count (s : state) (d : addr) : Z := default 0 (cf s !! d).

(** ** Outcomes and the state monad of the library code *)

Inductive outcome (A : Type) :=
| Ret (a : A) (s : state)
| Halt (h : halt) (s : state)
| Undef.
Arguments Ret {A} a s.
Arguments Halt {A} h s.
Arguments Undef {A}.

Definition M (A : Type) : Type := state → outcome A.

Definition ret {A} (a : A) : M A := fun s => Ret a s.

Definition bind {A B} (m : M A) (k : A → M B) : M B :=
  fun s => match m s with
           | Ret a s' => k a s'
           | Halt h s' => Halt h s'
           | Undef => Undef
           end.

Notation "x <- m ;; k" := (bind m (fun x => k))
  (at level 100, m at next level, right associativity).
Notation "m ;;; k" := (bind m (fun _ => k))
  (at level 100, right associativity).

Definition undef {A} : M A := fun _ => Undef.
Definition emit (e : event) : M unit :=
  fun s => Ret tt (upd_trace (fun t => t ++ [e]) s).
Definition assert (b : bool) (e : string) : M unit :=
  fun s => if b then Ret tt s else Halt (AssertFailed e) s.
Definition fprintf_stderr (msg : string) : M unit := emit (EvStderr msg).

Definition load_session (p : ptr) : M fuse_session :=
  fun s => match p with
           | Some a => match sessions s !! a with
                       | Some x => Ret x s
                       | None => Undef
                       end
           | None => Undef
           end.

Definition load_chan (p : ptr) : M fuse_chan :=
  fun s => match p with
           | Some a => match chans s !! a with
                       | Some x => Ret x s
                       | None => Undef
                       end
           | None => Undef
           end.

Definition store_session (p : ptr) (x : fuse_session) : M unit :=
  fun s => match p with
           | Some a => match sessions s !! a with
                       | Some _ => Ret tt (upd_sessions (insert a x) s)
                       | None => Undef
                       end
           | None => Undef
           end.

Definition store_chan (p : ptr) (x : fuse_chan) : M unit :=
  fun s => match p with
           | Some a => match chans s !! a with
                       | Some _ => Ret tt (upd_chans (insert a x) s)
                       | None => Undef
                       end
           | None => Undef
           end.

Definition free_chan (p : ptr) : M unit :=
  fun s => match p with
           | Some a => match chans s !! a with
                       | Some _ =>
                           Ret tt (upd_trace (fun t => t ++ [EvFree a])
                                     (upd_chans (delete a) s))
                       | None => Undef
                       end
           | None => Ret tt s
           end.

Definition CFRetain (d : ptr) : M unit :=
  fun s => match d with
           | Some a =>
               Ret tt (upd_trace (fun t => t ++ [EvCFRetain a])
                         (upd_cf (insert a (cf_count s a + 1)) s))
           | None => Undef
           end.

Definition CFRelease (d : ptr) : M unit :=
  fun s => match d with
           | Some a =>
               Ret tt (upd_trace (fun t => t ++ [EvCFRelease a])
                         (upd_cf (insert a (cf_count s a - 1)) s))
           | None => Undef
           end.

Definition is_null (p : ptr) : bool :=
  match p with None => true | Some _ => false end.

Definition ptr_eqb (p q : ptr) : bool := bool_decide (p = q).

(** ** lib/fuse_session.c *)

Definition fuse_session_add_chan (se ch : ptr) : M unit :=
  s <- load_session se ;;
  assert (is_null (se_ch s)) "se->ch == NULL" ;;;
  c <- load_chan ch ;;
  assert (is_null (ch_se c)) "ch->se == NULL" ;;;
  store_session se (set_se_ch s ch) ;;;
  store_chan ch (set_ch_se c se).

Definition fuse_session_remove_chan (ch : ptr) : M unit :=
  c <- load_chan ch ;;
  let se := ch_se c in
  if is_null se then ret tt
  else
    s <- load_session se ;;
    assert (ptr_eqb (se_ch s) ch) "se->ch == ch" ;;;
    store_session se (set_se_ch s NULL) ;;;
    c' <- load_chan ch ;;
    store_chan ch (set_ch_se c' NULL).

Definition fuse_session_next_chan (se ch : ptr) : M ptr :=
  s <- load_session se ;;
  assert (is_null ch || ptr_eqb ch (se_ch s)) "ch == NULL || ch == se->ch" ;;;
  if is_null ch then ret (se_ch s) else ret NULL.

Definition fuse_session_process (se : ptr) (buf : ptr) (len : Z) (ch : ptr)
    : M unit :=
  s <- load_session se ;;
  emit (EvProcess (op_process (se_op s)) (se_data s) buf len ch).

Definition fuse_session_process_buf (se : ptr) (buf : fuse_buf) (ch : ptr)
    : M unit :=
  s <- load_session se ;;
  match se_process_buf s with
  | Some f => emit (EvProcessBuf f (se_data s) buf ch)
  | None =>
      assert (Z.land (buf_flags buf) FUSE_BUF_IS_FD =? 0)
             "!(buf->flags & FUSE_BUF_IS_FD)" ;;;
      fuse_session_process (se_data s) (buf_mem buf) (buf_size buf) ch
  end.

Definition fuse_session_exit (se : ptr) : M unit :=
  s <- load_session se ;;
  match op_exit (se_op s) with
  | Some f => emit (EvSessionExit f (se_data s) 1)
  | None => ret tt
  end ;;;
  s' <- load_session se ;;
  store_session se (set_se_exited s' 1).

Definition fuse_session_reset (se : ptr) : M unit :=
  s <- load_session se ;;
  match op_exit (se_op s) with
  | Some f => emit (EvSessionExit f (se_data s) 0)
  | None => ret tt
  end ;;;
  s' <- load_session se ;;
  store_session se (set_se_exited s' 0).

(** [malloc] returned [m]; [memset] zeroes every field before the explicit
    assignments. The model keeps the Darwin fields on every platform. *)
Definition fuse_chan_new_common (m : ptr) (op : fuse_chan_ops) (fd : Z)
    (bufsize : Z) (data : ptr) (compat : Z) : M ptr :=
  match m with
  | None =>
      fprintf_stderr "fuse: failed to allocate channel" ;;;
      ret NULL
  | Some a =>
      fun s =>
        Ret (Some a)
          (upd_chans
             (insert a {| ch_retain_count := 1; ch_op := op; ch_se := NULL;
                          ch_fd := fd; ch_disk := NULL;
                          ch_bufsize := bufsize; ch_data := data;
                          ch_compat := compat |}) s)
  end.

Definition fuse_chan_new (m : ptr) (op : fuse_chan_ops) (fd : Z)
    (bufsize : Z) (data : ptr) : M ptr :=
  fuse_chan_new_common m op fd bufsize data 0.

Definition fuse_chan_new_compat24 (m : ptr) (op : fuse_chan_ops) (fd : Z)
    (bufsize : Z) (data : ptr) : M ptr :=
  fuse_chan_new_common m op fd bufsize data 24.

(** [ch->retain_count++] on an [int]: overflow is undefined. *)
Definition fuse_chan_retain (ch : ptr) : M unit :=
  c <- load_chan ch ;;
  if ch_retain_count c <? INT_MAX
  then store_chan ch (set_ch_retain_count c (ch_retain_count c + 1))
  else undef.

Definition fuse_chan_release (ch : ptr) : M unit :=
  c <- load_chan ch ;;
  if INT_MIN <? ch_retain_count c then
    let n := ch_retain_count c - 1 in
    store_chan ch (set_ch_retain_count c n) ;;;
    if n =? 0 then
      emit (EvMutexDestroy ch) ;;;
      (if is_null (ch_disk c) then ret tt else CFRelease (ch_disk c)) ;;;
      free_chan ch
    else ret tt
  else undef.

Definition fuse_chan_fd (ch : ptr) : M Z :=
  c <- load_chan ch ;; ret (ch_fd c).

Definition fuse_chan_clearfd (ch : ptr) : M Z :=
  c <- load_chan ch ;;
  store_chan ch (set_ch_fd c (-1)) ;;;
  ret (ch_fd c).

Definition fuse_chan_disk (ch : ptr) : M ptr :=
  c <- load_chan ch ;;
  let disk := ch_disk c in
  (if is_null disk then ret tt else CFRetain disk) ;;;
  ret disk.

Definition fuse_chan_set_disk (ch : ptr) (disk : ptr) : M unit :=
  (if is_null disk then ret tt else CFRetain disk) ;;;
  c <- load_chan ch ;;
  let old := ch_disk c in
  store_chan ch (set_ch_disk c disk) ;;;
  if is_null old then ret tt else CFRelease old.

Definition fuse_chan_cleardisk (ch : ptr) : M unit :=
  fuse_chan_set_disk ch NULL.

Definition fuse_chan_bufsize (ch : ptr) : M Z :=
  c <- load_chan ch ;; ret (ch_bufsize c).

Definition fuse_chan_data (ch : ptr) : M ptr :=
  c <- load_chan ch ;; ret (ch_data c).

Definition fuse_chan_session (ch : ptr) : M ptr :=
  c <- load_chan ch ;; ret (ch_se c).

(** [recv] is the value the channel's [receive] operation returns. *)
Definition fuse_chan_recv (recv : Z) (chp : ptr) (buf : ptr) (size : Z)
    : M Z :=
  c <- load_chan chp ;;
  emit (EvChanReceive (op_receive (ch_op c)) (negb (ch_compat c =? 0))
          chp buf size) ;;;
  ret recv.

Section Errno.

(** [<errno.h>] is not part of the library: the two error numbers are
    parameters. *)
Variables EINTR EAGAIN : Z.

Definition fuse_chan_receive (recv : Z) (ch : ptr) (buf : ptr) (size : Z)
    : M Z :=
  res <- fuse_chan_recv recv ch buf size ;;
  ret (if 0 <=? res then res
       else if negb (res =? - EINTR) && negb (res =? - EAGAIN) then -1
       else 0).

End Errno.

Definition fuse_chan_destroy (pf : platform) (ch : ptr) : M unit :=
  fuse_session_remove_chan ch ;;;
  c <- load_chan ch ;;
  match op_chan_destroy (ch_op c) with
  | Some f => emit (EvChanDestroy f ch)
  | None => ret tt
  end ;;;
  match pf with
  | Darwin => fuse_chan_release ch
  | Other => free_chan ch
  end.

(** ** lib/helper.c *)

(** [fuse_kern_unmount] is the platform primitive (mount_darwin.c, not in
    this library's core): it is given the disk or the mount path and the
    descriptor, never the channel. *)
Definition fuse_unmount_common (pf : platform) (mountpoint : option string)
    (ch : ptr) : M unit :=
  match pf with
  | Darwin =>
      if is_null ch then ret tt
      else
        disk <- fuse_chan_disk ch ;;
        fd <- fuse_chan_fd ch ;;
        emit (EvKernUnmountDisk disk fd) ;;;
        if is_null disk then fuse_chan_destroy Darwin ch
        else CFRelease disk
  | Other =>
      match mountpoint with
      | Some mp =>
          fd <- (if is_null ch then ret (-1) else fuse_chan_clearfd ch) ;;
          emit (EvKernUnmountPath mp fd) ;;;
          if is_null ch then ret tt else fuse_chan_destroy Other ch
      | None => ret tt
      end
  end.

Definition fuse_unmount (pf : platform) (mountpoint : option string)
    (ch : ptr) : M unit :=
  fuse_unmount_common pf mountpoint ch.

(** ** Call sequences on one channel *)

Inductive chan_call := Retain | Release.

Definition do_call (ch : ptr) (c : chan_call) : M unit :=
  match c with
  | Retain => fuse_chan_retain ch
  | Release => fuse_chan_release ch
  end.

Fixpoint do_calls (ch : ptr) (cs : list chan_call) : M unit :=
  match cs with
  | [] => ret tt
  | c :: cs' => do_call ch c ;;; do_calls ch cs'
  end.

Definition is_retain (c : chan_call) : bool :=
  match c with Retain => true | Release => false end.

Definition retains (cs : list chan_call) : Z :=
  Z.of_nat (length (List.filter is_retain cs)).

Definition releases (cs : list chan_call) : Z :=
  Z.of_nat (length (List.filter (fun c => negb (is_retain c)) cs)).

Definition is_free (a : addr) (e : event) : bool :=
  match e with
  | EvFree b => bool_decide (a = b)
  | _ => false
  end.

(** How many times the block at [a] has been handed to [free]. *)
Definition frees (a : addr) (t : list event) : nat :=
  length (List.filter (is_free a) t).

(** An empty heap, and a channel operation table to run examples with. *)
Definition empty_state : state :=
  {| sessions := ∅; chans := ∅; cf := ∅; trace := [] |}.

Definition example_chan_ops : fuse_chan_ops :=
  {| op_receive := 11%positive; op_send := 12%positive;
     op_chan_destroy := None |}.

Definition example_chan : fuse_chan :=
  {| ch_retain_count := 1; ch_op := example_chan_ops; ch_se := NULL;
     ch_fd := 3; ch_disk := NULL; ch_bufsize := 4096; ch_data := NULL;
     ch_compat := 0 |}.

Definition example_session_ops : fuse_session_ops :=
  {| op_process := 21%positive; op_destroy := None; op_exit := None;
     op_exited := None |}.

Definition example_session : fuse_session :=
  {| se_op := example_session_ops; se_receive_buf := None;
     se_process_buf := None; se_data := NULL; se_exited := 0;
     se_ch := NULL |}.

(** One unbound channel at address 1 and one session without a channel at
    address 2. *)
Definition example_state : state :=
  {| sessions := {[ 2%positive := example_session ]};
     chans := {[ 1%positive := example_chan ]};
     cf := ∅; trace := [] |}.

(** A session at address 2 whose [data] points at address 5, where a
    second session with another [process] operation lives; and the same
    session with [data] pointing at address 6, which holds no session. *)
Definition other_session : fuse_session :=
  {| se_op := {| op_process := 99%positive; op_destroy := None;
                 op_exit := None; op_exited := None |};
     se_receive_buf := None; se_process_buf := None;
     se_data := Some 6%positive; se_exited := 0; se_ch := NULL |}.

Definition session_with_data (d : ptr) : fuse_session :=
  {| se_op := example_session_ops; se_receive_buf := None;
     se_process_buf := None; se_data := d; se_exited := 0;
     se_ch := Some 1%positive |}.

Definition two_session_state (d : ptr) : state :=
  {| sessions := {[ 2%positive := session_with_data d;
                    5%positive := other_session ]};
     chans := {[ 1%positive := set_ch_se example_chan (Some 2%positive) ]};
     cf := ∅; trace := [] |}.

Definition mem_buf (m : ptr) (n : Z) : fuse_buf :=
  {| buf_size := n; buf_flags := 0; buf_mem := m; buf_fd := 0 |}.

(** ** lib/fuse_signals.c

    The registration functions touch only the file's static variables and
    the signal dispositions; they are embedded over a state of their
    own. [fuse_unmount_sources] has [fuse_unmount_signals_count] entries
    in every state the functions produce from [sig_init]. *)

Module Signals.

(** [<signal.h>]: the numbers of the four signals the library handles. *)
Definition SIGHUP : Z := 1.
Definition SIGINT : Z := 2.
Definition SIGPIPE : Z := 13.
Definition SIGTERM : Z := 15.

Inductive sighandler :=
| SIG_DFL
| SIG_IGN
| exit_handler.

Global Instance sighandler_eq_dec : EqDecision sighandler.
Proof. solve_decision. Defined.

(** The file's static variables, the signal dispositions of the process
    and what has been written to [stderr]. A signal that is not in
    [disposition] has its default action. *)
Record sig_state := {
  fuse_instance : ptr;
  fuse_unmount_sources : list ptr;
  disposition : gmap Z sighandler;
  stderr : list string
}.

Definition fuse_unmount_signals : list Z := [SIGHUP; SIGINT; SIGTERM].

Definition fuse_unmount_signals_count : nat := length fuse_unmount_signals.

(** The state a process starts with. *)
Definition sig_init : sig_state :=
  {| fuse_instance := NULL;
     fuse_unmount_sources := replicate fuse_unmount_signals_count NULL;
     disposition := ∅;
     stderr := [] |}.

Definition set_instance (p : ptr) (st : sig_state) : sig_state :=
  {| fuse_instance := p; fuse_unmount_sources := fuse_unmount_sources st;
     disposition := disposition st; stderr := stderr st |}.

Definition set_source (i : nat) (p : ptr) (st : sig_state) : sig_state :=
  {| fuse_instance := fuse_instance st;
     fuse_unmount_sources := <[i := p]> (fuse_unmount_sources st);
     disposition := disposition st; stderr := stderr st |}.

Definition set_disposition (sig : Z) (h : sighandler) (st : sig_state)
    : sig_state :=
  {| fuse_instance := fuse_instance st;
     fuse_unmount_sources := fuse_unmount_sources st;
     disposition := <[sig := h]> (disposition st); stderr := stderr st |}.

Definition perror (msg : string) (st : sig_state) : sig_state :=
  {| fuse_instance := fuse_instance st;
     fuse_unmount_sources := fuse_unmount_sources st;
     disposition := disposition st; stderr := stderr st ++ [msg] |}.

Definition old_handler (sig : Z) (st : sig_state) : sighandler :=
  default SIG_DFL (disposition st !! sig).

Definition report : string := "fuse: cannot register signal source".

Section System.

(** What the operating system answers: whether [sigaction] fails when it
    reads or when it sets the action of a signal, and the source that
    [dispatch_source_create] returns for a signal ([NULL] on failure). *)
Variable sigaction_get_fails : Z → bool.
Variable sigaction_set_fails : Z → bool.
Variable dispatch_source_create : Z → ptr.

Definition set_one_signal_handler (sig : Z) (handler : sighandler)
    (remove : bool) (st : sig_state) : Z * sig_state :=
  let sa_handler := if remove then SIG_DFL else handler in
  if sigaction_get_fails sig then
    (-1, perror "fuse: cannot get old signal handler" st)
  else if bool_decide
            (old_handler sig st = (if remove then handler else SIG_DFL)) then
    if sigaction_set_fails sig then
      (-1, perror "fuse: cannot set signal handler" st)
    else (0, set_disposition sig sa_handler st)
  else (0, st).

Definition register_signal_source (sig : Z) (st : sig_state)
    : ptr * sig_state :=
  match dispatch_source_create sig with
  | None => (NULL, perror "fuse: failed to create source for signal" st)
  | Some source => (Some source, st)
  end.

(** The [for] loop of the Darwin branch, from index [i] on; [sigs] are the
    entries of [fuse_unmount_signals] from [i] on. The first component
    tells whether the function has returned from inside the loop. *)
Fixpoint register_unmount_sources (i : nat) (sigs : list Z) (st : sig_state)
    : option Z * sig_state :=
  match sigs with
  | [] => (None, st)
  | signal :: sigs' =>
      let '(r, st1) := set_one_signal_handler signal SIG_IGN false st in
      if r =? -1 then (Some (-1), st1)
      else if negb (is_null (default NULL (fuse_unmount_sources st1 !! i)))
      then (Some (-1), perror report st1)
      else
        let '(src, st2) := register_signal_source signal st1 in
        register_unmount_sources (S i) sigs' (set_source i src st2)
  end.

Definition fuse_set_signal_handlers (pf : platform) (se : ptr)
    (st : sig_state) : Z * sig_state :=
  match pf with
  | Darwin =>
      match register_unmount_sources 0 fuse_unmount_signals st with
      | (Some r, st1) => (r, st1)
      | (None, st1) =>
          let '(r, st2) := set_one_signal_handler SIGPIPE SIG_IGN false st1 in
          if r =? -1 then (-1, st2)
          else (0, set_instance se st2)
      end
  | Other =>
      let '(r1, st1) := set_one_signal_handler SIGHUP exit_handler false st in
      if r1 =? -1 then (-1, st1) else
      let '(r2, st2) := set_one_signal_handler SIGINT exit_handler false st1 in
      if r2 =? -1 then (-1, st2) else
      let '(r3, st3) := set_one_signal_handler SIGTERM exit_handler false st2 in
      if r3 =? -1 then (-1, st3) else
      let '(r4, st4) := set_one_signal_handler SIGPIPE SIG_IGN false st3 in
      if r4 =? -1 then (-1, st4)
      else (0, set_instance se st4)
  end.

(** The Darwin [for] loop of [fuse_remove_signal_handlers]. *)
Fixpoint release_unmount_sources (i : nat) (sigs : list Z) (st : sig_state)
    : sig_state :=
  match sigs with
  | [] => st
  | signal :: sigs' =>
      let st1 := snd (set_one_signal_handler signal SIG_IGN true st) in
      let st2 :=
        if negb (is_null (default NULL (fuse_unmount_sources st1 !! i)))
        then set_source i NULL st1 else st1 in
      release_unmount_sources (S i) sigs' st2
  end.

Definition fuse_remove_signal_handlers (pf : platform) (se : ptr)
    (st : sig_state) : sig_state :=
  let st0 :=
    if bool_decide (fuse_instance st ≠ se) then
      perror "fuse: fuse_remove_signal_handlers: unknown session" st
    else set_instance NULL st in
  match pf with
  | Darwin =>
      let st1 := release_unmount_sources 0 fuse_unmount_signals st0 in
      snd (set_one_signal_handler SIGPIPE SIG_IGN true st1)
  | Other =>
      let st1 := snd (set_one_signal_handler SIGHUP exit_handler true st0) in
      let st2 := snd (set_one_signal_handler SIGINT exit_handler true st1) in
      let st3 := snd (set_one_signal_handler SIGTERM exit_handler true st2) in
      snd (set_one_signal_handler SIGPIPE SIG_IGN true st3)
  end.

End System.

(** An operating system on which nothing fails; the source created for a
    signal is named after the signal. *)
Definition never_fails (sig : Z) : bool := false.
Definition source_of_signal (sig : Z) : ptr := Some (Z.to_pos sig).

End Signals.

(** ** lib/fuse_loop_dispatch.c

    Everything [fuse_session_loop_dispatch] does to the session and the
    channel goes through calls whose results the loop only looks at:
    [fuse_session_exited], [fuse_session_receive_buf], [malloc] and the
    dispatch library. The loop is embedded over a script of those
    results. *)

Module LoopDispatch.

(** The block handed to [dispatch_group_async]: it captures a copy of
    [fbuf] (the per-request buffer and the number of bytes read) and
    [tmpch], and calls [fuse_session_process_buf] on them once. *)
Record block := {
  blk_mem : addr;
  blk_size : Z;
  blk_ch : ptr
}.

(** What the world answers in one pass through the [while] loop: either
    [fuse_session_exited] is true, or it is false, the receive returns
    [res] and leaves [tmpch] in the channel pointer it was given, and, when
    the loop gets that far, [malloc (res)] returns [process_buf]. *)
Inductive pass :=
| SessionExited
| Received (res : Z) (tmpch : ptr) (process_buf : ptr).

Inductive control := Continue | Break | Fallthrough.

(** The local variables and effects of the loop: [res], the blocks handed
    to the group so far, the lines written to [stderr] and the number of
    receive calls. *)
Record loop_state := {
  res : Z;
  submitted : list block;
  log : list string;
  receives : nat
}.

Definition loop_init : loop_state :=
  {| res := 0; submitted := []; log := []; receives := 0 |}.

(** What one pass does besides leaving the loop or not. *)
Record pass_result := {
  ctl : control;
  new_res : Z;
  message : option string;
  submit : option block
}.

Definition apply_pass (p : pass_result) (st : loop_state) : loop_state :=
  {| res := new_res p;
     submitted := submitted st ++ option_list (submit p);
     log := log st ++ option_list (message p);
     receives := S (receives st) |}.

Section Errno.

Variable EINTR : Z.

(** The body of the [while] loop from the receive on. *)
Definition loop_body (r : Z) (tmpch : ptr) (process_buf : ptr)
    : pass_result :=
  if r =? - EINTR then
    {| ctl := Continue; new_res := r; message := None; submit := None |}
  else if r <=? 0 then
    {| ctl := Break; new_res := r; message := None; submit := None |}
  else
    match process_buf with
    | None =>
        {| ctl := Break; new_res := -1;
           message := Some "fuse: failed to allocate process buffer";
           submit := None |}
    | Some m =>
        {| ctl := Fallthrough; new_res := r; message := None;
           submit := Some {| blk_mem := m; blk_size := r;
                             blk_ch := tmpch |} |}
    end.

(** The [while] loop; [None] when the script ends with the loop still
    running. *)
Fixpoint while_loop (script : list pass) (st : loop_state)
    : option loop_state :=
  match script with
  | [] => None
  | SessionExited :: _ => Some st
  | Received r tmpch process_buf :: script' =>
      let p := loop_body r tmpch process_buf in
      match ctl p with
      | Break => Some (apply_pass p st)
      | _ => while_loop script' (apply_pass p st)
      end
  end.

(** What the set-up and the final wait get from the world: the read
    buffer, the queue, the group, and the value of
    [dispatch_group_wait]. *)
Record setup := {
  buf : ptr;
  queue : ptr;
  group : ptr;
  group_wait : Z
}.

(** What a call leaves behind: its return value, the blocks handed to the
    group, [stderr], the receive calls made, and whether it waited for the
    group. [fuse_session_reset] is called on every path. *)
Record loop_result := {
  returned : Z;
  blocks : list block;
  errors : list string;
  received : nat;
  waited : bool
}.

Definition finish (st : loop_state) (w : bool) : loop_result :=
  {| returned := if res st <? 0 then -1 else 0;
     blocks := submitted st; errors := log st; received := receives st;
     waited := w |}.

Definition fail_setup (msg : string) : loop_result :=
  finish {| res := -1; submitted := []; log := [msg]; receives := 0 |} false.

Definition fuse_session_loop_dispatch (w : setup) (script : list pass)
    : option loop_result :=
  if is_null (buf w) then
    Some (fail_setup "fuse: failed to allocate read buffer")
  else if is_null (queue w) then
    Some (fail_setup "fuse: failed to create session queue")
  else if is_null (group w) then
    Some (fail_setup "fuse: failed to create session group")
  else
    match while_loop script loop_init with
    | None => None
    | Some st =>
        if negb (group_wait w =? 0) then
          Some (finish {| res := -1; submitted := submitted st;
                          log := log st ++
                                 ["fuse: dispatch_group_wait timed out"];
                          receives := receives st |} true)
        else Some (finish st true)
    end.

(** The requests the loop receives: the positive receive results up to
    the pass that ends the loop. *)
Fixpoint requests (script : list pass) : list Z :=
  match script with
  | [] => []
  | SessionExited :: _ => []
  | Received r tmpch process_buf :: script' =>
      if r =? - EINTR then requests script'
      else if r <=? 0 then []
      else r :: (if is_null process_buf then [] else requests script')
  end.

(** Every per-request buffer the loop asks for is allocated. *)
Fixpoint allocations_succeed (script : list pass) : Prop :=
  match script with
  | [] => True
  | SessionExited :: _ => True
  | Received r tmpch process_buf :: script' =>
      if r =? - EINTR then allocations_succeed script'
      else if r <=? 0 then True
      else process_buf ≠ NULL ∧ allocations_succeed script'
  end.

(** *** The loop and its task group running together

    The reader thread runs the loop; a block handed to the group runs at
    any later time, in any order with the reader and with the other
    blocks; [dispatch_group_wait] with [DISPATCH_TIME_FOREVER] returns
    when no block of the group is left. *)
Inductive reader :=
| Reading (script : list pass) (st : loop_state)
| Waiting (st : loop_state)
| Returned (ret : Z).

Record system := {
  rd : reader;
  pending : list block;
  processed : list block
}.

Definition system_init (script : list pass) : system :=
  {| rd := Reading script loop_init; pending := []; processed := [] |}.

Inductive step : system → system → Prop :=
| step_exited script st pend done :
    step {| rd := Reading (SessionExited :: script) st;
            pending := pend; processed := done |}
         {| rd := Waiting st; pending := pend; processed := done |}
| step_pass r tmpch process_buf script st pend done :
    let p := loop_body r tmpch process_buf in
    step {| rd := Reading (Received r tmpch process_buf :: script) st;
            pending := pend; processed := done |}
         {| rd := match ctl p with
                  | Break => Waiting (apply_pass p st)
                  | _ => Reading script (apply_pass p st)
                  end;
            pending := pend ++ option_list (submit p);
            processed := done |}
| step_block r pend1 b pend2 done :
    step {| rd := r; pending := pend1 ++ b :: pend2; processed := done |}
         {| rd := r; pending := pend1 ++ pend2; processed := done ++ [b] |}
| step_wait st done :
    step {| rd := Waiting st; pending := []; processed := done |}
         {| rd := Returned (if res st <? 0 then -1 else 0);
            pending := []; processed := done |}.

(** What holds of every state the system reaches on [script]: the reader
    is where the sequential loop would be, and every block handed to the
    group so far is either pending or has been run, once. *)
Definition consistent (script : list pass) (sys : system) : Prop :=
  match rd sys with
  | Reading rest st =>
      while_loop script loop_init = while_loop rest st
      ∧ submitted st ≡ₚ processed sys ++ pending sys
  | Waiting st =>
      while_loop script loop_init = Some st
      ∧ submitted st ≡ₚ processed sys ++ pending sys
  | Returned ret =>
      ∃ st, while_loop script loop_init = Some st
            ∧ ret = (if res st <? 0 then -1 else 0)
            ∧ pending sys = []
            ∧ submitted st ≡ₚ processed sys
  end.

End Errno.

Definition example_setup : setup :=
  {| buf := Some 100%positive; queue := Some 101%positive;
     group := Some 102%positive; group_wait := 0 |}.

End LoopDispatch.

(** ** lib/fuse_mt.c *)

Module Mt.

Definition FUSE_NUM_WORKERS : nat := 5.

Record fuse_worker := {
  w_f : ptr;
  w_data : ptr;
  w_proc : fn
}.

(** One call [w->proc (w->f, cmd, w->data)], and the thread that made
    it. *)
Record call := {
  c_thread : nat;
  c_proc : fn;
  c_f : ptr;
  c_cmd : addr;
  c_data : ptr
}.

(** The process: running, with the values [__fuse_read_cmd] is still to
    return ([NULL] for a failed read) and the calls made so far; or ended
    by [exit]. *)
Inductive process :=
| Alive (reads : list ptr) (calls : list call) (err : list string)
| Exited (status : Z) (calls : list call) (err : list string).

(** One pass of the [while (1)] loop of [do_work], made by thread [t].
    With no value to read the thread stays blocked in the read; after
    [exit] no thread runs. The loop has no [break] and no [return]. *)
Definition do_work_pass (w : fuse_worker) (t : nat) (p : process)
    : process :=
  match p with
  | Alive (Some cmd :: reads) calls err =>
      Alive reads
        (calls ++ [{| c_thread := t; c_proc := w_proc w; c_f := w_f w;
                      c_cmd := cmd; c_data := w_data w |}]) err
  | Alive (None :: reads) calls err => Exited 1 calls err
  | Alive [] calls err => p
  | Exited _ _ _ => p
  end.

(** [do_work] run by thread [t] alone, as far as the reads go. *)
Fixpoint do_work (w : fuse_worker) (t : nat) (n : nat) (p : process)
    : process :=
  match n with
  | O => p
  | S n' => do_work w t n' (do_work_pass w t p)
  end.

(** The threads of the process: [pool !! t] is the worker that thread [t]
    runs [do_work] on. *)
Record mt_state := {
  pool : list fuse_worker;
  proc : process
}.

Section Threads.

(** [pthread_create_res i] is what the [i]-th call of [pthread_create]
    returns. *)
Variable pthread_create_res : nat → Z.

Definition start_thread (i : nat) (w : fuse_worker) (st : mt_state)
    : mt_state :=
  match proc st with
  | Exited _ _ _ => st
  | Alive reads calls err =>
      if pthread_create_res i =? 0
      then {| pool := pool st ++ [w]; proc := proc st |}
      else {| pool := pool st;
              proc := Exited 1 calls (err ++ ["Error creating thread"]) |}
  end.

(** The state when the calling thread enters its own [do_work]: thread 0
    is the caller, threads 1 to [FUSE_NUM_WORKERS - 1] are the ones
    started. *)
Definition __fuse_loop_mt (f : ptr) (processor : fn) (data : ptr)
    (reads : list ptr) : mt_state :=
  let w := {| w_f := f; w_data := data; w_proc := processor |} in
  foldl (fun st i => start_thread i w st)
    {| pool := [w]; proc := Alive reads [] [] |}
    (seq 1 (FUSE_NUM_WORKERS - 1)).

End Threads.

(** The threads take turns in the order [sched]; a turn is one pass of
    the thread's loop. *)
Fixpoint run (workers : list fuse_worker) (sched : list nat) (p : process)
    : process :=
  match sched with
  | [] => p
  | t :: sched' =>
      match workers !! t with
      | Some w => run workers sched' (do_work_pass w t p)
      | None => run workers sched' p
      end
  end.

Definition commands (calls : list call) : list ptr :=
  (fun c => Some (c_cmd c)) <$> calls.

(** The calls made are the commands read so far, and the process has
    ended, with status 1, exactly when a read has failed. *)
Definition read_so_far (reads : list ptr) (p : process) : Prop :=
  match p with
  | Alive rest calls _ => reads = commands calls ++ rest
  | Exited status calls _ =>
      status = 1 ∧ ∃ rest, reads = commands calls ++ NULL :: rest
  end.

Definition always_created (i : nat) : Z := 0.

End Mt.

(** * The rest of the library code

    The functions below complete the files above. Where a function calls
    through an operation-table entry or into another part of the program
    for which the trace has no event, what the callee does and returns is
    a parameter of the section: a computation in [M]. *)

(** ** lib/fuse_session.c, remaining functions *)

Definition free_session (p : ptr) : M unit :=
  fun s => match p with
           | Some a => match sessions s !! a with
                       | Some _ =>
                           Ret tt (upd_trace (fun t => t ++ [EvFree a])
                                     (upd_sessions (delete a) s))
                       | None => Undef
                       end
           | None => Ret tt s
           end.

(** [malloc] returned [m]; [memset] zeroes the session before [op] and
    [data] are stored. *)
Definition fuse_session_new (m : ptr) (op : fuse_session_ops) (data : ptr)
    : M ptr :=
  match m with
  | None =>
      fprintf_stderr "fuse: failed to allocate session" ;;;
      ret NULL
  | Some a =>
      fun s =>
        Ret (Some a)
          (upd_sessions
             (insert a {| se_op := op; se_receive_buf := None;
                          se_process_buf := None; se_data := data;
                          se_exited := 0; se_ch := NULL |}) s)
  end.

Definition fuse_session_data (se : ptr) : M ptr :=
  s <- load_session se ;; ret (se_data s).

Section SessionCallbacks.

(** [se->op.destroy (se->data)], [se->op.exited (se->data)] and
    [se->receive_buf (se, buf, chp)]; the last returns its result together
    with the buffer and the channel pointer it leaves. *)
Variable call_destroy : fn → ptr → M unit.
Variable call_exited : fn → ptr → M Z.
Variable call_receive_buf : fn → ptr → fuse_buf → ptr → M (Z * fuse_buf * ptr).

Definition set_buf_size (b : fuse_buf) (n : Z) : fuse_buf :=
  {| buf_size := n; buf_flags := buf_flags b; buf_mem := buf_mem b;
     buf_fd := buf_fd b |}.

(** Returns [res] together with [*buf] and [*chp] as the call leaves
    them. *)
Definition fuse_session_receive_buf (recv : Z) (se : ptr) (buf : fuse_buf)
    (chp : ptr) : M (Z * fuse_buf * ptr) :=
  s <- load_session se ;;
  match se_receive_buf s with
  | Some f => call_receive_buf f se buf chp
  | None =>
      res <- fuse_chan_recv recv chp (buf_mem buf) (buf_size buf) ;;
      ret (res, if 0 <? res then set_buf_size buf res else buf, chp)
  end.

Definition fuse_session_destroy (pf : platform) (se : ptr) : M unit :=
  s <- load_session se ;;
  match op_destroy (se_op s) with
  | Some f => call_destroy f (se_data s)
  | None => ret tt
  end ;;;
  s' <- load_session se ;;
  (if is_null (se_ch s') then ret tt else fuse_chan_destroy pf (se_ch s')) ;;;
  free_session se.

Definition fuse_session_exited (se : ptr) : M Z :=
  s <- load_session se ;;
  match op_exited (se_op s) with
  | Some f => call_exited f (se_data s)
  | None => ret (se_exited s)
  end.

End SessionCallbacks.

(** ** lib/helper.c, mounting *)

(** The loop at the start of [fuse_mount_common], which makes sure that
    descriptors 0, 1 and 2 are open; [opens] are the values the calls of
    [open] return. It gives the descriptors left open and the ones closed
    again, or [None] when the script ends with the loop still running.
    The loop touches nothing else. *)
Fixpoint open_std_fds (opens : list Z) (kept closed : list Z)
    : option (list Z * list Z) :=
  match opens with
  | [] => None
  | fd :: opens' =>
      let closed' := if 2 <? fd then closed ++ [fd] else closed in
      if (0 <=? fd) && (fd <=? 2) then open_std_fds opens' (kept ++ [fd]) closed'
      else Some (kept, closed')
  end.

Definition std_fd (fd : Z) : Prop := 0 ≤ fd ≤ 2.

(** [<sys/param.h>] on Darwin. *)
Definition MAXPATHLEN : nat := 1024.

(** [struct fuse_mount_context], with the address [calloc] gave it. *)
Record fuse_mount_context := {
  mc_addr : addr;
  mc_mountpoint : string;
  mc_ch : ptr
}.

Definition set_mc_ch (mc : fuse_mount_context) (ch : ptr)
    : fuse_mount_context :=
  {| mc_addr := mc_addr mc; mc_mountpoint := mc_mountpoint mc; mc_ch := ch |}.

(** [calloc] returned [m]; the result is not checked before it is used. *)
Definition fuse_mount_context_new (m : ptr) (mountpoint : string)
    : M fuse_mount_context :=
  match m with
  | None => undef
  | Some a =>
      ret {| mc_addr := a;
             mc_mountpoint := String.substring 0 (MAXPATHLEN - 1) mountpoint;
             mc_ch := NULL |}
  end.

Definition fuse_mount_context_destroy (mc : fuse_mount_context) : M unit :=
  emit (EvMutexDestroy (Some (mc_addr mc))) ;;;
  (if is_null (mc_ch mc) then ret tt else fuse_chan_release (mc_ch mc)) ;;;
  emit (EvFree (mc_addr mc)).

(** [url] is what [CFURLCreateFromFileSystemRepresentation] returned and
    [disk] what [DADiskCreateFromVolumePath] returned; the retain counts
    in [cf] include the one each creation gives. *)
Definition fuse_mount_callback (mc : fuse_mount_context) (status : Z)
    (url disk : ptr) : M unit :=
  (if negb (status =? 0) then
     fprintf_stderr "fuse: mount failed with error"
   else
     CFRelease url ;;;
     if is_null disk then ret tt
     else fuse_chan_set_disk (mc_ch mc) disk ;;; CFRelease disk) ;;;
  fuse_mount_context_destroy mc.

(** [fd] is what the platform mount returned and [ch] what
    [fuse_kern_chan_new (fd)] returned. Besides the channel the function
    gives the mount context it has left for the callback, if any. The
    descriptor loop [open_std_fds] comes first. *)
Definition fuse_mount_common (pf : platform) (m : ptr) (mountpoint : string)
    (fd : Z) (ch : ptr) : M (ptr * option fuse_mount_context) :=
  match pf with
  | Darwin =>
      mc <- fuse_mount_context_new m mountpoint ;;
      if fd =? -1 then
        fuse_mount_context_destroy mc ;;;
        ret (NULL, None)
      else if is_null ch then
        emit (EvKernUnmountDisk NULL fd) ;;;
        ret (ch, Some mc)
      else
        fuse_chan_retain ch ;;;
        ret (ch, Some (set_mc_ch mc ch))
  | Other =>
      if fd =? -1 then ret (NULL, None)
      else if is_null ch then
        emit (EvKernUnmountPath mountpoint fd) ;;;
        ret (ch, None)
      else ret (ch, None)
  end.

Definition fuse_mount (pf : platform) (m : ptr) (mountpoint : string)
    (fd : Z) (ch : ptr) : M (ptr * option fuse_mount_context) :=
  fuse_mount_common pf m mountpoint fd ch.

(** ** lib/fuse_signals.c, the handler *)

(** [instance] is the value of [fuse_instance] when the signal arrives. *)
Definition exit_handler (pf : platform) (instance : ptr) : M unit :=
  if is_null instance then ret tt
  else
    match pf with
    | Darwin =>
        ch <- fuse_session_next_chan instance NULL ;;
        if is_null ch then ret tt else fuse_unmount Darwin None ch
    | Other => fuse_session_exit instance
    end.

(** ** lib/helper.c, tearing down *)

Section Teardown.

Import Signals.

Variable sigaction_get_fails : Z → bool.
Variable sigaction_set_fails : Z → bool.

(** What [fuse_destroy (fuse)] does. *)
Variable fuse_destroy : M unit.

(** [se] is what [fuse_get_session (fuse)] returns. The function works on
    the signal state and on the heap; [free (mountpoint)] touches
    neither. *)
Definition fuse_teardown_common (pf : platform) (se : ptr)
    (mountpoint : option string) (st : sig_state) (s : state)
    : sig_state * outcome unit :=
  match fuse_session_next_chan se NULL s with
  | Ret ch s1 =>
      (fuse_remove_signal_handlers sigaction_get_fails sigaction_set_fails
         pf se st,
       (fuse_unmount_common pf mountpoint ch ;;; fuse_destroy) s1)
  | Halt h s1 => (st, Halt h s1)
  | Undef => (st, Undef)
  end.

Definition fuse_teardown (pf : platform) (se : ptr)
    (mountpoint : option string) (st : sig_state) (s : state)
    : sig_state * outcome unit :=
  fuse_teardown_common pf se mountpoint st s.

End Teardown.

(** ** lib/helper.c, the command line *)

Module Cmdline.

(** [strrchr (s, c)] for a character [c] other than NUL: the part of [s]
    from the last [c] on. *)
Fixpoint strrchr (s : string) (c : Ascii.ascii) : option string :=
  match s with
  | EmptyString => None
  | String a s' =>
      match strrchr s' c with
      | Some r => Some r
      | None => if Ascii.eqb a c then Some s else None
      end
  end.

(** The character ['/']. *)
Definition slash : Ascii.ascii := Eval cbv in Ascii.ascii_of_nat 47.

(** The [basename] that [add_default_subtype] computes from
    [progname]. *)
Definition subtype_basename (progname : string) : string :=
  match strrchr progname slash with
  | None => progname
  | Some basename =>
      match basename with
      | String _ (String b rest) => String b rest
      | _ => basename
      end
  end.

(** [subtype_opt] is what [malloc] returned and [add_arg] what
    [fuse_opt_add_arg] returns. The function gives its result, the
    argument it has added and what it wrote to [stderr]. *)
Definition add_default_subtype (subtype_opt : ptr) (add_arg : Z)
    (progname : string) : Z * option string * list string :=
  let basename := subtype_basename progname in
  match subtype_opt with
  | None => (-1, None, ["fuse: memory allocation failed"])
  | Some _ => (add_arg, Some ("-osubtype=" +:+ basename), [])
  end.

(** [struct helper_opts], as [fuse_opt_parse] has filled it. *)
Record helper_opts := {
  ho_foreground : Z;
  ho_singlethread : Z;
  ho_loop : option string;
  ho_nodefault_subtype : Z;
  ho_mountpoint : option string
}.

(** The members of [hopts] that [fuse_parse_cmdline] hands to [free]. *)
Inductive freed := FreeLoop | FreeMountpoint.

(** What [fuse_parse_cmdline] leaves: its result, the values stored
    through the three pointers (nothing for a pointer that was not
    written), the calls of [free] in order, and [stderr]. *)
Record cmdline := {
  cl_res : Z;
  cl_mountpoint : option (option string);
  cl_multithreaded : option Z;
  cl_foreground : option Z;
  cl_freed : list freed;
  cl_stderr : list string
}.

Section Loops.

(** [FUSE_LOOP_SINGLE_THREADED], [FUSE_LOOP_MULTI_THREADED] and
    [FUSE_LOOP_DISPATCH] come from [fuse.h]. *)
Variables FUSE_LOOP_SINGLE_THREADED FUSE_LOOP_MULTI_THREADED
          FUSE_LOOP_DISPATCH : Z.

(** The choice of the loop in [fuse_parse_cmdline]: the value stored in
    [*multithreaded], or [None] for [goto err]. *)
Definition select_loop (hopts : helper_opts) : option Z :=
  if negb (ho_singlethread hopts =? 0) then Some FUSE_LOOP_SINGLE_THREADED
  else
    match ho_loop hopts with
    | Some l =>
        if String.eqb l "single_threaded" then Some FUSE_LOOP_SINGLE_THREADED
        else if String.eqb l "multi_threaded" then Some FUSE_LOOP_MULTI_THREADED
        else if String.eqb l "dispatch" then Some FUSE_LOOP_DISPATCH
        else None
    | None => Some FUSE_LOOP_MULTI_THREADED
    end.

(** [parse] is what [fuse_opt_parse] returned and [subtype] what
    [add_default_subtype] returns; the three flags tell which of the
    pointers [mountpoint], [multithreaded] and [foreground] are not
    [NULL]. *)
Definition fuse_parse_cmdline (parse : Z) (hopts : helper_opts)
    (subtype : Z) (mountpoint multithreaded foreground : bool) : cmdline :=
  let err frees log wrote :=
    {| cl_res := -1; cl_mountpoint := wrote; cl_multithreaded := None;
       cl_foreground := None;
       cl_freed := frees ++ [FreeLoop; FreeMountpoint];
       cl_stderr := log |} in
  if parse =? -1 then
    {| cl_res := -1; cl_mountpoint := None; cl_multithreaded := None;
       cl_foreground := None; cl_freed := []; cl_stderr := [] |}
  else if (ho_nodefault_subtype hopts =? 0) && (subtype =? -1) then
    err [] [] None
  else
    let wrote := if mountpoint then Some (ho_mountpoint hopts) else None in
    let frees := if mountpoint then [] else [FreeMountpoint] in
    match (if multithreaded then select_loop hopts
           else Some 0) with
    | None => err frees ["fuse: invalid option loop"] wrote
    | Some m =>
        {| cl_res := 0; cl_mountpoint := wrote;
           cl_multithreaded := if multithreaded then Some m else None;
           cl_foreground :=
             if foreground then Some (ho_foreground hopts) else None;
           cl_freed := frees; cl_stderr := [] |}
    end.




End Loops.

End Cmdline.

(** ** lib/helper.c, setting up *)

Module Setup.
Import Cmdline.

(** The calls [fuse_setup_common] makes after the command line is parsed,
    with the arguments that matter. *)
Inductive action :=
| Stderr (msg : string)
| MountCommon (mountpoint : option string)
| OptFreeArgs
| NewCommon (ch : ptr)
| Daemonize (foreground : Z)
| SetSignalHandlers (se : ptr)
| ChanFd (ch : ptr)
| UnmountCommon (mountpoint : option string) (ch : ptr)
| Destroy (fuse : ptr)
| Free (mountpoint : option string).

(** What the calls return: the channel of [fuse_mount_common], the file
    system of [fuse_new_common] and its session, and the results of
    [fuse_daemonize] and [fuse_set_signal_handlers]. *)
Record world := {
  w_ch : ptr;
  w_fuse : ptr;
  w_session : ptr;
  w_daemonize : Z;
  w_signals : Z
}.

Definition is_free (a : action) : bool :=
  match a with Free _ => true | _ => false end.

Definition is_unmount (a : action) : bool :=
  match a with UnmountCommon _ _ => true | _ => false end.

Definition is_destroy (a : action) : bool :=
  match a with Destroy _ => true | _ => false end.

Definition is_free_args (a : action) : bool :=
  match a with OptFreeArgs => true | _ => false end.

Definition is_mount (a : action) : bool :=
  match a with MountCommon _ => true | _ => false end.

Definition is_free_mountpoint (f : freed) : bool :=
  match f with FreeMountpoint => true | FreeLoop => false end.

Section Loops.

Variables FUSE_LOOP_SINGLE_THREADED FUSE_LOOP_MULTI_THREADED
          FUSE_LOOP_DISPATCH : Z.

(** [fuse_setup_common] called with a place for the mount point;
    [multithreaded] and [fd] tell whether these two pointers are not
    [NULL]. The function gives the file system it returns, what
    [fuse_parse_cmdline] left and the calls made after it, in order. *)
Definition fuse_setup_common (pf : platform) (parse : Z)
    (hopts : helper_opts) (subtype : Z) (multithreaded fd : bool)
    (w : world) : ptr * cmdline * list action :=
  let cl := fuse_parse_cmdline FUSE_LOOP_SINGLE_THREADED
              FUSE_LOOP_MULTI_THREADED FUSE_LOOP_DISPATCH
              parse hopts subtype true multithreaded true in
  let mountpoint := ho_mountpoint hopts in
  let foreground := ho_foreground hopts in
  let err_free := [Free mountpoint] in
  let err_unmount fuse :=
    UnmountCommon mountpoint (w_ch w)
    :: (if is_null fuse then [] else [Destroy fuse]) ++ err_free in
  if cl_res cl =? -1 then (NULL, cl, [])
  else if match pf with
          | Darwin => bool_decide (mountpoint = None)
          | Other => false
          end
  then (NULL, cl, [Stderr "fuse: no mount point"])
  else if is_null (w_ch w) then
    (NULL, cl, [MountCommon mountpoint; OptFreeArgs] ++ err_free)
  else
    let made := [MountCommon mountpoint; NewCommon (w_ch w); OptFreeArgs] in
    if is_null (w_fuse w) then (NULL, cl, made ++ err_unmount NULL)
    else if w_daemonize w =? -1 then
      (NULL, cl, made ++ [Daemonize foreground] ++ err_unmount (w_fuse w))
    else if w_signals w =? -1 then
      (NULL, cl,
       made ++ [Daemonize foreground; SetSignalHandlers (w_session w)]
         ++ err_unmount (w_fuse w))
    else
      (w_fuse w, cl,
       made ++ [Daemonize foreground; SetSignalHandlers (w_session w)]
         ++ (if fd then [ChanFd (w_ch w)] else [])).

End Loops.

End Setup.

(** * Properties *)

(** ** Stepping the monad *)

Lemma bind_Ret {A B} (m : M A) (k : A → M B) s a s' :
  m s = Ret a s' → bind m k s = k a s'.
Proof. unfold bind. by intros ->. Qed.

Lemma load_chan_Some a c s :
  chans s !! a = Some c → load_chan (Some a) s = Ret c s.
Proof. unfold load_chan. by intros ->. Qed.

Lemma load_session_Some a x s :
  sessions s !! a = Some x → load_session (Some a) s = Ret x s.
Proof. unfold load_session. by intros ->. Qed.

Lemma store_chan_Some a c x s :
  chans s !! a = Some c →
  store_chan (Some a) x s = Ret tt (upd_chans (insert a x) s).
Proof. unfold store_chan. by intros ->. Qed.

Lemma store_session_Some a c x s :
  sessions s !! a = Some c →
  store_session (Some a) x s = Ret tt (upd_sessions (insert a x) s).
Proof. unfold store_session. by intros ->. Qed.

Lemma frees_app a t1 t2 : frees a (t1 ++ t2) = (frees a t1 + frees a t2)%nat.
Proof. unfold frees. by rewrite List.filter_app, length_app. Qed.

(** ** Reference counting (fuse_chan_retain, fuse_chan_release) *)

Lemma fuse_chan_retain_live a c s :
  chans s !! a = Some c →
  fuse_chan_retain (Some a) s =
    if ch_retain_count c <? INT_MAX
    then Ret tt (upd_chans
                   (insert a (set_ch_retain_count c (ch_retain_count c + 1))) s)
    else Undef.
Proof.
  intros H. unfold fuse_chan_retain.
  rewrite (bind_Ret _ _ _ _ _ (load_chan_Some _ _ _ H)).
  destruct (_ <? _); [|done]. by apply (store_chan_Some _ c).
Qed.

Lemma fuse_chan_release_live a c s :
  chans s !! a = Some c →
  fuse_chan_release (Some a) s =
    if INT_MIN <? ch_retain_count c then
      if ch_retain_count c - 1 =? 0 then
        Ret tt
          (upd_trace (fun t => t ++ [EvFree a])
             (upd_chans (delete a)
                ((if is_null (ch_disk c) then id
                  else fun s1 =>
                         match ch_disk c with
                         | Some d =>
                             upd_trace (fun t => t ++ [EvCFRelease d])
                               (upd_cf (insert d (cf_count s1 d - 1)) s1)
                         | None => s1
                         end)
                   (upd_trace (fun t => t ++ [EvMutexDestroy (Some a)])
                      (upd_chans
                         (insert a (set_ch_retain_count c
                                      (ch_retain_count c - 1))) s)))))
      else
        Ret tt (upd_chans
                  (insert a (set_ch_retain_count c (ch_retain_count c - 1))) s)
    else Undef.
Proof.
  intros H. unfold fuse_chan_release.
  rewrite (bind_Ret _ _ _ _ _ (load_chan_Some _ _ _ H)).
  destruct (_ <? _); [|done].
  rewrite (bind_Ret _ _ _ _ _ (store_chan_Some _ c _ _ H)).
  destruct (_ =? _); [|done].
  unfold bind at 1. cbn [emit].
  destruct (ch_disk c) as [d|]; cbn [is_null]; unfold bind, CFRelease, ret, free_chan;
    cbn; by rewrite lookup_insert_eq.
Qed.

Lemma retains_cons c cs :
  retains (c :: cs) = (if is_retain c then 1 else 0) + retains cs.
Proof. unfold retains. cbn. destruct (is_retain c); cbn [length]; lia. Qed.

Lemma releases_cons c cs :
  releases (c :: cs) = (if is_retain c then 0 else 1) + releases cs.
Proof. unfold releases. cbn. destruct (is_retain c); cbn [length negb]; lia. Qed.

(** No call can follow the one that freed the channel. *)
Lemma do_calls_freed a cs s s2 :
  chans s !! a = None → do_calls (Some a) cs s = Ret tt s2 → cs = [] ∧ s2 = s.
Proof.
  intros Hn. destruct cs as [|c cs]; cbn.
  - unfold ret. by intros [= ->].
  - unfold bind. destruct c; cbn;
      unfold fuse_chan_retain, fuse_chan_release, bind, load_chan;
      by rewrite Hn.
Qed.

Lemma do_calls_spec cs : ∀ s a c s2,
  chans s !! a = Some c →
  1 ≤ ch_retain_count c →
  do_calls (Some a) cs s = Ret tt s2 →
  match chans s2 !! a with
  | Some c2 =>
      ch_retain_count c2 = ch_retain_count c + retains cs - releases cs
      ∧ 1 ≤ ch_retain_count c2
      ∧ frees a (trace s2) = frees a (trace s)
  | None =>
      releases cs = retains cs + ch_retain_count c
      ∧ frees a (trace s2) = S (frees a (trace s))
  end.
Proof.
  induction cs as [|k cs IH]; intros s a c s2 Hc Hpos Hrun.
  - cbn in Hrun. unfold ret in Hrun. injection Hrun as <-.
    rewrite Hc. unfold retains, releases. cbn. repeat split; lia.
  - cbn [do_calls] in Hrun. unfold bind in Hrun.
    rewrite retains_cons, releases_cons. destruct k; cbn [do_call is_retain] in *.
    + rewrite (fuse_chan_retain_live _ _ _ Hc) in Hrun.
      destruct (ch_retain_count c <? INT_MAX) eqn:Hlt; [|done].
      eapply IH in Hrun; [|cbn; apply lookup_insert_eq|cbn; lia].
      cbn [ch_retain_count set_ch_retain_count trace upd_chans] in Hrun.
      destruct (chans s2 !! a); lia.
    + rewrite (fuse_chan_release_live _ _ _ Hc) in Hrun.
      destruct (INT_MIN <? ch_retain_count c); [|done].
      destruct (ch_retain_count c - 1 =? 0) eqn:Hz.
      * apply Z.eqb_eq in Hz.
        apply do_calls_freed in Hrun as [-> ->].
        2:{ cbn. destruct (ch_disk c); cbn; apply lookup_delete_eq. }
        destruct (ch_disk c);
          cbn [is_null id chans trace upd_trace upd_chans upd_cf];
          rewrite lookup_delete_eq, !frees_app;
          unfold retains, releases; cbn;
          rewrite bool_decide_eq_true_2 by done; cbn; lia.
      * apply Z.eqb_neq in Hz.
        eapply IH in Hrun; [|cbn; apply lookup_insert_eq|cbn; lia].
        cbn [ch_retain_count set_ch_retain_count trace upd_chans] in Hrun.
      destruct (chans s2 !! a); lia.
Qed.

(** Conversely the run is defined whenever the channel is not used after
    the release that balances the count, and the count fits an [int]. *)
Lemma do_calls_defined cs : ∀ s a c,
  chans s !! a = Some c →
  1 ≤ ch_retain_count c →
  ch_retain_count c + retains cs ≤ INT_MAX →
  (∀ k, (k < length cs)%nat →
        releases (take k cs) < retains (take k cs) + ch_retain_count c) →
  ∃ s2, do_calls (Some a) cs s = Ret tt s2.
Proof.
  induction cs as [|k cs IH]; intros s a c Hc Hpos Hmax Hpre.
  - by eexists.
  - cbn [do_calls]. unfold bind. rewrite retains_cons in Hmax.
    assert (Hstep : ∀ j, (j < length cs)%nat →
              (if is_retain k then 0 else 1) + releases (take j cs)
              < (if is_retain k then 1 else 0) + retains (take j cs)
                + ch_retain_count c).
    { intros j Hj. specialize (Hpre (S j)). cbn [take length] in Hpre.
      rewrite retains_cons, releases_cons in Hpre. apply Hpre. lia. }
    pose proof (releases_nonneg := λ l : list chan_call,
                  Nat2Z.is_nonneg (length (List.filter (λ c, negb (is_retain c)) l))).
    pose proof (retains_nonneg := λ l : list chan_call,
                  Nat2Z.is_nonneg (length (List.filter is_retain l))).
    fold (retains cs) in *. destruct k; cbn [do_call is_retain] in *.
    + rewrite (fuse_chan_retain_live _ _ _ Hc).
      specialize (retains_nonneg cs). fold (retains cs) in retains_nonneg.
      destruct (Z.ltb_spec (ch_retain_count c) INT_MAX); [|lia].
      eapply IH; [cbn; apply lookup_insert_eq|cbn; lia|cbn; lia|].
      intros j Hj. specialize (Hstep j Hj). cbn. lia.
    + rewrite (fuse_chan_release_live _ _ _ Hc).
      destruct (Z.ltb_spec INT_MIN (ch_retain_count c)); [|unfold INT_MIN in *; lia].
      destruct (Z.eqb_spec (ch_retain_count c - 1) 0) as [Hz|Hz].
      * destruct cs as [|k' cs]; [by eexists|].
        specialize (Hstep 0%nat). cbn [length take] in Hstep.
        unfold releases, retains in Hstep. cbn in Hstep. lia.
      * eapply IH; [cbn; apply lookup_insert_eq|cbn; lia|cbn; lia|].
        intros j Hj. specialize (Hstep j Hj). cbn. lia.
Qed.

(** C1. [fuse_chan_new_common] creates the channel with
    [retain_count = 1]. Take any sequence of [fuse_chan_retain] and
    [fuse_chan_release] calls on it.
    - The sequence runs whenever the channel is not used after the release
      that balances the count and the count fits an [int].
    - Whenever the sequence runs, the channel block is freed at most once;
      it is freed exactly when the releases equal the retains plus the
      initial one; and it is gone from the heap exactly when it was
      freed. *)
Theorem fuse_chan_freed_iff_balanced
    (a : addr) (op : fuse_chan_ops) (fd bufsize : Z) (data : ptr)
    (compat : Z) (cs : list chan_call) (s0 : state) :
  ∃ s1 c,
    fuse_chan_new_common (Some a) op fd bufsize data compat s0
      = Ret (Some a) s1
    ∧ chans s1 !! a = Some c
    ∧ ch_retain_count c = 1
    ∧ trace s1 = trace s0
    ∧ (retains cs < INT_MAX →
       (∀ k, (k < length cs)%nat →
             releases (take k cs) < retains (take k cs) + 1) →
       ∃ s2, do_calls (Some a) cs s1 = Ret tt s2)
    ∧ ∀ s2,
        do_calls (Some a) cs s1 = Ret tt s2 →
        ∃ n : nat,
          frees a (trace s2) = (frees a (trace s1) + n)%nat
          ∧ (n ≤ 1)%nat
          ∧ (n = 1%nat ↔ releases cs = retains cs + 1)
          ∧ (chans s2 !! a = None ↔ n = 1%nat).
Proof.
  eexists. eexists. split; [reflexivity|].
  split; [cbn; apply lookup_insert_eq|]. split; [done|]. split; [done|].
  split.
  - intros Hmax Hpre.
    eapply do_calls_defined; [cbn; apply lookup_insert_eq|cbn; lia| |done].
    cbn. unfold INT_MAX in *. lia.
  - intros s2 Hrun.
    eapply do_calls_spec in Hrun; [|cbn; apply lookup_insert_eq|cbn; lia].
    cbn [ch_retain_count trace upd_chans] in Hrun.
    destruct (chans s2 !! a) as [c2|].
    + destruct Hrun as (Hcnt & Hpos & ->). exists 0%nat.
      cbn [trace upd_chans]. repeat split; try lia; try done.
    + destruct Hrun as (Hcnt & ->). exists 1%nat. cbn [trace upd_chans].
      repeat split; try lia; try done.
Qed.

(** A channel is retained once and released twice: the second release
    frees it. *)
Lemma fuse_chan_freed_iff_balanced_example :
  ∃ s1 s2,
    fuse_chan_new_common (Some 1%positive) example_chan_ops 3 4096 NULL 0
      empty_state = Ret (Some 1%positive) s1
    ∧ do_calls (Some 1%positive) [Retain; Release; Release] s1 = Ret tt s2
    ∧ chans s2 !! 1%positive = None
    ∧ trace s2 = [EvMutexDestroy (Some 1%positive); EvFree 1%positive]
    ∧ do_calls (Some 1%positive) [Retain; Release; Release; Retain] s1
      = Undef.
Proof.
  do 2 eexists. split; [reflexivity|]. split; [vm_compute; reflexivity|].
  repeat split.
Qed.

(** ** Receiving from a channel (fuse_chan_receive) *)

(** C10. On a live channel [fuse_chan_receive] calls the channel's
    receive operation once and normalizes what it returned: a result
    [>= 0] is passed on unchanged, [-EINTR] and [-EAGAIN] become [0], every
    other negative result becomes [-1]; so the caller never sees a value
    below [-1]. *)
Theorem fuse_chan_receive_normalizes
    (EINTR EAGAIN : Z) (recv : Z) (a : addr) (c : fuse_chan) (buf : ptr)
    (size : Z) (s : state) :
  0 < EINTR → 0 < EAGAIN →
  chans s !! a = Some c →
  ∃ r,
    fuse_chan_receive EINTR EAGAIN recv (Some a) buf size s
      = Ret r (upd_trace
                 (fun t => t ++ [EvChanReceive (op_receive (ch_op c))
                                   (negb (ch_compat c =? 0)) (Some a) buf size])
                 s)
    ∧ (0 ≤ recv → r = recv)
    ∧ (recv = - EINTR ∨ recv = - EAGAIN → r = 0)
    ∧ (recv < 0 → recv ≠ - EINTR → recv ≠ - EAGAIN → r = -1)
    ∧ -1 ≤ r.
Proof.
  intros HI HA Hc. eexists. split.
  - unfold fuse_chan_receive, fuse_chan_recv.
    unfold bind at 1. unfold bind at 1.
    rewrite (load_chan_Some _ _ _ Hc). reflexivity.
  - destruct (Z.leb_spec 0 recv), (Z.eqb_spec recv (- EINTR)),
      (Z.eqb_spec recv (- EAGAIN)); cbn; lia.
Qed.

Lemma fuse_chan_receive_normalizes_witness :
  ∃ r s',
    fuse_chan_receive 4 35 (-5) (Some 1%positive) NULL 4096
      (upd_chans
         (insert 1%positive
            {| ch_retain_count := 1; ch_op := example_chan_ops;
               ch_se := NULL; ch_fd := 3; ch_disk := NULL;
               ch_bufsize := 4096; ch_data := NULL; ch_compat := 0 |})
         empty_state) = Ret r s'
    ∧ r = -1.
Proof.
  destruct (fuse_chan_receive_normalizes 4 35 (-5) 1%positive
              {| ch_retain_count := 1; ch_op := example_chan_ops;
                 ch_se := NULL; ch_fd := 3; ch_disk := NULL;
                 ch_bufsize := 4096; ch_data := NULL; ch_compat := 0 |}
              NULL 4096
              (upd_chans
                 (insert 1%positive
                    {| ch_retain_count := 1; ch_op := example_chan_ops;
                       ch_se := NULL; ch_fd := 3; ch_disk := NULL;
                       ch_bufsize := 4096; ch_data := NULL; ch_compat := 0 |})
                 empty_state))
    as (r & Hr & _ & _ & Hneg & _); [lia|lia|reflexivity|].
  exists r. eexists. split; [exact Hr|]. apply Hneg; lia.
Defined.

(** ** The disk reference of a channel (fuse_chan_set_disk, fuse_chan_disk) *)

Lemma fuse_chan_set_disk_live ch c d s :
  chans s !! ch = Some c →
  ∃ s1,
    fuse_chan_set_disk (Some ch) (Some d) s = Ret tt s1
    ∧ chans s1 = <[ch := set_ch_disk c (Some d)]> (chans s)
    ∧ sessions s1 = sessions s
    ∧ trace s1 = trace s ++ EvCFRetain d
                   :: match ch_disk c with
                      | Some old => [EvCFRelease old]
                      | None => []
                      end
    ∧ ∀ x, cf_count s1 x =
           cf_count s x
           + (if bool_decide (x = d) then 1 else 0)
           - (if bool_decide (Some x = ch_disk c) then 1 else 0).
Proof.
  intros Hc. unfold fuse_chan_set_disk, bind, CFRetain, load_chan, store_chan.
  cbn. rewrite Hc.
  destruct (ch_disk c) as [old|] eqn:Hold; cbn; rewrite ?Hc; cbn; eexists;
    (split; [reflexivity|]); cbn; (split; [done|]); (split; [done|]);
    (split; [by rewrite <- ?app_assoc|]); intros x; unfold cf_count; cbn.
  - rewrite !lookup_insert.
    repeat case_decide; repeat case_bool_decide; simplify_eq; cbn;
      rewrite ?lookup_insert_eq; cbn; lia.
  - rewrite !lookup_insert.
    repeat case_decide; repeat case_bool_decide; simplify_eq; cbn; lia.
Qed.

(** C7. On a live channel, [fuse_chan_set_disk] with [ref_a] and then with
    a different [ref_b] leaves [ref_b] in the channel: [fuse_chan_disk]
    returns [ref_b] and has retained it once more for the caller; and the
    second [fuse_chan_set_disk] released [ref_a] exactly once, taking one
    from its retain count. *)
Theorem fuse_chan_set_disk_twice
    (ch : addr) (c : fuse_chan) (ref_a ref_b : addr) (s : state) :
  chans s !! ch = Some c →
  ref_a ≠ ref_b →
  ∃ s1 s2 s3,
    fuse_chan_set_disk (Some ch) (Some ref_a) s = Ret tt s1
    ∧ fuse_chan_set_disk (Some ch) (Some ref_b) s1 = Ret tt s2
    ∧ fuse_chan_disk (Some ch) s2 = Ret (Some ref_b) s3
    ∧ trace s2 = trace s1 ++ [EvCFRetain ref_b; EvCFRelease ref_a]
    ∧ cf_count s2 ref_a = cf_count s1 ref_a - 1
    ∧ trace s3 = trace s2 ++ [EvCFRetain ref_b]
    ∧ cf_count s3 ref_b = cf_count s2 ref_b + 1
    ∧ cf_count s3 ref_a = cf_count s2 ref_a
    ∧ chans s3 = chans s2.
Proof.
  intros Hc Hne.
  destruct (fuse_chan_set_disk_live ch c ref_a s Hc)
    as (s1 & H1 & Hch1 & _ & _ & Hcf1).
  assert (Hc1 : chans s1 !! ch = Some (set_ch_disk c (Some ref_a))).
  { rewrite Hch1. apply lookup_insert_eq. }
  destruct (fuse_chan_set_disk_live ch _ ref_b s1 Hc1)
    as (s2 & H2 & Hch2 & _ & Htr2 & Hcf2).
  assert (Hc2 : chans s2 !! ch
                = Some (set_ch_disk (set_ch_disk c (Some ref_a)) (Some ref_b))).
  { rewrite Hch2. apply lookup_insert_eq. }
  exists s1, s2. eexists. split; [exact H1|]. split; [exact H2|].
  split.
  { unfold fuse_chan_disk, bind, load_chan, CFRetain. rewrite Hc2. cbn.
    reflexivity. }
  split; [exact Htr2|].
  split.
  { rewrite (Hcf2 ref_a). cbn [ch_disk set_ch_disk].
    rewrite bool_decide_eq_false_2, bool_decide_eq_true_2 by done. lia. }
  split; [done|].
  unfold cf_count. cbn. rewrite lookup_insert_eq, lookup_insert_ne by done.
  done.
Qed.

Lemma fuse_chan_set_disk_twice_witness :
  ∃ s1 s2 s3,
    fuse_chan_set_disk (Some 1%positive) (Some 7%positive) example_state
      = Ret tt s1
    ∧ fuse_chan_set_disk (Some 1%positive) (Some 8%positive) s1 = Ret tt s2
    ∧ fuse_chan_disk (Some 1%positive) s2 = Ret (Some 8%positive) s3
    ∧ trace s2 = trace s1 ++ [EvCFRetain 8%positive; EvCFRelease 7%positive]
    ∧ cf_count s2 7%positive = cf_count s1 7%positive - 1
    ∧ trace s3 = trace s2 ++ [EvCFRetain 8%positive]
    ∧ cf_count s3 8%positive = cf_count s2 8%positive + 1
    ∧ cf_count s3 7%positive = cf_count s2 7%positive
    ∧ chans s3 = chans s2.
Proof.
  apply (fuse_chan_set_disk_twice 1%positive example_chan 7%positive
           8%positive example_state); [reflexivity|done].
Defined.

(** ** Binding a channel to a session (fuse_session_add_chan,
       fuse_session_remove_chan) *)

(** C8. For a session without a channel and a channel without a session,
    [fuse_session_add_chan] binds the two to each other and
    [fuse_session_remove_chan] right after it gives back the very state
    that [fuse_session_add_chan] started from. *)
Theorem fuse_session_add_remove_chan
    (se ch : addr) (x : fuse_session) (c : fuse_chan) (s : state) :
  sessions s !! se = Some x →
  se_ch x = NULL →
  chans s !! ch = Some c →
  ch_se c = NULL →
  ∃ s1,
    fuse_session_add_chan (Some se) (Some ch) s = Ret tt s1
    ∧ sessions s1 !! se = Some (set_se_ch x (Some ch))
    ∧ chans s1 !! ch = Some (set_ch_se c (Some se))
    ∧ fuse_session_remove_chan (Some ch) s1 = Ret tt s.
Proof.
  intros Hx Hxn Hc Hcn. eexists. split.
  { unfold fuse_session_add_chan, bind, load_session, load_chan, assert,
      store_session, store_chan.
    rewrite Hx, Hxn. cbn. rewrite Hc, Hcn. cbn. rewrite Hx. cbn. rewrite Hc. reflexivity. }
  cbn. rewrite !lookup_insert_eq. split; [done|]. split; [done|].
  unfold fuse_session_remove_chan, bind, load_session, load_chan, assert,
    store_session, store_chan, ptr_eqb.
  cbn.
  repeat (first [rewrite lookup_insert_eq
                | rewrite bool_decide_eq_true_2 by done]; cbn).
  destruct s as [ss cs cfs tr]. unfold upd_chans, upd_sessions. cbn in *.
  rewrite !insert_insert_eq.
  assert (set_se_ch (set_se_ch x (Some ch)) NULL = x) as ->
    by (destruct x; cbn in *; by subst).
  assert (set_ch_se (set_ch_se c (Some se)) NULL = c) as ->
    by (destruct c; cbn in *; by subst).
  by rewrite !insert_id.
Qed.

Lemma fuse_session_add_remove_chan_witness :
  ∃ s1,
    fuse_session_add_chan (Some 2%positive) (Some 1%positive) example_state
      = Ret tt s1
    ∧ sessions s1 !! 2%positive
      = Some (set_se_ch example_session (Some 1%positive))
    ∧ chans s1 !! 1%positive
      = Some (set_ch_se example_chan (Some 2%positive))
    ∧ fuse_session_remove_chan (Some 1%positive) s1 = Ret tt example_state.
Proof.
  apply (fuse_session_add_remove_chan 2%positive 1%positive example_session
           example_chan example_state); reflexivity.
Defined.

(** ** Processing a request (fuse_session_process_buf) *)

(** Without a [process_buf] override and for a buffer of in-memory bytes,
    [fuse_session_process_buf] is [fuse_session_process] called on
    [se->data] in the place of [se]. *)
Lemma fuse_session_process_buf_degraded se x buf ch s :
  sessions s !! se = Some x →
  se_process_buf x = None →
  Z.land (buf_flags buf) FUSE_BUF_IS_FD = 0 →
  fuse_session_process_buf (Some se) buf ch s
  = fuse_session_process (se_data x) (buf_mem buf) (buf_size buf) ch s.
Proof.
  intros Hx Hno Hfl. unfold fuse_session_process_buf.
  rewrite (bind_Ret _ _ _ _ _ (load_session_Some _ _ _ Hx)).
  rewrite Hno, Hfl. reflexivity.
Qed.

(** A buffer that carries a descriptor fails the assertion of the degraded
    path. *)
Lemma fuse_session_process_buf_fd_asserts se x buf ch s :
  sessions s !! se = Some x →
  se_process_buf x = None →
  Z.land (buf_flags buf) FUSE_BUF_IS_FD ≠ 0 →
  fuse_session_process_buf (Some se) buf ch s
  = Halt (AssertFailed "!(buf->flags & FUSE_BUF_IS_FD)") s.
Proof.
  intros Hx Hno Hfl. unfold fuse_session_process_buf.
  rewrite (bind_Ret _ _ _ _ _ (load_session_Some _ _ _ Hx)).
  rewrite Hno. unfold bind, assert.
  by destruct (Z.eqb_spec (Z.land (buf_flags buf) FUSE_BUF_IS_FD) 0).
Qed.

(** C2. The session at address 2 has no [process_buf] override, its
    [process] operation is function 21 and its [data] is address 5. Given a
    16-byte in-memory buffer, [fuse_session_process_buf] runs function 99
    with data 6, the [process] operation and [data] of whatever session
    lies at address 5; with [data] pointing at no session its behaviour is
    undefined. In neither case does it run the session's own [process]
    operation, which [fuse_session_process] called on the session does. *)
Theorem fuse_session_process_buf_passes_data_for_session :
  fuse_session_process_buf (Some 2%positive) (mem_buf (Some 9%positive) 16)
    (Some 1%positive) (two_session_state (Some 5%positive))
  = Ret tt (upd_trace
              (fun _ => [EvProcess 99%positive (Some 6%positive)
                           (Some 9%positive) 16 (Some 1%positive)])
              (two_session_state (Some 5%positive)))
  ∧ fuse_session_process (Some 2%positive) (Some 9%positive) 16
      (Some 1%positive) (two_session_state (Some 5%positive))
    = Ret tt (upd_trace
                (fun _ => [EvProcess 21%positive (Some 5%positive)
                             (Some 9%positive) 16 (Some 1%positive)])
                (two_session_state (Some 5%positive)))
  ∧ fuse_session_process_buf (Some 2%positive) (mem_buf (Some 9%positive) 16)
      (Some 1%positive) (two_session_state (Some 6%positive))
    = Undef.
Proof. split; [reflexivity|split; reflexivity]. Qed.

(** ** Unmounting (fuse_unmount_common) *)

(** What [fuse_chan_destroy] leaves of the channel on Darwin: one retain
    less, or nothing when that was the last one. *)
Lemma fuse_chan_destroy_darwin_count ch c s s' :
  chans s !! ch = Some c →
  fuse_chan_destroy Darwin (Some ch) s = Ret tt s' →
  match chans s' !! ch with
  | Some c' => ch_retain_count c' = ch_retain_count c - 1
  | None => ch_retain_count c = 1
  end.
Proof.
  intros Hc. unfold fuse_chan_destroy, fuse_session_remove_chan.
  unfold bind at 1. unfold bind at 1.
  rewrite (load_chan_Some _ _ _ Hc).
  assert (Hrel : ∀ c1 s1,
    chans s1 !! ch = Some c1 → ch_retain_count c1 = ch_retain_count c →
    bind (load_chan (Some ch))
      (fun c0 =>
         match op_chan_destroy (ch_op c0) with
         | Some f => emit (EvChanDestroy f (Some ch))
         | None => ret tt
         end ;;; fuse_chan_release (Some ch)) s1 = Ret tt s' →
    match chans s' !! ch with
    | Some c' => ch_retain_count c' = ch_retain_count c - 1
    | None => ch_retain_count c = 1
    end).
  { intros c1 s1 Hc1 Hn. unfold bind at 1.
    rewrite (load_chan_Some _ _ _ Hc1). unfold bind at 1.
    assert (Hgo : ∀ s2, chans s2 = chans s1 →
              fuse_chan_release (Some ch) s2 = Ret tt s' →
              match chans s' !! ch with
              | Some c' => ch_retain_count c' = ch_retain_count c - 1
              | None => ch_retain_count c = 1
              end).
    { intros s2 Hs2 Hr.
      rewrite (fuse_chan_release_live ch c1 s2) in Hr by (by rewrite Hs2).
      destruct (INT_MIN <? ch_retain_count c1); [|done].
      destruct (Z.eqb_spec (ch_retain_count c1 - 1) 0) as [Hz|Hz];
        injection Hr as <-.
      - destruct (ch_disk c1); cbn; rewrite lookup_delete_eq; lia.
      - cbn. rewrite lookup_insert_eq. cbn. lia. }
    destruct (op_chan_destroy (ch_op c1)); cbn; by apply Hgo. }
  destruct (ch_se c) as [se|] eqn:Hse; cbn [is_null].
  - unfold bind at 1. unfold bind at 1. unfold load_session.
    destruct (sessions s !! se) as [x|]; [|done].
    unfold bind at 1. unfold assert.
    destruct (ptr_eqb (se_ch x) (Some ch)); [|done].
    unfold bind at 1. unfold store_session.
    destruct (sessions s !! se); [|done].
    unfold bind at 1. unfold load_chan at 1. cbn [chans upd_sessions].
    rewrite Hc. unfold store_chan. cbn [chans upd_sessions]. rewrite Hc.
    apply (Hrel (set_ch_se c NULL)); cbn; [apply lookup_insert_eq|done].
  - unfold ret. by apply (Hrel c).
Qed.

(** C4, as the code has it. On Darwin, for a live channel,
    [fuse_unmount_common] ignores the mount path. When the channel holds a
    disk reference it retains that reference, calls the platform unmount
    with the reference and the channel's descriptor, releases the
    reference again and leaves the channel as it is. When the channel
    holds no disk reference at the time of the call it calls the platform
    unmount with [NULL] and the descriptor and then destroys the channel
    with [fuse_chan_destroy], which takes one retain from it. *)
Theorem fuse_unmount_common_darwin
    (mountpoint : option string) (ch : addr) (c : fuse_chan) (s : state) :
  chans s !! ch = Some c →
  match ch_disk c with
  | Some d =>
      ∃ s',
        fuse_unmount_common Darwin mountpoint (Some ch) s = Ret tt s'
        ∧ trace s' = trace s ++ [EvCFRetain d;
                                 EvKernUnmountDisk (Some d) (ch_fd c);
                                 EvCFRelease d]
        ∧ chans s' = chans s
        ∧ sessions s' = sessions s
        ∧ ∀ x, cf_count s' x = cf_count s x
  | None =>
      fuse_unmount_common Darwin mountpoint (Some ch) s
      = fuse_chan_destroy Darwin (Some ch)
          (upd_trace (fun t => t ++ [EvKernUnmountDisk NULL (ch_fd c)]) s)
      ∧ ∀ s',
          fuse_unmount_common Darwin mountpoint (Some ch) s = Ret tt s' →
          match chans s' !! ch with
          | Some c' => ch_retain_count c' = ch_retain_count c - 1
          | None => ch_retain_count c = 1
          end
  end.
Proof.
  intros Hc.
  assert (Hrun : fuse_unmount_common Darwin mountpoint (Some ch) s =
    match ch_disk c with
    | Some d =>
        Ret tt (upd_trace (fun t => t ++ [EvCFRelease d])
                  (upd_cf (insert d (cf_count s d + 1 - 1))
                     (upd_trace
                        (fun t => t ++ [EvKernUnmountDisk (Some d) (ch_fd c)])
                        (upd_trace (fun t => t ++ [EvCFRetain d])
                           (upd_cf (insert d (cf_count s d + 1)) s)))))
    | None =>
        fuse_chan_destroy Darwin (Some ch)
          (upd_trace (fun t => t ++ [EvKernUnmountDisk NULL (ch_fd c)]) s)
    end).
  { unfold fuse_unmount_common, fuse_chan_disk, fuse_chan_fd. cbn [is_null].
    unfold bind at 1. unfold bind at 1. unfold bind at 1.
    rewrite (load_chan_Some _ _ _ Hc).
    destruct (ch_disk c) as [d|]; cbn [is_null CFRetain ret].
    - unfold bind, load_chan, CFRelease, emit, ret. cbn. rewrite Hc. cbn.
      unfold cf_count. cbn. by rewrite lookup_insert_eq.
    - unfold bind at 1. unfold bind at 1. unfold bind at 1.
      rewrite (load_chan_Some _ _ _ Hc). reflexivity. }
  rewrite Hrun. destruct (ch_disk c) as [d|].
  - eexists. split; [reflexivity|]. cbn. rewrite <- !app_assoc. cbn.
    repeat split. intros x. unfold cf_count. cbn.
    rewrite !lookup_insert. repeat case_decide; simplify_eq; cbn; lia.
  - split; [reflexivity|]. intros s'.
    by apply (fuse_chan_destroy_darwin_count ch c).
Qed.

Lemma fuse_unmount_common_darwin_witness :
  fuse_unmount_common Darwin None (Some 1%positive) example_state
  = fuse_chan_destroy Darwin (Some 1%positive)
      (upd_trace (fun t => t ++ [EvKernUnmountDisk NULL (ch_fd example_chan)])
         example_state)
  ∧ ∀ s',
      fuse_unmount_common Darwin None (Some 1%positive) example_state
        = Ret tt s' →
      match chans s' !! 1%positive with
      | Some c' => ch_retain_count c' = ch_retain_count example_chan - 1
      | None => ch_retain_count example_chan = 1
      end.
Proof.
  exact (fuse_unmount_common_darwin None 1%positive example_chan
           example_state eq_refl).
Defined.

(** C4, as stated, fails: a disk reference is attached to the channel at
    address 1 and cleared again with [fuse_chan_cleardisk]; unmount then
    destroys the channel although a reference had been attached to it. *)
Lemma fuse_unmount_destroys_after_cleardisk :
  ∃ s1 s2 s3,
    fuse_chan_set_disk (Some 1%positive) (Some 7%positive) example_state
      = Ret tt s1
    ∧ ch_disk <$> chans s1 !! 1%positive = Some (Some 7%positive)
    ∧ fuse_chan_cleardisk (Some 1%positive) s1 = Ret tt s2
    ∧ fuse_unmount_common Darwin None (Some 1%positive) s2 = Ret tt s3
    ∧ chans s3 !! 1%positive = None
    ∧ trace s3 = [EvCFRetain 7%positive; EvCFRelease 7%positive;
                  EvKernUnmountDisk NULL 3;
                  EvMutexDestroy (Some 1%positive); EvFree 1%positive].
Proof.
  do 3 eexists.
  split; [vm_compute; reflexivity|].
  split; [reflexivity|].
  split; [vm_compute; reflexivity|].
  split; [vm_compute; reflexivity|].
  split; reflexivity.
Qed.

(** ** Signal handler registration (fuse_set_signal_handlers) *)

Module SignalsProofs.
Import Signals.

Section System.

Variable sigaction_get_fails : Z → bool.
Variable sigaction_set_fails : Z → bool.
Variable dispatch_source_create : Z → ptr.

Lemma set_one_signal_handler_cases sig h st :
  let '(r, st') :=
    set_one_signal_handler sigaction_get_fails sigaction_set_fails
      sig h false st in
  fuse_instance st' = fuse_instance st
  ∧ fuse_unmount_sources st' = fuse_unmount_sources st
  ∧ ((r = 0 ∧ stderr st' = stderr st)
     ∨ (r = -1 ∧ ∃ msg, stderr st' = stderr st ++ [msg]
                        ∧ (sigaction_get_fails sig = true
                           ∨ sigaction_set_fails sig = true))).
Proof.
  unfold set_one_signal_handler.
  destruct (sigaction_get_fails sig) eqn:Hg; cbn.
  { repeat split. right. split; [done|]. eexists. split; [done|]. by left. }
  case_bool_decide; [|cbn; repeat split; by left].
  destruct (sigaction_set_fails sig) eqn:Hs; cbn.
  - repeat split. right. split; [done|]. eexists. split; [done|]. by right.
  - repeat split. by left.
Qed.

Lemma register_unmount_sources_refuses sigs : ∀ i st j src,
  (i ≤ j < i + length sigs)%nat →
  fuse_unmount_sources st !! j = Some (Some src) →
  ∃ st',
    register_unmount_sources sigaction_get_fails sigaction_set_fails
      dispatch_source_create i sigs st = (Some (-1), st')
    ∧ fuse_instance st' = fuse_instance st
    ∧ ∃ msgs, stderr st' = stderr st ++ msgs
              ∧ msgs ≠ []
              ∧ ((∀ sig, sigaction_get_fails sig = false) →
                 (∀ sig, sigaction_set_fails sig = false) →
                 last msgs = Some report).
Proof.
  induction sigs as [|signal sigs IH]; intros i st j src Hj Hsrc.
  { cbn in Hj. lia. }
  cbn [register_unmount_sources].
  pose proof (set_one_signal_handler_cases signal SIG_IGN st) as Hone.
  destruct (set_one_signal_handler _ _ signal SIG_IGN false st) as [r st1].
  destruct Hone as (Hi1 & Hs1 & [[-> Herr1]|[-> (msg & Herr1 & Hfail)]]).
  2:{ cbn. eexists. split; [done|]. split; [done|].
      exists [msg]. split; [done|]. split; [done|]. intros Hg Hs.
      destruct Hfail as [Hf|Hf]; [rewrite Hg in Hf|rewrite Hs in Hf]; done. }
  cbn [Z.eqb Z.opp Pos.eqb].
  destruct (default NULL (fuse_unmount_sources st1 !! i)) as [old|] eqn:Hold;
    cbn [is_null negb].
  { eexists. split; [done|]. split; [done|]. exists [report]. cbn.
    by rewrite Herr1. }
  assert (Hne : i ≠ j).
  { intros ->. rewrite Hs1 in Hold.
    pose proof (eq_trans (eq_sym (f_equal (default NULL) Hsrc)) Hold)
      as Hcontra.
    by cbn in Hcontra. }
  set (created := register_signal_source dispatch_source_create signal st1).
  assert (Hcreated :
    fuse_instance (created.2) = fuse_instance st
    ∧ fuse_unmount_sources (created.2) = fuse_unmount_sources st
    ∧ ∃ pre, stderr (created.2) = stderr st ++ pre
             ∧ (pre = [] ∨ pre = ["fuse: failed to create source for signal"])).
  { subst created. unfold register_signal_source.
    destruct (dispatch_source_create signal); cbn;
      (split; [done|]); (split; [done|]); rewrite Herr1.
    - exists []. rewrite app_nil_r. by split; [|left].
    - eexists. by split; [|right]. }
  destruct created as [source st2]. cbn [snd] in Hcreated.
  destruct Hcreated as (Hi2 & Hs2 & pre & Herr2 & Hpre).
  destruct (IH (S i) (set_source i source st2) j src)
    as (st' & Hrun & Hinst & msgs & Herr & Hmsgs & Hlast);
    [cbn in Hj |- *; lia
    |cbn; rewrite list_lookup_insert_ne by done; by rewrite Hs2|].
  exists st'. split; [done|]. split; [by rewrite Hinst|].
  exists (pre ++ msgs). cbn in Herr.
  rewrite Herr, Herr2, <- app_assoc. split; [done|].
  split; [by destruct Hpre as [->| ->]|].
  intros Hg Hs. specialize (Hlast Hg Hs).
  destruct Hpre as [->| ->]; [done|]. by destruct msgs.
Qed.

(** C3, as the code has it. On Darwin, while a signal source of an
    earlier registration is installed, [fuse_set_signal_handlers] for
    another session returns [-1], writes at least one line to [stderr]
    (with a working [sigaction] the last line is the report "fuse: cannot
    register signal source") and leaves the registered session as it
    was. *)
Theorem fuse_set_signal_handlers_darwin_refuses
    (A B : ptr) (st : sig_state) (j : nat) (src : addr) :
  fuse_instance st = A →
  length (fuse_unmount_sources st) = fuse_unmount_signals_count →
  fuse_unmount_sources st !! j = Some (Some src) →
  ∃ st' msgs,
    fuse_set_signal_handlers sigaction_get_fails sigaction_set_fails
      dispatch_source_create Darwin B st = (-1, st')
    ∧ fuse_instance st' = A
    ∧ stderr st' = stderr st ++ msgs
    ∧ msgs ≠ []
    ∧ ((∀ sig, sigaction_get_fails sig = false) →
       (∀ sig, sigaction_set_fails sig = false) →
       last msgs = Some report).
Proof.
  intros HA Hlen Hsrc.
  destruct (register_unmount_sources_refuses fuse_unmount_signals 0 st j src)
    as (st' & Hrun & Hinst & msgs & Herr & Hne & Hlast); [|done|].
  { apply lookup_lt_Some in Hsrc. unfold fuse_unmount_signals_count in Hlen.
    unfold ptr in *. lia. }
  exists st', msgs. unfold fuse_set_signal_handlers. rewrite Hrun.
  by rewrite Hinst, HA.
Qed.

End System.

(** After a first registration on Darwin every source is installed, so a
    second registration is refused. *)
Lemma fuse_set_signal_handlers_darwin_refuses_witness :
  let stA := snd (fuse_set_signal_handlers never_fails never_fails
                    source_of_signal Darwin (Some 2%positive) sig_init) in
  ∃ st' msgs,
    fuse_set_signal_handlers never_fails never_fails source_of_signal
      Darwin (Some 5%positive) stA = (-1, st')
    ∧ fuse_instance st' = Some 2%positive
    ∧ stderr st' = stderr stA ++ msgs
    ∧ msgs ≠ []
    ∧ ((∀ sig, never_fails sig = false) →
       (∀ sig, never_fails sig = false) →
       last msgs = Some report).
Proof.
  intros stA.
  apply (fuse_set_signal_handlers_darwin_refuses never_fails never_fails
           source_of_signal (Some 2%positive) (Some 5%positive) stA 0%nat
           1%positive); reflexivity.
Defined.

(** C3, as stated, fails where the platform is not Darwin: session 2 is
    registered, then session 5 is registered without removing session 2;
    the second call returns [0], writes nothing to [stderr] and makes
    session 5 the signal target. *)
Lemma fuse_set_signal_handlers_other_overwrites :
  let stA := snd (fuse_set_signal_handlers never_fails never_fails
                    source_of_signal Other (Some 2%positive) sig_init) in
  fuse_instance stA = Some 2%positive
  ∧ fuse_set_signal_handlers never_fails never_fails source_of_signal
      Other (Some 5%positive) stA
    = (0, set_instance (Some 5%positive) stA)
  ∧ stderr (set_instance (Some 5%positive) stA) = [].
Proof. cbv zeta. split; [reflexivity|]. split; [vm_compute|]; reflexivity. Qed.

(** Once session 2 has been removed, session 5 can be registered. *)
Lemma fuse_set_signal_handlers_after_remove :
  let stA := snd (fuse_set_signal_handlers never_fails never_fails
                    source_of_signal Darwin (Some 2%positive) sig_init) in
  let st0 := fuse_remove_signal_handlers never_fails never_fails Darwin
               (Some 2%positive) stA in
  fuse_instance st0 = NULL
  ∧ fuse_unmount_sources st0 = [NULL; NULL; NULL]
  ∧ (fun sig => old_handler sig st0) <$> fuse_unmount_signals
    = [SIG_DFL; SIG_DFL; SIG_DFL]
  ∧ ∃ st', fuse_set_signal_handlers never_fails never_fails source_of_signal
             Darwin (Some 5%positive) st0 = (0, st')
           ∧ fuse_instance st' = Some 5%positive
           ∧ stderr st' = [].
Proof.
  cbv zeta. do 3 (split; [reflexivity|]).
  eexists. split; [vm_compute; reflexivity|]. by split.
Qed.

(** The hypothesis of the theorem is needed: when no signal source could
    be created for session 2, the registration of session 5 goes
    through. *)
Lemma fuse_set_signal_handlers_darwin_without_sources :
  let stA := snd (fuse_set_signal_handlers never_fails never_fails
                    (fun _ => NULL) Darwin (Some 2%positive) sig_init) in
  fuse_instance stA = Some 2%positive
  ∧ fuse_unmount_sources stA = [NULL; NULL; NULL]
  ∧ ∃ st', fuse_set_signal_handlers never_fails never_fails source_of_signal
             Darwin (Some 5%positive) stA = (0, st')
           ∧ fuse_instance st' = Some 5%positive
           ∧ stderr st' = stderr stA.
Proof.
  cbv zeta. split; [reflexivity|]. split; [reflexivity|].
  eexists. split; [vm_compute; reflexivity|]. by split.
Qed.

End SignalsProofs.

(** ** The bounded concurrent dispatch loop (fuse_session_loop_dispatch) *)

Module LoopDispatchProofs.
Import LoopDispatch.

Section Errno.

Variable EINTR : Z.

Lemma loop_body_eintr ch pb :
  loop_body EINTR (- EINTR) ch pb
  = {| ctl := Continue; new_res := - EINTR; message := None;
       submit := None |}.
Proof. unfold loop_body. by rewrite Z.eqb_refl. Qed.

Lemma apply_pass_silent c r st :
  apply_pass {| ctl := c; new_res := r; message := None; submit := None |} st
  = {| res := r; submitted := submitted st; log := log st;
       receives := S (receives st) |}.
Proof. unfold apply_pass. cbn. by rewrite !app_nil_r. Qed.

(** C5, as the code has it. In a pass of the loop:
    - a receive result of [-EINTR] ends the pass without a message and
      without leaving the loop, and the loop goes back to its test; when
      the session has not exited then, the receive is called again and the
      interrupted result leaves nothing behind but the count of calls;
    - any other receive result [<= 0] ends the loop, with that result in
      [res];
    - a failed allocation of the per-request buffer ends the loop with a
      message and [res = -1], and the function returns [-1]. *)
Theorem loop_dispatch_pass
    (r : Z) (ch pb : ptr) (script : list pass) (st : loop_state) :
  (r = - EINTR →
     while_loop EINTR (Received r ch pb :: script) st
     = while_loop EINTR script
         {| res := - EINTR; submitted := submitted st; log := log st;
            receives := S (receives st) |}
     ∧ ∀ r' ch' pb' script',
         while_loop EINTR
           (Received r ch pb :: Received r' ch' pb' :: script') st
         = while_loop EINTR (Received r' ch' pb' :: script')
             {| res := res st; submitted := submitted st; log := log st;
                receives := S (receives st) |})
  ∧ (r ≠ - EINTR → r ≤ 0 →
       while_loop EINTR (Received r ch pb :: script) st
       = Some {| res := r; submitted := submitted st; log := log st;
                 receives := S (receives st) |})
  ∧ (r ≠ - EINTR → 0 < r → pb = NULL →
       while_loop EINTR (Received r ch pb :: script) st
       = Some {| res := -1; submitted := submitted st;
                 log := log st ++ ["fuse: failed to allocate process buffer"];
                 receives := S (receives st) |}
       ∧ ∀ w, returned
                (finish {| res := -1; submitted := submitted st;
                           log := log st ++
                                  ["fuse: failed to allocate process buffer"];
                           receives := S (receives st) |} w) = -1).
Proof.
  split; [|split].
  - intros ->. cbn [while_loop]. rewrite loop_body_eintr.
    rewrite apply_pass_silent. cbn [ctl]. split; [done|].
    intros r' ch' pb' script'.
    cbn [while_loop]. destruct (ctl (loop_body EINTR r' ch' pb')); reflexivity.
  - intros Hne Hle. cbn [while_loop]. unfold loop_body.
    destruct (Z.eqb_spec r (- EINTR)); [done|].
    destruct (Z.leb_spec r 0); [|lia]. by rewrite apply_pass_silent.
  - intros Hne Hpos ->. cbn [while_loop]. unfold loop_body.
    destruct (Z.eqb_spec r (- EINTR)); [done|].
    destruct (Z.leb_spec r 0); [lia|]. cbn [ctl].
    unfold apply_pass. cbn. by rewrite app_nil_r.
Qed.

(** *** The loop running together with its task group *)

Lemma consistent_init script :
  consistent EINTR script (system_init script).
Proof. by cbn. Qed.

Lemma consistent_step script sys sys' :
  consistent EINTR script sys → step EINTR sys sys' →
  consistent EINTR script sys'.
Proof.
  intros Hc Hstep. destruct Hstep; unfold consistent in *; cbn in *.
  - by destruct Hc as [-> Hp].
  - destruct Hc as [-> Hp]. subst p.
    assert (Hperm : submitted (apply_pass (loop_body EINTR r tmpch process_buf) st)
                    ≡ₚ done ++ pend
                         ++ option_list (submit (loop_body EINTR r tmpch process_buf))).
    { cbn. by rewrite Hp, app_assoc. }
    by destruct (ctl (loop_body EINTR r tmpch process_buf)).
  - assert (Hperm : (done ++ [b]) ++ pend1 ++ pend2
                    ≡ₚ done ++ pend1 ++ b :: pend2).
    { rewrite <- app_assoc. apply Permutation_app_head. cbn.
      by rewrite Permutation_middle. }
    destruct r as [rest st|st|ret].
    + destruct Hc as [Hw Hp]. split; [done|]. by rewrite Hperm.
    + destruct Hc as [Hw Hp]. split; [done|]. by rewrite Hperm.
    + destruct Hc as (st & _ & _ & Hnil & _). by destruct pend1.
  - destruct Hc as [Hw Hp]. exists st. by rewrite app_nil_r in Hp.
Qed.

Lemma consistent_reachable script sys :
  rtc (step EINTR) (system_init script) sys →
  consistent EINTR script sys.
Proof.
  intros Hrtc.
  eapply (rtc_ind_r (consistent EINTR script)); [..|exact Hrtc].
  - apply consistent_init.
  - intros y z _ Hstep Hy. by eapply consistent_step.
Qed.

(** The blocks handed to the group carry the requests received, in the
    order of their arrival, when every allocation succeeds. *)
Lemma while_loop_submits_requests script : ∀ st st',
  while_loop EINTR script st = Some st' →
  allocations_succeed EINTR script →
  blk_size <$> submitted st'
  = (blk_size <$> submitted st) ++ requests EINTR script.
Proof.
  induction script as [|[|r ch pb] script IH]; intros st st' Hrun Hok.
  - done.
  - cbn in Hrun. injection Hrun as <-. cbn. by rewrite app_nil_r.
  - cbn [while_loop requests allocations_succeed] in *. unfold loop_body in Hrun.
    destruct (r =? - EINTR).
    { cbn [ctl] in Hrun. rewrite apply_pass_silent in Hrun.
      by rewrite (IH _ _ Hrun Hok). }
    destruct (r <=? 0).
    { cbn [ctl] in Hrun. rewrite apply_pass_silent in Hrun.
      injection Hrun as <-. cbn. by rewrite app_nil_r. }
    destruct Hok as [Hpb Hok]. destruct pb as [m|]; [|done].
    cbn [ctl is_null] in Hrun. rewrite (IH _ _ Hrun Hok). cbn.
    by rewrite fmap_app, <- app_assoc.
Qed.

(** C9, as the code has it. In every interleaving of the reader with the
    blocks of its task group, when [dispatch_group_wait] has returned no
    block is left pending and the processing invocations made are the
    blocks handed to the group, each once; when every per-request buffer
    was allocated these are the [K] requests received, one invocation
    each. *)
Theorem dispatch_processes_each_request_once
    (script : list pass) (sys : system) (ret : Z) :
  rtc (step EINTR) (system_init script) sys →
  rd sys = Returned ret →
  ∃ st,
    while_loop EINTR script loop_init = Some st
    ∧ ret = (if res st <? 0 then -1 else 0)
    ∧ pending sys = []
    ∧ processed sys ≡ₚ submitted st
    ∧ (allocations_succeed EINTR script →
       blk_size <$> submitted st = requests EINTR script
       ∧ length (processed sys) = length (requests EINTR script)).
Proof.
  intros Hrtc Hret. apply consistent_reachable in Hrtc.
  unfold consistent in Hrtc. rewrite Hret in Hrtc.
  destruct Hrtc as (st & Hrun & -> & Hpend & Hperm).
  exists st. do 4 (split; [done|]). intros Hok.
  pose proof (while_loop_submits_requests _ _ _ Hrun Hok) as Hreq.
  cbn in Hreq. split; [done|].
  by rewrite <- Hreq, length_fmap, Hperm.
Qed.

(** The wait does return: the reader can finish its loop, the pending
    blocks can run, and then the group is empty. *)
Lemma reader_reaches_wait script : ∀ st0 st pend done,
  while_loop EINTR script st0 = Some st →
  ∃ new,
    submitted st = submitted st0 ++ new
    ∧ rtc (step EINTR)
        {| rd := Reading script st0; pending := pend; processed := done |}
        {| rd := Waiting st; pending := pend ++ new; processed := done |}.
Proof.
  induction script as [|[|r ch pb] script IH]; intros st0 st pend done Hrun.
  - done.
  - cbn in Hrun. injection Hrun as <-. exists []. rewrite !app_nil_r.
    split; [done|]. apply rtc_once. constructor.
  - cbn [while_loop] in Hrun.
    pose proof (step_pass EINTR r ch pb script st0 pend done) as Hstep.
    cbv zeta in Hstep.
    destruct (ctl (loop_body EINTR r ch pb)) eqn:Hctl.
    + destruct (IH _ _ (pend ++ option_list (submit (loop_body EINTR r ch pb)))
                  done Hrun) as (new & Hsub & Hrtc).
      exists (option_list (submit (loop_body EINTR r ch pb)) ++ new).
      cbn in Hsub. rewrite Hsub, !app_assoc. split; [done|].
      by eapply rtc_l.
    + injection Hrun as <-.
      exists (option_list (submit (loop_body EINTR r ch pb))).
      split; [done|]. by apply rtc_once.
    + destruct (IH _ _ (pend ++ option_list (submit (loop_body EINTR r ch pb)))
                  done Hrun) as (new & Hsub & Hrtc).
      exists (option_list (submit (loop_body EINTR r ch pb)) ++ new).
      cbn in Hsub. rewrite Hsub, !app_assoc. split; [done|].
      by eapply rtc_l.
Qed.

Lemma blocks_drain r pend : ∀ done,
  rtc (step EINTR)
    {| rd := r; pending := pend; processed := done |}
    {| rd := r; pending := []; processed := done ++ pend |}.
Proof.
  induction pend as [|b pend IH]; intros done.
  - by rewrite app_nil_r.
  - eapply rtc_l; [apply (step_block EINTR r [] b pend done)|].
    cbn. specialize (IH (done ++ [b])). by rewrite <- app_assoc in IH.
Qed.

Lemma dispatch_can_return script st :
  while_loop EINTR script loop_init = Some st →
  rtc (step EINTR) (system_init script)
    {| rd := Returned (if res st <? 0 then -1 else 0); pending := [];
       processed := submitted st |}.
Proof.
  intros Hrun.
  destruct (reader_reaches_wait script loop_init st [] [] Hrun)
    as (new & Hsub & Hrtc).
  cbn in Hsub, Hrtc. rewrite Hsub.
  etrans; [exact Hrtc|]. etrans; [apply blocks_drain|].
  apply rtc_once. cbn. constructor.
Qed.

End Errno.

(** Two requests arrive and the session exits; the second block runs
    before the first. *)
Lemma dispatch_processes_each_request_once_witness :
  let script := [Received 8 (Some 1%positive) (Some 200%positive);
                 Received 3 (Some 1%positive) (Some 201%positive); SessionExited] in
  let b1 := {| blk_mem := 200%positive; blk_size := 8;
               blk_ch := Some 1%positive |} in
  let b2 := {| blk_mem := 201%positive; blk_size := 3;
               blk_ch := Some 1%positive |} in
  ∃ st,
    while_loop 4 script loop_init = Some st
    ∧ 0 = (if res st <? 0 then -1 else 0)
    ∧ @nil block = []
    ∧ [b2; b1] ≡ₚ submitted st
    ∧ (allocations_succeed 4 script →
       blk_size <$> submitted st = requests 4 script
       ∧ length [b2; b1] = length (requests 4 script)).
Proof.
  intros script b1 b2.
  apply (dispatch_processes_each_request_once 4 script
           {| rd := Returned 0; pending := []; processed := [b2; b1] |} 0);
    [|reflexivity].
  eapply rtc_l; [apply step_pass|]. cbn.
  eapply rtc_l; [apply step_pass|]. cbn.
  eapply rtc_l; [apply step_exited|].
  eapply rtc_l; [apply (step_block 4 _ [b1] b2 [] [])|]. cbn.
  eapply rtc_l; [apply (step_block 4 _ [] b1 [] [b2])|]. cbn.
  eapply rtc_l; [apply step_wait|]. apply rtc_refl.
Defined.

(** C9, as stated, fails: one request of 8 bytes is received and the
    allocation of its buffer fails; the loop ends, the wait returns, and
    no processing invocation has been made for the request. *)
Lemma dispatch_drops_request_on_failed_allocation :
  let script := [Received 8 (Some 1%positive) NULL] in
  requests 4 script = [8]
  ∧ rtc (step 4) (system_init script)
      {| rd := Returned (-1); pending := []; processed := [] |}.
Proof.
  split; [reflexivity|].
  eapply rtc_l; [apply step_pass|]. cbn.
  eapply rtc_l; [apply step_wait|]. apply rtc_refl.
Qed.

(** An interrupted receive followed by a request: the request is read by
    the retry and the interrupted result is forgotten. *)
Lemma loop_dispatch_pass_witness :
  while_loop 4
    [Received (-4) (Some 1%positive) NULL; Received 8 (Some 1%positive) (Some 200%positive); SessionExited]
    loop_init
  = while_loop 4
      [Received 8 (Some 1%positive) (Some 200%positive); SessionExited]
      {| res := 0; submitted := []; log := []; receives := 1 |}.
Proof.
  destruct (loop_dispatch_pass 4 (-4) (Some 1%positive) NULL
              [Received 8 (Some 1%positive) (Some 200%positive); SessionExited] loop_init)
    as [Heintr _].
  destruct (Heintr eq_refl) as [_ Hretry].
  exact (Hretry 8 (Some 1%positive) (Some 200%positive) [SessionExited]).
Defined.

(** C5, as stated, fails: the receive is interrupted and, when the loop
    tests it next, the session has exited. There is one receive call and
    no retry, and the function returns [-1]. *)
Lemma loop_dispatch_eintr_then_exit_is_error :
  fuse_session_loop_dispatch 4 example_setup
    [Received (-4) (Some 1%positive) NULL; SessionExited]
  = Some {| returned := -1; blocks := []; errors := []; received := 1;
            waited := true |}.
Proof. reflexivity. Qed.

End LoopDispatchProofs.

(** ** The worker pool (do_work, __fuse_loop_mt) *)

Module MtProofs.
Import Mt.

(** Every thread of the pool runs [do_work] on the same worker. *)
Lemma fuse_loop_mt_pool f processor data reads :
  let w := {| w_f := f; w_data := data; w_proc := processor |} in
  __fuse_loop_mt always_created f processor data reads
  = {| pool := replicate FUSE_NUM_WORKERS w; proc := Alive reads [] [] |}.
Proof. reflexivity. Qed.

Lemma do_work_pass_read_so_far w t reads p :
  read_so_far reads p → read_so_far reads (do_work_pass w t p).
Proof.
  destruct p as [[|[cmd|] rest] calls err|status calls err]; cbn; try done.
  - intros ->. unfold commands. by rewrite fmap_app, <- app_assoc.
  - intros ->. split; [done|]. by exists rest.
Qed.

Lemma run_read_so_far workers sched : ∀ reads p,
  read_so_far reads p → read_so_far reads (run workers sched p).
Proof.
  induction sched as [|t sched IH]; intros reads p Hp; [done|].
  cbn. destruct (workers !! t); [|by apply IH].
  by apply IH, do_work_pass_read_so_far.
Qed.

Lemma run_exited workers sched : ∀ status calls err,
  run workers sched (Exited status calls err) = Exited status calls err.
Proof.
  induction sched as [|t sched IH]; intros status calls err; [done|].
  cbn. destruct (workers !! t); by rewrite ?IH.
Qed.

(** A thread working alone: once it has made enough passes to reach the
    failed read, the process has ended with status 1 and the commands
    before the failed read have been processed, in order. *)
Lemma do_work_exits w t cmds : ∀ rest calls err n,
  (length cmds < n)%nat →
  do_work w t n (Alive ((Some <$> cmds) ++ NULL :: rest) calls err)
  = Exited 1
      (calls ++ ((fun cmd => {| c_thread := t; c_proc := w_proc w;
                                c_f := w_f w; c_cmd := cmd;
                                c_data := w_data w |}) <$> cmds))
      err.
Proof.
  induction cmds as [|cmd cmds IH]; intros rest calls err n Hn.
  - destruct n as [|n]; [cbn in Hn; lia|]. cbn. rewrite app_nil_r.
    clear Hn. induction n as [|n IHn]; [done|]. by cbn.
  - destruct n as [|n]; [cbn in Hn; lia|]. cbn [fmap list_fmap app do_work].
    cbn [do_work_pass]. rewrite IH by (cbn in Hn; lia).
    by rewrite <- app_assoc.
Qed.

(** C6. [__fuse_loop_mt] leaves [FUSE_NUM_WORKERS] threads running
    [do_work], the caller's own among them (thread 0). Whichever of them
    gets [NULL] from [__fuse_read_cmd], its pass ends the process with
    [exit (1)]; [do_work] has no way to return to a caller. After that no
    thread makes another call. Hence, under every schedule, the process
    has ended with the non-zero status 1 as soon as one read has failed,
    having processed the commands read before it. *)
Theorem do_work_failed_read_exits
    (pthread_create_res : nat → Z) (f : ptr) (processor : fn) (data : ptr)
    (reads : list ptr) (sched : list nat) :
  let st := __fuse_loop_mt pthread_create_res f processor data reads in
  ((∀ i, pthread_create_res i = 0) →
     length (pool st) = FUSE_NUM_WORKERS
     ∧ proc st = Alive reads [] []
     ∧ read_so_far reads (run (pool st) sched (proc st)))
  ∧ (∀ t w rest calls err,
       pool st !! t = Some w →
       do_work_pass w t (Alive (NULL :: rest) calls err) = Exited 1 calls err
       ∧ ∀ sched',
           run (pool st) sched'
             (do_work_pass w t (Alive (NULL :: rest) calls err))
           = Exited 1 calls err).
Proof.
  intros st. split.
  - intros Hok. assert (Hst : st = __fuse_loop_mt always_created f processor
                                  data reads).
    { subst st. unfold __fuse_loop_mt, start_thread. cbn. by rewrite !Hok. }
    rewrite Hst, fuse_loop_mt_pool. cbn [pool proc]. split; [done|].
    split; [done|]. apply run_read_so_far. by cbn.
  - intros t w rest calls err _. split; [done|]. intros sched'. cbn.
    apply run_exited.
Qed.

Lemma do_work_failed_read_exits_witness :
  let st := __fuse_loop_mt always_created (Some 9%positive) 77%positive NULL
              [Some 31%positive; NULL] in
  length (pool st) = FUSE_NUM_WORKERS
  ∧ proc st = Alive [Some 31%positive; NULL] [] []
  ∧ read_so_far [Some 31%positive; NULL]
      (run (pool st) [2; 0]%nat (proc st)).
Proof.
  intros st.
  destruct (do_work_failed_read_exits always_created (Some 9%positive)
              77%positive NULL [Some 31%positive; NULL] [2; 0]%nat)
    as [Hpool _].
  apply Hpool. reflexivity.
Defined.

(** The third of four reads fails; threads 3, 0, 4 and 1 take a turn
    each. *)
Lemma do_work_failed_read_exits_example :
  let reads := [Some 31%positive; Some 32%positive; NULL; Some 34%positive] in
  let st := __fuse_loop_mt always_created (Some 9%positive) 77%positive NULL
              reads in
  ∃ calls,
    run (pool st) [3; 0; 4; 1]%nat (proc st) = Exited 1 calls []
    ∧ c_thread <$> calls = [3; 0]%nat
    ∧ c_cmd <$> calls = [31%positive; 32%positive].
Proof. eexists. split; [reflexivity|]. split; reflexivity. Qed.

End MtProofs.

(** * Properties of the rest of the library code *)

Ltac heap_eval := repeat (progress (cbn; rewrite ?lookup_insert_eq)).

Ltac heap_run :=
  repeat (progress
            (cbn; rewrite ?lookup_insert_eq;
             repeat match goal with
                    | H : _ !! _ = Some _ |- _ => rewrite H
                    end)).

(** ** Sessions and channels *)

Section SessionProperties.

Variable call_exited : fn → ptr → M Z.

(** X1. Without an [exited] override, [fuse_session_exited] returns 1
    after [fuse_session_exit] and 0 after [fuse_session_reset]; with an
    override it returns what the override returns, whatever the flag
    holds. *)
Theorem fuse_session_exit_then_exited
    (se : addr) (x : fuse_session) (s : state) :
  sessions s !! se = Some x →
  ∃ s1 s2,
    fuse_session_exit (Some se) s = Ret tt s1
    ∧ fuse_session_reset (Some se) s1 = Ret tt s2
    ∧ match op_exited (se_op x) with
      | None =>
          fuse_session_exited call_exited (Some se) s1 = Ret 1 s1
          ∧ fuse_session_exited call_exited (Some se) s2 = Ret 0 s2
      | Some f =>
          fuse_session_exited call_exited (Some se) s1
            = call_exited f (se_data x) s1
          ∧ fuse_session_exited call_exited (Some se) s2
            = call_exited f (se_data x) s2
      end.
Proof.
  intros Hx.
  assert (Hexit : ∀ forced s0 x0,
    sessions s0 !! se = Some x0 →
    ∃ s', (s <- load_session (Some se) ;;
           match op_exit (se_op s) with
           | Some f => emit (EvSessionExit f (se_data s) forced)
           | None => ret tt
           end ;;;
           s' <- load_session (Some se) ;;
           store_session (Some se) (set_se_exited s' forced)) s0 = Ret tt s'
          ∧ sessions s' !! se = Some (set_se_exited x0 forced)).
  { intros forced s0 x0 H0. unfold bind, load_session, store_session.
    rewrite H0. destruct (op_exit (se_op x0)); cbn; rewrite H0; cbn;
      rewrite ?H0; eexists; (split; [reflexivity|]); cbn;
      apply lookup_insert_eq. }
  destruct (Hexit 1 s x Hx) as (s1 & H1 & Hs1).
  destruct (Hexit 0 s1 _ Hs1) as (s2 & H2 & Hs2).
  exists s1, s2. split; [exact H1|]. split; [exact H2|].
  unfold fuse_session_exited, bind, load_session. rewrite Hs1, Hs2. cbn.
  by destruct (op_exited (se_op x)).
Qed.

End SessionProperties.

Lemma fuse_session_exit_then_exited_witness :
  ∃ s1 s2,
    fuse_session_exit (Some 2%positive) example_state = Ret tt s1
    ∧ fuse_session_reset (Some 2%positive) s1 = Ret tt s2
    ∧ fuse_session_exited (fun _ _ => ret 7) (Some 2%positive) s1 = Ret 1 s1
    ∧ fuse_session_exited (fun _ _ => ret 7) (Some 2%positive) s2 = Ret 0 s2.
Proof.
  exact (fuse_session_exit_then_exited (fun _ _ => ret 7) 2%positive example_session
           example_state eq_refl).
Defined.

(** X2. [fuse_session_add_chan] on a session that has a channel, or with
    a channel that has a session, stops at the assertion with both objects
    as they were. *)
Theorem fuse_session_add_chan_rejects_second_binding
    (se ch : addr) (x : fuse_session) (c : fuse_chan) (s : state) :
  sessions s !! se = Some x →
  chans s !! ch = Some c →
  se_ch x ≠ NULL ∨ ch_se c ≠ NULL →
  fuse_session_add_chan (Some se) (Some ch) s
  = Halt (AssertFailed (if is_null (se_ch x) then "ch->se == NULL"
                        else "se->ch == NULL")) s.
Proof.
  intros Hx Hc Hbound.
  unfold fuse_session_add_chan, bind, load_session, load_chan, assert.
  rewrite Hx. destruct (se_ch x) as [old|]; cbn; [done|].
  rewrite Hc. destruct (ch_se c); cbn; [done|]. by destruct Hbound.
Qed.

Lemma fuse_session_add_chan_rejects_second_binding_witness :
  fuse_session_add_chan (Some 2%positive) (Some 1%positive)
    (two_session_state NULL)
  = Halt (AssertFailed "se->ch == NULL") (two_session_state NULL).
Proof.
  apply (fuse_session_add_chan_rejects_second_binding 2%positive 1%positive
           (session_with_data NULL)
           (set_ch_se example_chan (Some 2%positive)) (two_session_state NULL));
    [reflexivity|reflexivity|by left].
Defined.

(** X3. Whenever [fuse_session_remove_chan] returns, the channel has no
    session, and removing it again changes nothing. *)
Theorem fuse_session_remove_chan_idempotent (ch : addr) (s s1 : state) :
  fuse_session_remove_chan (Some ch) s = Ret tt s1 →
  (∃ c1, chans s1 !! ch = Some c1 ∧ ch_se c1 = NULL)
  ∧ fuse_session_remove_chan (Some ch) s1 = Ret tt s1.
Proof.
  intros Hrun.
  assert (Hdone : ∃ c1, chans s1 !! ch = Some c1 ∧ ch_se c1 = NULL).
  { revert Hrun.
    unfold fuse_session_remove_chan, bind, load_chan, load_session, assert,
      store_session, store_chan.
    destruct (chans s !! ch) as [c|] eqn:Hc; [|done].
    destruct (ch_se c) as [se|] eqn:Hse; cbn.
    - destruct (sessions s !! se) as [x|] eqn:Hx; [|done].
      destruct (ptr_eqb (se_ch x) (Some ch)); [|done].
      repeat (cbn; first [rewrite Hx | rewrite Hc]).
      intros [= <-]. cbn. eexists.
      by rewrite lookup_insert_eq.
    - unfold ret. intros [= <-]. by exists c. }
  split; [done|]. destruct Hdone as (c1 & Hc1 & Hnull).
  unfold fuse_session_remove_chan, bind, load_chan. by rewrite Hc1, Hnull.
Qed.

Lemma fuse_session_remove_chan_idempotent_witness :
  ∃ s1,
    fuse_session_remove_chan (Some 1%positive) (two_session_state NULL)
      = Ret tt s1
    ∧ (∃ c1, chans s1 !! 1%positive = Some c1 ∧ ch_se c1 = NULL)
    ∧ fuse_session_remove_chan (Some 1%positive) s1 = Ret tt s1.
Proof.
  eexists. split; [vm_compute; reflexivity|].
  apply (fuse_session_remove_chan_idempotent 1%positive
           (two_session_state NULL)).
  vm_compute. reflexivity.
Defined.

(** X4. Once a channel is bound to a session, [fuse_session_next_chan]
    walks over exactly that channel: from [NULL] it gives the channel,
    from the channel it gives [NULL], and any other cursor fails the
    assertion. Before the binding the walk is empty. *)
Theorem fuse_session_next_chan_walk
    (se ch : addr) (x : fuse_session) (c : fuse_chan) (s : state) :
  sessions s !! se = Some x →
  se_ch x = NULL →
  chans s !! ch = Some c →
  ch_se c = NULL →
  fuse_session_next_chan (Some se) NULL s = Ret NULL s
  ∧ ∃ s1,
      fuse_session_add_chan (Some se) (Some ch) s = Ret tt s1
      ∧ fuse_session_next_chan (Some se) NULL s1 = Ret (Some ch) s1
      ∧ fuse_session_next_chan (Some se) (Some ch) s1 = Ret NULL s1
      ∧ ∀ other,
          other ≠ ch →
          fuse_session_next_chan (Some se) (Some other) s1
          = Halt (AssertFailed "ch == NULL || ch == se->ch") s1.
Proof.
  intros Hx Hxn Hc Hcn. split.
  { unfold fuse_session_next_chan, bind, load_session. rewrite Hx. cbn.
    by rewrite Hxn. }
  eexists. split.
  { unfold fuse_session_add_chan, bind, load_session, load_chan, assert,
      store_session, store_chan.
    rewrite Hx, Hxn. cbn. rewrite Hc, Hcn. cbn. rewrite Hx. cbn.
    rewrite Hc. reflexivity. }
  unfold fuse_session_next_chan, bind, load_session, assert, ptr_eqb. cbn.
  rewrite lookup_insert_eq. cbn. split; [done|].
  rewrite bool_decide_eq_true_2 by done. split; [done|].
  intros other Hne. rewrite bool_decide_eq_false_2 by congruence. done.
Qed.

Lemma fuse_session_next_chan_walk_witness :
  fuse_session_next_chan (Some 2%positive) NULL example_state
    = Ret NULL example_state
  ∧ ∃ s1,
      fuse_session_add_chan (Some 2%positive) (Some 1%positive) example_state
        = Ret tt s1
      ∧ fuse_session_next_chan (Some 2%positive) NULL s1
        = Ret (Some 1%positive) s1
      ∧ fuse_session_next_chan (Some 2%positive) (Some 1%positive) s1
        = Ret NULL s1
      ∧ ∀ other,
          other ≠ 1%positive →
          fuse_session_next_chan (Some 2%positive) (Some other) s1
          = Halt (AssertFailed "ch == NULL || ch == se->ch") s1.
Proof.
  apply (fuse_session_next_chan_walk 2%positive 1%positive example_session
           example_chan example_state); reflexivity.
Defined.

(** X5. [fuse_chan_clearfd] hands the descriptor out once: it returns the
    descriptor the channel held, after which [fuse_chan_fd] and a second
    [fuse_chan_clearfd] return [-1]; nothing else of the channel
    changes. *)
Theorem fuse_chan_clearfd_once (ch : addr) (c : fuse_chan) (s : state) :
  chans s !! ch = Some c →
  ∃ s1,
    fuse_chan_clearfd (Some ch) s = Ret (ch_fd c) s1
    ∧ chans s1 = <[ch := set_ch_fd c (-1)]> (chans s)
    ∧ fuse_chan_fd (Some ch) s1 = Ret (-1) s1
    ∧ fuse_chan_clearfd (Some ch) s1 = Ret (-1) s1.
Proof.
  intros Hc. eexists. split.
  { unfold fuse_chan_clearfd, bind, load_chan, store_chan. rewrite Hc. cbn.
    rewrite Hc. reflexivity. }
  cbn. split; [done|].
  unfold fuse_chan_fd, fuse_chan_clearfd, bind, load_chan, store_chan. cbn.
  rewrite lookup_insert_eq. cbn. split; [done|].
  rewrite lookup_insert_eq. unfold ret. f_equal.
  destruct s as [ss cs cfs tr]. unfold upd_chans. cbn. f_equal.
  apply insert_insert_eq.
Qed.

Lemma fuse_chan_clearfd_once_witness :
  ∃ s1,
    fuse_chan_clearfd (Some 1%positive) example_state = Ret 3 s1
    ∧ chans s1 = <[1%positive := set_ch_fd example_chan (-1)]>
                   (chans example_state)
    ∧ fuse_chan_fd (Some 1%positive) s1 = Ret (-1) s1
    ∧ fuse_chan_clearfd (Some 1%positive) s1 = Ret (-1) s1.
Proof.
  exact (fuse_chan_clearfd_once 1%positive example_chan example_state
           eq_refl).
Defined.

(** X6. On a channel without a disk, [fuse_chan_set_disk] followed by
    [fuse_chan_cleardisk] gives the channel back as it was and leaves
    every CoreFoundation retain count where it started: the reference
    taken by the first is released by the second. After that
    [fuse_chan_disk] returns [NULL] and retains nothing. *)
Theorem fuse_chan_set_then_cleardisk
    (ch d : addr) (c : fuse_chan) (s : state) :
  chans s !! ch = Some c →
  ch_disk c = NULL →
  ∃ s1 s2,
    fuse_chan_set_disk (Some ch) (Some d) s = Ret tt s1
    ∧ fuse_chan_cleardisk (Some ch) s1 = Ret tt s2
    ∧ chans s2 = chans s
    ∧ sessions s2 = sessions s
    ∧ trace s2 = trace s ++ [EvCFRetain d; EvCFRelease d]
    ∧ (∀ x, cf_count s2 x = cf_count s x)
    ∧ fuse_chan_disk (Some ch) s2 = Ret NULL s2.
Proof.
  intros Hc Hd. destruct c as [n o p f dk b dt cp]. cbn in Hd. subst dk.
  eexists. eexists. split.
  { unfold fuse_chan_set_disk, bind, CFRetain, load_chan, store_chan. cbn.
    rewrite Hc. cbn. rewrite Hc. reflexivity. }
  split.
  { unfold fuse_chan_cleardisk, fuse_chan_set_disk, bind, CFRelease,
      load_chan, store_chan. cbn. rewrite lookup_insert_eq. cbn.
    rewrite lookup_insert_eq. reflexivity. }
  cbn. rewrite insert_insert_eq, insert_id by done.
  rewrite <- app_assoc. do 3 (split; [done|]). split.
  - intros x. unfold cf_count. cbn. rewrite !lookup_insert.
    repeat case_decide; simplify_eq; cbn; lia.
  - unfold fuse_chan_disk, bind, load_chan. cbn.
    by rewrite insert_insert_eq, insert_id, Hc.
Qed.

Lemma fuse_chan_set_then_cleardisk_witness :
  ∃ s1 s2,
    fuse_chan_set_disk (Some 1%positive) (Some 7%positive) example_state
      = Ret tt s1
    ∧ fuse_chan_cleardisk (Some 1%positive) s1 = Ret tt s2
    ∧ chans s2 = chans example_state
    ∧ sessions s2 = sessions example_state
    ∧ trace s2 = trace example_state
                   ++ [EvCFRetain 7%positive; EvCFRelease 7%positive]
    ∧ (∀ x, cf_count s2 x = cf_count example_state x)
    ∧ fuse_chan_disk (Some 1%positive) s2 = Ret NULL s2.
Proof.
  exact (fuse_chan_set_then_cleardisk 1%positive 7%positive example_chan
           example_state eq_refl eq_refl).
Defined.

Lemma fuse_session_remove_chan_bound se ch x c s :
  sessions s !! se = Some x →
  se_ch x = Some ch →
  chans s !! ch = Some c →
  ch_se c = Some se →
  fuse_session_remove_chan (Some ch) s
  = Ret tt (upd_chans (insert ch (set_ch_se c NULL))
              (upd_sessions (insert se (set_se_ch x NULL)) s)).
Proof.
  intros Hx Hxc Hc Hcs.
  unfold fuse_session_remove_chan, bind, load_chan, load_session, assert,
    store_session, store_chan, ptr_eqb.
  rewrite Hc, Hcs. cbn. rewrite Hx, Hxc.
  rewrite bool_decide_eq_true_2 by done.
  repeat (cbn; first [rewrite Hx | rewrite Hc]). reflexivity.
Qed.

Lemma fuse_chan_destroy_darwin_run
    (se ch : addr) (x : fuse_session) (c : fuse_chan) (s : state) :
  sessions s !! se = Some x →
  se_ch x = Some ch →
  chans s !! ch = Some c →
  ch_se c = Some se →
  1 ≤ ch_retain_count c →
  ∃ s',
    fuse_chan_destroy Darwin (Some ch) s = Ret tt s'
    ∧ sessions s' = <[se := set_se_ch x NULL]> (sessions s)
    ∧ chans s' !! ch
      = (if ch_retain_count c =? 1 then None
         else Some (set_ch_retain_count (set_ch_se c NULL)
                      (ch_retain_count c - 1)))
    ∧ (∀ other, other ≠ ch → chans s' !! other = chans s !! other)
    ∧ trace s'
      = trace s
        ++ match op_chan_destroy (ch_op c) with
           | Some f => [EvChanDestroy f (Some ch)]
           | None => []
           end
        ++ (if ch_retain_count c =? 1
            then EvMutexDestroy (Some ch)
                 :: match ch_disk c with
                    | Some d => [EvCFRelease d]
                    | None => []
                    end ++ [EvFree ch]
            else [])
    ∧ ∀ y, cf_count s' y
           = cf_count s y
             - (if (ch_retain_count c =? 1)
                   && bool_decide (ch_disk c = Some y)
                then 1 else 0).
Proof.
  intros Hx Hxc Hc Hcs Hpos.
  unfold fuse_chan_destroy. unfold bind at 1.
  rewrite (fuse_session_remove_chan_bound se ch x c s) by done.
  set (sA := upd_chans _ _).
  assert (HcA : chans sA !! ch = Some (set_ch_se c NULL))
    by (subst sA; cbn; apply lookup_insert_eq).
  unfold bind at 1. rewrite (load_chan_Some _ _ _ HcA).
  unfold bind at 1.
  set (sB := match op_chan_destroy (ch_op (set_ch_se c NULL)) with
             | Some f =>
                 upd_trace (fun t => t ++ [EvChanDestroy f (Some ch)]) sA
             | None => sA
             end).
  assert (Hop : match op_chan_destroy (ch_op (set_ch_se c NULL)) with
                | Some f => emit (EvChanDestroy f (Some ch))
                | None => ret tt
                end sA = Ret tt sB).
  { subst sB. by destruct (op_chan_destroy _). }
  rewrite Hop.
  assert (HcB : chans sB !! ch = Some (set_ch_se c NULL)).
  { subst sB. by destruct (op_chan_destroy _). }
  rewrite (fuse_chan_release_live ch _ sB HcB).
  cbn [ch_retain_count set_ch_se ch_disk].
  destruct (Z.ltb_spec INT_MIN (ch_retain_count c));
    [|unfold INT_MIN in *; lia].
  replace (ch_retain_count c - 1 =? 0) with (ch_retain_count c =? 1)
    by (destruct (Z.eqb_spec (ch_retain_count c) 1),
          (Z.eqb_spec (ch_retain_count c - 1) 0); lia).
  assert (HsB : sessions sB = <[se := set_se_ch x NULL]> (sessions s))
    by (subst sB sA; by destruct (op_chan_destroy _)).
  assert (HoB : ∀ other, other ≠ ch → chans sB !! other = chans s !! other).
  { intros other Hne. subst sB sA.
    destruct (op_chan_destroy _); cbn; by rewrite lookup_insert_ne. }
  assert (HtB : trace sB = trace s
                  ++ match op_chan_destroy (ch_op c) with
                     | Some f => [EvChanDestroy f (Some ch)]
                     | None => []
                     end).
  { subst sB sA. cbn [ch_op set_ch_se].
    destruct (op_chan_destroy _); cbn; by rewrite ?app_nil_r. }
  assert (HfB : cf sB = cf s)
    by (subst sB sA; by destruct (op_chan_destroy _)).
  destruct (ch_retain_count c =? 1); eexists; (split; [reflexivity|]).
  - destruct (ch_disk c) as [d|]; cbn [is_null id];
      cbn [sessions chans trace upd_trace upd_chans upd_cf];
      rewrite HsB, HtB, lookup_delete_eq; (split; [done|]); (split; [done|]);
      (split; [intros other Hne;
               by rewrite lookup_delete_ne, lookup_insert_ne, HoB|]);
      (split; [by rewrite <- !app_assoc|]);
      intros y; unfold cf_count; cbn; rewrite ?HfB, ?lookup_insert;
      repeat case_decide; repeat case_bool_decide; simplify_eq; cbn; lia.
  - cbn [sessions chans trace upd_chans].
    rewrite HsB, HtB, lookup_insert_eq, app_nil_r.
    split; [done|]. split; [done|].
    split; [intros other Hne; by rewrite lookup_insert_ne, HoB|].
    split; [done|]. intros y. unfold cf_count. cbn. rewrite HfB. lia.
Qed.

(** X7. On Darwin, [fuse_chan_destroy] of a channel bound to a session
    always unbinds the two and calls the channel's [destroy] operation
    once, but frees the channel only when it held the last retain. A
    channel that another owner has retained stays in the heap, without a
    session and with one retain less. No other channel is touched. *)
Theorem fuse_chan_destroy_darwin_bound
    (se ch : addr) (x : fuse_session) (c : fuse_chan) (s : state) :
  sessions s !! se = Some x →
  se_ch x = Some ch →
  chans s !! ch = Some c →
  ch_se c = Some se →
  1 ≤ ch_retain_count c →
  ∃ s',
    fuse_chan_destroy Darwin (Some ch) s = Ret tt s'
    ∧ sessions s' = <[se := set_se_ch x NULL]> (sessions s)
    ∧ chans s' !! ch
      = (if ch_retain_count c =? 1 then None
         else Some (set_ch_retain_count (set_ch_se c NULL)
                      (ch_retain_count c - 1)))
    ∧ (∀ other, other ≠ ch → chans s' !! other = chans s !! other)
    ∧ trace s'
      = trace s
        ++ match op_chan_destroy (ch_op c) with
           | Some f => [EvChanDestroy f (Some ch)]
           | None => []
           end
        ++ (if ch_retain_count c =? 1
            then EvMutexDestroy (Some ch)
                 :: match ch_disk c with
                    | Some d => [EvCFRelease d]
                    | None => []
                    end ++ [EvFree ch]
            else [])
    ∧ ∀ y, cf_count s' y
           = cf_count s y
             - (if (ch_retain_count c =? 1)
                   && bool_decide (ch_disk c = Some y)
                then 1 else 0).
Proof. apply fuse_chan_destroy_darwin_run. Qed.

Lemma fuse_chan_destroy_darwin_bound_witness :
  ∃ s',
    fuse_chan_destroy Darwin (Some 1%positive) (two_session_state NULL)
      = Ret tt s'
    ∧ chans s' !! 1%positive = None
    ∧ trace s' = [EvMutexDestroy (Some 1%positive); EvFree 1%positive].
Proof.
  destruct (fuse_chan_destroy_darwin_bound 2%positive 1%positive
              (session_with_data NULL)
              (set_ch_se example_chan (Some 2%positive))
              (two_session_state NULL))
    as (s' & Hrun & _ & Hch & _ & Htr & _);
    [reflexivity|reflexivity|reflexivity|reflexivity|cbn; lia|].
  exists s'. split; [exact Hrun|]. split; [exact Hch|exact Htr].
Defined.

Section SessionDestroy.

Variable call_destroy : fn → ptr → M unit.

(** The session's [destroy] operation returns and leaves the sessions
    and channels of the library alone. *)
Hypothesis call_destroy_returns : ∀ f d s0,
  ∃ s1, call_destroy f d s0 = Ret tt s1
        ∧ sessions s1 = sessions s0 ∧ chans s1 = chans s0.

(** X8. On Darwin, [fuse_session_destroy] of a session with a bound
    channel frees the session, and the channel with it when the session
    held its last retain. A channel that survives because someone else
    retained it no longer points at the freed session. *)
Theorem fuse_session_destroy_darwin
    (se ch : addr) (x : fuse_session) (c : fuse_chan) (s : state) :
  sessions s !! se = Some x →
  se_ch x = Some ch →
  chans s !! ch = Some c →
  ch_se c = Some se →
  1 ≤ ch_retain_count c →
  ∃ s',
    fuse_session_destroy call_destroy Darwin (Some se) s = Ret tt s'
    ∧ sessions s' !! se = None
    ∧ chans s' !! ch
      = (if ch_retain_count c =? 1 then None
         else Some (set_ch_retain_count (set_ch_se c NULL)
                      (ch_retain_count c - 1)))
    ∧ last (trace s') = Some (EvFree se).
Proof.
  intros Hx Hxc Hc Hcs Hpos.
  assert (Hcb : ∃ s1,
    match op_destroy (se_op x) with
    | Some f => call_destroy f (se_data x)
    | None => ret tt
    end s = Ret tt s1 ∧ sessions s1 = sessions s ∧ chans s1 = chans s).
  { destruct (op_destroy (se_op x)); [apply call_destroy_returns|].
    by exists s. }
  destruct Hcb as (s1 & Hcb & Hs1 & Hc1).
  destruct (fuse_chan_destroy_darwin_run se ch x c s1)
    as (s2 & Hdes & Hs2 & Hch2 & _ & _ & _);
    [by rewrite Hs1|done|by rewrite Hc1|done|done|].
  unfold fuse_session_destroy. unfold bind at 1.
  rewrite (load_session_Some _ _ _ Hx). unfold bind at 1. rewrite Hcb.
  unfold bind at 1. rewrite (load_session_Some se x s1) by (by rewrite Hs1).
  rewrite Hxc. cbn [is_null]. unfold bind at 1. rewrite Hdes.
  unfold free_session. rewrite Hs2, lookup_insert_eq.
  eexists. split; [reflexivity|]. cbn. rewrite lookup_delete_eq.
  split; [done|]. split; [done|]. apply last_snoc.
Qed.

End SessionDestroy.

Lemma fuse_session_destroy_darwin_witness :
  ∃ s',
    fuse_session_destroy (fun _ _ => ret tt) Darwin (Some 2%positive)
      (two_session_state NULL) = Ret tt s'
    ∧ sessions s' !! 2%positive = None
    ∧ chans s' !! 1%positive = None
    ∧ last (trace s') = Some (EvFree 2%positive).
Proof.
  apply (fuse_session_destroy_darwin (fun _ _ => ret tt)
           (fun _ _ s0 => ex_intro _ s0 (conj eq_refl (conj eq_refl eq_refl)))
           2%positive 1%positive (session_with_data NULL)
           (set_ch_se example_chan (Some 2%positive))
           (two_session_state NULL));
    [reflexivity|reflexivity|reflexivity|reflexivity|cbn; lia].
Defined.

Section FreshObjects.

Variable call_exited : fn → ptr → M Z.

(** X9. A session from [fuse_session_new] and a channel from
    [fuse_chan_new] can always be bound to each other: the new session
    has no channel and is not exited, the new channel has no session and
    no disk, and after [fuse_session_add_chan] each is reached from the
    other. The channel gives back the descriptor, buffer size and
    data it was created with. *)
Theorem fresh_session_and_channel_bind
    (a b : addr) (sop : fuse_session_ops) (data : ptr)
    (cop : fuse_chan_ops) (fd bufsize : Z) (cdata : ptr) (s : state) :
  ∃ s1 s2 s3,
    fuse_session_new (Some a) sop data s = Ret (Some a) s1
    ∧ fuse_session_next_chan (Some a) NULL s1 = Ret NULL s1
    ∧ (op_exited sop = None →
       fuse_session_exited call_exited (Some a) s1 = Ret 0 s1)
    ∧ fuse_chan_new (Some b) cop fd bufsize cdata s1 = Ret (Some b) s2
    ∧ fuse_chan_session (Some b) s2 = Ret NULL s2
    ∧ fuse_chan_disk (Some b) s2 = Ret NULL s2
    ∧ fuse_session_add_chan (Some a) (Some b) s2 = Ret tt s3
    ∧ fuse_session_next_chan (Some a) NULL s3 = Ret (Some b) s3
    ∧ fuse_chan_session (Some b) s3 = Ret (Some a) s3
    ∧ fuse_chan_fd (Some b) s3 = Ret fd s3
    ∧ fuse_chan_bufsize (Some b) s3 = Ret bufsize s3
    ∧ fuse_chan_data (Some b) s3 = Ret cdata s3
    ∧ fuse_session_data (Some a) s3 = Ret data s3.
Proof.
  do 3 eexists. split; [reflexivity|].
  unfold fuse_session_next_chan, fuse_session_exited, fuse_chan_new,
    fuse_chan_new_common, fuse_chan_session, fuse_chan_disk,
    fuse_session_add_chan, fuse_chan_fd, fuse_chan_bufsize, fuse_chan_data,
    fuse_session_data, bind, load_session, load_chan, store_session,
    store_chan, assert.
  heap_eval. split; [done|]. split; [by intros ->|].
  split; [reflexivity|]. heap_eval. do 2 (split; [done|]).
  split; [reflexivity|]. heap_eval. done.
Qed.

End FreshObjects.

(** ** Mounting on Darwin (fuse_mount_common, fuse_mount_callback) *)

Lemma frees_app_nil_event a t msg :
  frees a (t ++ [EvStderr msg]) = frees a t.
Proof. rewrite frees_app. cbn. lia. Qed.

Lemma fuse_mount_context_destroy_live mc b c s :
  mc_ch mc = Some b →
  chans s !! b = Some c →
  2 ≤ ch_retain_count c →
  fuse_mount_context_destroy mc s
  = Ret tt
      (upd_trace (fun t => t ++ [EvFree (mc_addr mc)])
         (upd_chans
            (insert b (set_ch_retain_count c (ch_retain_count c - 1)))
            (upd_trace (fun t => t ++ [EvMutexDestroy (Some (mc_addr mc))])
               s))).
Proof.
  intros Hmc Hc Hn. unfold fuse_mount_context_destroy. rewrite Hmc.
  cbn [is_null]. unfold bind at 1. cbn [emit]. unfold bind at 1.
  rewrite (fuse_chan_release_live b c) by done.
  destruct (Z.ltb_spec INT_MIN (ch_retain_count c));
    [|unfold INT_MIN in *; lia].
  destruct (Z.eqb_spec (ch_retain_count c - 1) 0); [lia|]. reflexivity.
Qed.

Lemma fuse_mount_common_darwin_run mc_a mountpoint fd b c s :
  chans s !! b = Some c →
  ch_retain_count c < INT_MAX →
  fd ≠ -1 →
  fuse_mount_common Darwin (Some mc_a) mountpoint fd (Some b) s
  = Ret (Some b,
         Some {| mc_addr := mc_a;
                 mc_mountpoint :=
                   String.substring 0 (MAXPATHLEN - 1) mountpoint;
                 mc_ch := Some b |})
      (upd_chans
         (insert b (set_ch_retain_count c (ch_retain_count c + 1))) s).
Proof.
  intros Hc Hmax Hfd. unfold fuse_mount_common, fuse_mount_context_new.
  unfold bind at 1. cbn [ret].
  destruct (Z.eqb_spec fd (-1)); [done|]. cbn [is_null].
  unfold bind. rewrite (fuse_chan_retain_live b c) by done.
  by destruct (Z.ltb_spec (ch_retain_count c) INT_MAX); [|lia].
Qed.

(** X10. On Darwin a mount that yields a channel retains the channel for
    the pending completion callback, and the callback gives that retain
    back whatever the status: afterwards the channel has the retain count
    it had before the mount. It holds a disk exactly when the status was 0
    and a disk was found; with a non-zero status nothing is attached. The
    only CoreFoundation count that has changed is that of the URL, which
    the callback released. *)
Theorem fuse_mount_then_callback
    (mc_a b : addr) (c : fuse_chan) (mountpoint : string) (fd status : Z)
    (url disk : ptr) (s : state) :
  chans s !! b = Some c →
  1 ≤ ch_retain_count c < INT_MAX →
  ch_disk c = NULL →
  fd ≠ -1 →
  (status = 0 → url ≠ NULL) →
  ∃ mc s1 s2,
    fuse_mount_common Darwin (Some mc_a) mountpoint fd (Some b) s
      = Ret (Some b, Some mc) s1
    ∧ mc_ch mc = Some b
    ∧ chans s1 !! b
      = Some (set_ch_retain_count c (ch_retain_count c + 1))
    ∧ fuse_mount_callback mc status url disk s1 = Ret tt s2
    ∧ chans s2 !! b
      = Some (if (status =? 0) && negb (is_null disk)
              then set_ch_disk c disk else c)
    ∧ ∀ x, cf_count s2 x
           = cf_count s x
             - (if (status =? 0) && bool_decide (url = Some x)
                then 1 else 0).
Proof.
  intros Hc [Hlo Hhi] Hdisk Hfd Hurl.
  set (c1 := set_ch_retain_count c (ch_retain_count c + 1)).
  set (s1 := upd_chans (insert b c1) s).
  set (mc := {| mc_addr := mc_a;
                mc_mountpoint :=
                  String.substring 0 (MAXPATHLEN - 1) mountpoint;
                mc_ch := Some b |}).
  enough (Hcb : ∃ s2,
    fuse_mount_callback mc status url disk s1 = Ret tt s2
    ∧ chans s2 !! b
      = Some (if (status =? 0) && negb (is_null disk)
              then set_ch_disk c disk else c)
    ∧ ∀ x, cf_count s2 x
           = cf_count s x
             - (if (status =? 0) && bool_decide (url = Some x)
                then 1 else 0)).
  { destruct Hcb as (s2 & Hcb). exists mc, s1, s2.
    split; [by apply fuse_mount_common_darwin_run|]. split; [done|].
    split; [subst s1; cbn; apply lookup_insert_eq|done]. }
  assert (Hc1 : chans s1 !! b = Some c1) by (subst s1; apply lookup_insert_eq).
  assert (Hrel : ∀ k s0,
    chans s0 !! b = Some k →
    ch_retain_count k = ch_retain_count c + 1 →
    fuse_mount_context_destroy mc s0
    = Ret tt
        (upd_trace (fun t => t ++ [EvFree mc_a])
           (upd_chans (insert b (set_ch_retain_count k (ch_retain_count c)))
              (upd_trace (fun t => t ++ [EvMutexDestroy (Some mc_a)]) s0)))).
  { intros k s0 Hk Hn.
    rewrite (fuse_mount_context_destroy_live _ b k) by (done || lia).
    cbn [mc_addr]. rewrite Hn.
    by replace (ch_retain_count c + 1 - 1) with (ch_retain_count c) by lia. }
  assert (Hid : set_ch_retain_count c (ch_retain_count c) = c)
    by (by destruct c).
  unfold fuse_mount_callback.
  destruct (Z.eqb_spec status 0) as [->|Hst]; cbn [negb andb].
  - destruct url as [u|]; [|by exfalso; apply Hurl].
    destruct disk as [d|]; cbn [is_null negb].
    + set (sU := upd_trace (fun t => t ++ [EvCFRelease u])
                   (upd_cf (insert u (cf_count s1 u - 1)) s1)).
      destruct (fuse_chan_set_disk_live b c1 d sU Hc1)
        as (sD & HsD & HchD & _ & _ & HcfD).
      assert (Hpre :
        (CFRelease (Some u) ;;;
         fuse_chan_set_disk (Some b) (Some d) ;;; CFRelease (Some d)) s1
        = Ret tt (upd_trace (fun t => t ++ [EvCFRelease d])
                    (upd_cf (insert d (cf_count sD d - 1)) sD))).
      { unfold bind at 1. cbn [CFRelease]. fold sU. unfold bind.
        by rewrite HsD. }
      unfold bind at 1. change (mc_ch mc) with (Some b). rewrite Hpre.
      rewrite (Hrel (set_ch_disk c1 (Some d)))
        by (cbn; rewrite ?HchD; done || apply lookup_insert_eq).
      eexists. split; [reflexivity|]. cbn. rewrite lookup_insert_eq.
      split.
      * subst c1. destruct c. cbn in *. by subst.
      * intros x.
        assert (HcfU : ∀ y, cf_count sU y
                            = cf_count s y
                              - (if bool_decide (y = u) then 1 else 0)).
        { intros y. unfold cf_count. subst sU s1. cbn. unfold cf_count.
          cbn. rewrite lookup_insert.
          case_decide; case_bool_decide; simplify_eq; cbn; lia. }
        unfold cf_count at 1. cbn. rewrite lookup_insert.
        case_decide as Hxd.
        -- subst x. cbn. rewrite (HcfD d), (HcfU d). subst c1.
           cbn [ch_disk set_ch_retain_count]. rewrite Hdisk. unfold NULL.
           repeat case_bool_decide; simplify_eq; lia.
        -- fold (cf_count sD x). rewrite (HcfD x), (HcfU x). subst c1.
           cbn [ch_disk set_ch_retain_count]. rewrite Hdisk. unfold NULL.
           repeat case_bool_decide; simplify_eq; lia.
    + unfold bind at 1. unfold bind at 1. cbn [CFRelease ret].
      rewrite (Hrel c1) by (cbn; done).
      eexists. split; [reflexivity|]. cbn. rewrite lookup_insert_eq.
      subst c1. split; [by destruct c|].
      intros x. unfold cf_count. cbn. rewrite !lookup_insert.
      repeat case_decide; case_bool_decide; simplify_eq; cbn; lia.
  - unfold bind at 1. cbn [fprintf_stderr emit].
    rewrite (Hrel c1) by (cbn; done).
    eexists. split; [reflexivity|]. cbn. rewrite lookup_insert_eq.
    subst c1. split; [by destruct c|]. intros x.
    unfold cf_count. cbn. lia.
Qed.

Lemma fuse_mount_then_callback_witness :
  ∃ mc s1 s2,
    fuse_mount_common Darwin (Some 50%positive) "/mnt" 3 (Some 1%positive)
      example_state = Ret (Some 1%positive, Some mc) s1
    ∧ fuse_mount_callback mc 0 (Some 60%positive) (Some 7%positive) s1
      = Ret tt s2
    ∧ chans s2 !! 1%positive
      = Some (set_ch_disk example_chan (Some 7%positive))
    ∧ cf_count s2 7%positive = cf_count example_state 7%positive.
Proof.
  destruct (fuse_mount_then_callback 50%positive 1%positive example_chan
              "/mnt" 3 0 (Some 60%positive) (Some 7%positive) example_state)
    as (mc & s1 & s2 & Hm & _ & _ & Hcb & Hch & Hcf);
    [reflexivity|cbn; unfold INT_MAX; lia|reflexivity|done|done|].
  exists mc, s1, s2. split; [exact Hm|]. split; [exact Hcb|].
  split; [exact Hch|]. exact (Hcf 7%positive).
Defined.

(** The part of [fuse_mount_callback] before the context is destroyed. *)
Lemma fuse_mount_callback_attach b k status url disk s0 :
  chans s0 !! b = Some k →
  ch_disk k = NULL →
  (status = 0 → url ≠ NULL) →
  ∃ sA,
    (if negb (status =? 0) then
       fprintf_stderr "fuse: mount failed with error"
     else
       CFRelease url ;;;
       if is_null disk then ret tt
       else fuse_chan_set_disk (Some b) disk ;;; CFRelease disk) s0
    = Ret tt sA
    ∧ chans sA !! b
      = Some (if (status =? 0) && negb (is_null disk)
              then set_ch_disk k disk else k)
    ∧ (∀ other, other ≠ b → chans sA !! other = chans s0 !! other)
    ∧ sessions sA = sessions s0
    ∧ (∀ a, frees a (trace sA) = frees a (trace s0))
    ∧ ∀ x, cf_count sA x
           = cf_count s0 x
             - (if (status =? 0) && bool_decide (url = Some x)
                then 1 else 0).
Proof.
  intros Hk Hdisk Hurl.
  destruct (Z.eqb_spec status 0) as [->|Hst]; cbn [negb andb].
  2:{ eexists. split; [reflexivity|].
      cbn [chans sessions trace upd_trace].
      do 3 (split; [done|]).
      split; [intros a; apply frees_app_nil_event|].
      intros x. unfold cf_count. cbn. lia. }
  destruct url as [u|]; [|by exfalso; apply Hurl].
  set (sU := upd_trace (fun t => t ++ [EvCFRelease u])
               (upd_cf (insert u (cf_count s0 u - 1)) s0)).
  assert (HcfU : ∀ y, cf_count sU y
                      = cf_count s0 y
                        - (if bool_decide (y = u) then 1 else 0)).
  { intros y. unfold cf_count. subst sU. cbn. unfold cf_count.
    rewrite lookup_insert.
    case_decide; case_bool_decide; simplify_eq; cbn; lia. }
  assert (HfrU : ∀ a, frees a (trace sU) = frees a (trace s0)).
  { intros a. subst sU. cbn [trace upd_trace upd_cf].
    rewrite frees_app. cbn. lia. }
  destruct disk as [d|]; cbn [is_null negb].
  - destruct (fuse_chan_set_disk_live b k d sU)
      as (sD & HsD & HchD & HseD & HtrD & HcfD); [done|].
    exists (upd_trace (fun t => t ++ [EvCFRelease d])
              (upd_cf (insert d (cf_count sD d - 1)) sD)).
    split.
    { unfold bind at 1. cbn [CFRelease]. fold sU. unfold bind.
      by rewrite HsD. }
    cbn [chans sessions trace upd_trace upd_cf]. rewrite HchD, HseD, HtrD.
    rewrite lookup_insert_eq. split; [done|].
    split; [intros other Hne; by rewrite lookup_insert_ne|].
    split; [done|]. split.
    + intros a. rewrite Hdisk, !frees_app, HfrU. cbn. lia.
    + intros x. unfold cf_count at 1. cbn. rewrite lookup_insert.
      case_decide as Hxd.
      * subst x. cbn. rewrite (HcfD d), (HcfU d), Hdisk. unfold NULL.
        repeat case_bool_decide; simplify_eq; lia.
      * fold (cf_count sD x). rewrite (HcfD x), (HcfU x), Hdisk. unfold NULL.
        repeat case_bool_decide; simplify_eq; lia.
  - exists sU. split; [reflexivity|]. split; [done|]. split; [done|].
    split; [done|]. split; [done|]. intros x. rewrite HcfU.
    repeat case_bool_decide; simplify_eq; lia.
Qed.

Lemma fuse_unmount_common_darwin_nodisk ch c mp s :
  chans s !! ch = Some c →
  ch_disk c = NULL →
  fuse_unmount_common Darwin mp (Some ch) s
  = fuse_chan_destroy Darwin (Some ch)
      (upd_trace (fun t => t ++ [EvKernUnmountDisk NULL (ch_fd c)]) s).
Proof.
  intros Hc Hd. unfold NULL in Hd.
  unfold fuse_unmount_common, fuse_chan_disk, fuse_chan_fd.
  cbn [is_null]. do 3 (unfold bind at 1).
  rewrite (load_chan_Some _ _ _ Hc), Hd. cbn [is_null ret].
  do 3 (unfold bind at 1). by rewrite (load_chan_Some _ _ _ Hc).
Qed.

Lemma fuse_mount_context_destroy_last mc b k s :
  mc_ch mc = Some b →
  chans s !! b = Some k →
  ch_retain_count k = 1 →
  ∃ s',
    fuse_mount_context_destroy mc s = Ret tt s'
    ∧ chans s' !! b = None
    ∧ sessions s' = sessions s
    ∧ (mc_addr mc ≠ b → frees b (trace s') = S (frees b (trace s)))
    ∧ ∀ x, cf_count s' x
           = cf_count s x - (if bool_decide (ch_disk k = Some x) then 1 else 0).
Proof.
  intros Hmc Hk Hn. unfold fuse_mount_context_destroy. rewrite Hmc.
  cbn [is_null]. unfold bind at 1. cbn [emit]. unfold bind at 1.
  rewrite (fuse_chan_release_live b k) by done. rewrite Hn. cbn [Z.ltb Z.compare
    INT_MIN Z.sub Z.add Z.opp Z.pos_sub Z.eqb].
  destruct (ch_disk k) as [d|]; cbn [is_null id emit];
    eexists; (split; [reflexivity|]);
    cbn [chans sessions trace upd_trace upd_chans upd_cf];
    rewrite lookup_delete_eq; (split; [done|]); (split; [done|]); split.
  - intros Hne. rewrite !frees_app. cbn. rewrite bool_decide_eq_true_2 by done.
    rewrite bool_decide_eq_false_2 by done. cbn. lia.
  - intros x. unfold cf_count. cbn. rewrite lookup_insert.
    case_decide; case_bool_decide; simplify_eq; cbn; lia.
  - intros Hne. rewrite !frees_app. cbn. rewrite bool_decide_eq_true_2 by done.
    rewrite bool_decide_eq_false_2 by done. cbn. lia.
  - intros x. unfold cf_count. cbn. case_bool_decide; [done|]. lia.
Qed.

(** X11. A signal that arrives on Darwin between the mount and its
    completion callback does not free the channel under the callback. The
    mount retains the new channel; the channel is bound to its session;
    [exit_handler] finds no disk on it, calls the platform unmount
    without one and destroys the channel, which unbinds it and leaves it
    in the heap with the callback's retain, so that the session no longer
    reaches it. The callback, whatever its status, then releases that
    retain and the channel is freed, once; a disk the callback attached
    is released with it. *)
Theorem exit_handler_before_mount_callback
    (mc_a se b : addr) (x : fuse_session) (c : fuse_chan)
    (mountpoint : string) (fd status : Z) (url disk : ptr) (s : state) :
  sessions s !! se = Some x →
  se_ch x = NULL →
  chans s !! b = Some c →
  ch_se c = NULL →
  ch_retain_count c = 1 →
  ch_disk c = NULL →
  fd ≠ -1 →
  mc_a ≠ b →
  (status = 0 → url ≠ NULL) →
  ∃ mc s1 s2 s3 s4,
    fuse_mount_common Darwin (Some mc_a) mountpoint fd (Some b) s
      = Ret (Some b, Some mc) s1
    ∧ fuse_session_add_chan (Some se) (Some b) s1 = Ret tt s2
    ∧ exit_handler Darwin (Some se) s2 = Ret tt s3
    ∧ (∃ c3, chans s3 !! b = Some c3
             ∧ ch_retain_count c3 = 1 ∧ ch_se c3 = NULL)
    ∧ frees b (trace s3) = frees b (trace s)
    ∧ fuse_session_next_chan (Some se) NULL s3 = Ret NULL s3
    ∧ fuse_mount_callback mc status url disk s3 = Ret tt s4
    ∧ chans s4 !! b = None
    ∧ frees b (trace s4) = S (frees b (trace s))
    ∧ ∀ y, cf_count s4 y
           = cf_count s y
             - (if (status =? 0) && bool_decide (url = Some y)
                then 1 else 0)
             - (if (status =? 0) && bool_decide (disk = Some y)
                then 1 else 0).
Proof.
  intros Hx Hxn Hc Hcn Hn Hd Hfd Hne Hurl.
  set (mc := {| mc_addr := mc_a;
                mc_mountpoint :=
                  String.substring 0 (MAXPATHLEN - 1) mountpoint;
                mc_ch := Some b |}).
  set (c1 := set_ch_retain_count c (ch_retain_count c + 1)).
  set (s1 := upd_chans (insert b c1) s).
  set (x2 := set_se_ch x (Some b)).
  set (c2 := set_ch_se c1 (Some se)).
  set (s2 := upd_chans (insert b c2) (upd_sessions (insert se x2) s1)).
  assert (Hmount : fuse_mount_common Darwin (Some mc_a) mountpoint fd
                     (Some b) s = Ret (Some b, Some mc) s1).
  { apply fuse_mount_common_darwin_run; [done| |done].
    rewrite Hn. by unfold INT_MAX. }
  assert (Hadd : fuse_session_add_chan (Some se) (Some b) s1 = Ret tt s2).
  { unfold fuse_session_add_chan, bind, load_session, load_chan, assert,
      store_session, store_chan. subst s1. cbn. rewrite Hx, Hxn. cbn.
    rewrite lookup_insert_eq. subst c1. cbn. rewrite Hcn. cbn. rewrite Hx.
    cbn. by rewrite lookup_insert_eq. }
  assert (Hx2 : sessions s2 !! se = Some x2)
    by (subst s2; cbn; apply lookup_insert_eq).
  assert (Hc2 : chans s2 !! b = Some c2)
    by (subst s2; cbn; apply lookup_insert_eq).
  set (s2' := upd_trace
                (fun t => t ++ [EvKernUnmountDisk NULL (ch_fd c2)]) s2).
  destruct (fuse_chan_destroy_darwin_run se b x2 c2 s2')
    as (s3 & Hdes & Hs3 & Hc3 & _ & Ht3 & Hcf3);
    [done|done|done|done|subst c2 c1; cbn; lia|].
  assert (Hcnt2 : (ch_retain_count c2 =? 1) = false).
  { subst c2 c1. cbn. rewrite Hn. done. }
  rewrite Hcnt2 in Hc3, Ht3, Hcf3.
  assert (Hexit : exit_handler Darwin (Some se) s2 = Ret tt s3).
  { unfold exit_handler. cbn [is_null]. unfold bind at 1.
    unfold fuse_session_next_chan. unfold bind at 1.
    rewrite (load_session_Some _ _ _ Hx2). cbn [is_null orb assert bind ret].
    unfold bind at 1. cbn [assert]. subst x2. cbn [se_ch set_se_ch is_null].
    unfold fuse_unmount, assert, ret, NULL. cbn [is_null orb].
    rewrite (fuse_unmount_common_darwin_nodisk b c2) by done. exact Hdes. }
  set (c3 := set_ch_retain_count (set_ch_se c2 NULL)
               (ch_retain_count c2 - 1)) in *.
  assert (Hn3 : ch_retain_count c3 = 1)
    by (subst c3 c2 c1; cbn; lia).
  destruct (fuse_mount_callback_attach b c3 status url disk s3)
    as (sA & Hatt & HcA & _ & HsA & HfA & HcfA); [done|done|done|].
  set (cA := if (status =? 0) && negb (is_null disk)
             then set_ch_disk c3 disk else c3) in *.
  destruct (fuse_mount_context_destroy_last mc b cA sA)
    as (s4 & Hlast & Hc4 & _ & Hf4 & Hcf4);
    [done|done|subst cA; by destruct (_ && _)|].
  exists mc, s1, s2, s3, s4.
  split; [done|]. split; [done|]. split; [done|].
  split; [by exists c3|].
  assert (Hfr3 : frees b (trace s3) = frees b (trace s)).
  { rewrite Ht3. subst s2' s2 s1. cbn [trace upd_trace upd_chans upd_sessions].
    rewrite app_nil_r, !frees_app.
    destruct (op_chan_destroy (ch_op c2)); cbn; lia. }
  split; [done|]. split.
  { unfold fuse_session_next_chan, bind, load_session.
    by rewrite Hs3, lookup_insert_eq. }
  split.
  { unfold fuse_mount_callback. unfold bind at 1.
    change (mc_ch mc) with (Some b). by rewrite Hatt. }
  split; [done|]. split; [by rewrite Hf4, HfA, Hfr3|].
  intros y. rewrite Hcf4, HcfA, Hcf3. subst s2' s2 s1. unfold cf_count.
  cbn [cf upd_trace upd_chans upd_sessions andb].
  subst cA. destruct (Z.eqb_spec status 0); cbn [andb];
    [|rewrite bool_decide_eq_false_2 by (subst c3; cbn; by rewrite Hd); lia].
  destruct disk as [d|]; cbn [is_null negb ch_disk set_ch_disk].
  - repeat case_bool_decide; simplify_eq; lia.
  - rewrite (bool_decide_eq_false_2 (ch_disk c3 = Some y))
      by (subst c3; cbn; by rewrite Hd).
    rewrite (bool_decide_eq_false_2 (None = Some y)) by done. lia.
Qed.

Lemma exit_handler_before_mount_callback_witness :
  ∃ mc s1 s2 s3 s4,
    fuse_mount_common Darwin (Some 50%positive) "/mnt" 3 (Some 1%positive)
      example_state = Ret (Some 1%positive, Some mc) s1
    ∧ fuse_session_add_chan (Some 2%positive) (Some 1%positive) s1
      = Ret tt s2
    ∧ exit_handler Darwin (Some 2%positive) s2 = Ret tt s3
    ∧ fuse_mount_callback mc 0 (Some 60%positive) (Some 7%positive) s3
      = Ret tt s4
    ∧ chans s4 !! 1%positive = None
    ∧ frees 1%positive (trace s4) = 1%nat.
Proof.
  destruct (exit_handler_before_mount_callback 50%positive 2%positive
              1%positive example_session example_chan "/mnt" 3 0
              (Some 60%positive) (Some 7%positive) example_state)
    as (mc & s1 & s2 & s3 & s4 & Hm & Ha & He & _ & _ & _ & Hcb & Hch & Hfr
        & _); try reflexivity; try done.
  exists mc, s1, s2, s3, s4. by repeat (split; [assumption|]).
Defined.

(** ** Tearing down (fuse_teardown_common) *)

Section TeardownProperties.

Variable sigaction_get_fails : Z → bool.
Variable sigaction_set_fails : Z → bool.
Variable fuse_destroy : M unit.


End TeardownProperties.


(** ** Unmounting where the platform is not Darwin *)

(** X13. Where the platform is not Darwin, [fuse_unmount_common] does
    nothing at all without a mount path, not even for a live channel. With
    a mount path and no channel it calls the platform unmount with
    descriptor [-1]. With a mount path and a channel bound to a session it
    calls the platform unmount with the descriptor the channel held, then
    unbinds the channel, calls its [destroy] operation and frees it,
    whatever its retain count. *)
Theorem fuse_unmount_common_other
    (mp : string) (se ch : addr) (x : fuse_session) (c : fuse_chan)
    (s : state) :
  sessions s !! se = Some x →
  se_ch x = Some ch →
  chans s !! ch = Some c →
  ch_se c = Some se →
  fuse_unmount_common Other None (Some ch) s = Ret tt s
  ∧ fuse_unmount_common Other (Some mp) NULL s
    = Ret tt (upd_trace (fun t => t ++ [EvKernUnmountPath mp (-1)]) s)
  ∧ ∃ s',
      fuse_unmount_common Other (Some mp) (Some ch) s = Ret tt s'
      ∧ trace s'
        = trace s ++ EvKernUnmountPath mp (ch_fd c)
            :: match op_chan_destroy (ch_op c) with
               | Some f => [EvChanDestroy f (Some ch)]
               | None => []
               end ++ [EvFree ch]
      ∧ chans s' = delete ch (chans s)
      ∧ sessions s' = <[se := set_se_ch x NULL]> (sessions s).
Proof.
  intros Hx Hxc Hc Hcs. split; [done|]. split; [done|].
  unfold fuse_unmount_common. cbn [is_null].
  unfold fuse_chan_clearfd. unfold bind at 1. unfold bind at 1.
  rewrite (load_chan_Some _ _ _ Hc). unfold bind at 1.
  rewrite (store_chan_Some _ _ _ _ Hc). cbn [ret]. unfold bind at 1.
  cbn [emit]. unfold fuse_chan_destroy. unfold bind at 1.
  erewrite (fuse_session_remove_chan_bound se ch x (set_ch_fd c (-1)));
    [|done|done|cbn; apply lookup_insert_eq|done].
  unfold bind at 1. unfold load_chan. cbn [chans upd_chans upd_sessions
    upd_trace]. rewrite lookup_insert_eq. unfold bind at 1.
  cbn [ch_op set_ch_se set_ch_fd].
  destruct (op_chan_destroy (ch_op c)); cbn [emit ret]; unfold free_chan;
    cbn [chans upd_chans upd_sessions upd_trace];
    rewrite lookup_insert_eq; eexists; (split; [reflexivity|]);
    cbn [chans sessions trace upd_chans upd_sessions upd_trace];
    rewrite !delete_insert_eq, <- ?app_assoc; done.
Qed.

Lemma fuse_unmount_common_other_witness :
  ∃ s',
    fuse_unmount_common Other (Some "/mnt") (Some 1%positive)
      (two_session_state NULL) = Ret tt s'
    ∧ trace s' = [EvKernUnmountPath "/mnt" 3; EvFree 1%positive]
    ∧ chans s' = delete 1%positive (chans (two_session_state NULL)).
Proof.
  destruct (fuse_unmount_common_other "/mnt" 2%positive 1%positive
              (session_with_data NULL)
              (set_ch_se example_chan (Some 2%positive))
              (two_session_state NULL))
    as (_ & _ & s' & Hrun & Htr & Hch & _); try reflexivity.
  exists s'. split; [exact Hrun|]. split; [exact Htr|exact Hch].
Defined.

(** ** The descriptor loop of fuse_mount_common *)

Lemma open_std_fds_spec opens : ∀ kept0 closed0 kept closed,
  open_std_fds opens kept0 closed0 = Some (kept, closed) →
  ∃ pre last rest,
    opens = pre ++ last :: rest
    ∧ Forall std_fd pre
    ∧ ¬ std_fd last
    ∧ kept = kept0 ++ pre
    ∧ closed = closed0 ++ (if 2 <? last then [last] else []).
Proof.
  induction opens as [|fd opens IH]; intros kept0 closed0 kept closed Hrun;
    [done|].
  cbn in Hrun.
  destruct (Z.leb_spec 0 fd), (Z.leb_spec fd 2), (Z.ltb_spec 2 fd);
    cbn in Hrun; try lia.
  - apply IH in Hrun as (pre & last & rest & -> & Hpre & Hlast & -> & ->).
    exists (fd :: pre), last, rest. rewrite <- app_assoc.
    split; [done|]. split; [constructor; [unfold std_fd; lia|done]|].
    by split.
  - injection Hrun as <- <-. exists [], fd, opens.
    rewrite app_nil_r. split; [done|]. split; [constructor|].
    split; [unfold std_fd; lia|].
    by destruct (Z.ltb_spec 2 fd); [|lia].
  - injection Hrun as <- <-. exists [], fd, opens.
    rewrite !app_nil_r. split; [done|]. split; [constructor|].
    split; [unfold std_fd; lia|].
    by destruct (Z.ltb_spec 2 fd); [lia|rewrite app_nil_r].
Qed.

Lemma open_std_fds_returns opens : ∀ kept0 closed0,
  Exists (fun fd => ¬ std_fd fd) opens →
  is_Some (open_std_fds opens kept0 closed0).
Proof.
  induction opens as [|fd opens IH]; intros kept0 closed0 Hex.
  - by apply Exists_nil in Hex.
  - cbn. destruct (Z.leb_spec 0 fd), (Z.leb_spec fd 2); cbn; try done.
    apply IH. apply Exists_cons in Hex as [Hfd|Hex]; [|done].
    unfold std_fd in Hfd. lia.
Qed.

(** X14. The loop that opens [/dev/null] until descriptors 0, 1 and 2
    are taken stops at the first descriptor that is not one of them. It
    keeps every descriptor it got before, all of them among 0, 1, 2, and
    closes at most one descriptor, the last one when it is above 2; a
    failed [open] closes nothing. It never closes 0, 1 or 2. *)
Theorem open_std_fds_keeps_standard
    (opens kept closed : list Z) :
  open_std_fds opens [] [] = Some (kept, closed) →
  Forall std_fd kept
  ∧ ∃ last rest,
      opens = kept ++ last :: rest
      ∧ ¬ std_fd last
      ∧ closed = (if 2 <? last then [last] else []).
Proof.
  intros Hrun.
  apply open_std_fds_spec in Hrun
    as (pre & last & rest & -> & Hpre & Hlast & -> & ->).
  split; [done|]. by exists last, rest.
Qed.

Lemma open_std_fds_keeps_standard_witness :
  open_std_fds [0; 2; 5; 1] [] [] = Some ([0; 2], [5])
  ∧ Forall std_fd [0; 2]
  ∧ ∃ last rest,
      [0; 2; 5; 1] = [0; 2] ++ last :: rest
      ∧ ¬ std_fd last
      ∧ [5] = (if 2 <? last then [last] else []).
Proof.
  split; [reflexivity|].
  apply (open_std_fds_keeps_standard [0; 2; 5; 1] [0; 2] [5]). reflexivity.
Defined.

(** ** The command line *)

Module CmdlineProofs.
Import Cmdline.


Lemma strrchr_no_slash (name : string) :
  ¬ In slash (String.list_ascii_of_string name) →
  strrchr name slash = None.
Proof.
  induction name as [|a name IH]; [done|].
  cbn [String.list_ascii_of_string In strrchr]. intros Hno.
  rewrite IH by tauto.
  destruct (Ascii.eqb_spec a slash) as [->|]; [|done].
  exfalso. apply Hno. by left.
Qed.

Lemma strrchr_last_slash (dir name : string) :
  ¬ In slash (String.list_ascii_of_string name) →
  strrchr (dir +:+ String slash name) slash = Some (String slash name).
Proof.
  intros Hno. induction dir as [|a dir IH].
  - change (strrchr (String slash name) slash = Some (String slash name)).
    cbn [strrchr]. rewrite (strrchr_no_slash name) by done.
    by rewrite Ascii.eqb_refl.
  - change (strrchr (String a (dir +:+ String slash name)) slash
            = Some (String slash name)).
    cbn [strrchr]. by rewrite IH.
Qed.


Ltac cmdline_cases hopts :=
  unfold fuse_parse_cmdline, select_loop;
  destruct hopts as [fg1 st lp nds mnt]; cbn [ho_foreground ho_singlethread
    ho_loop ho_nodefault_subtype ho_mountpoint];
  repeat match goal with
    | |- context [Z.eqb ?a ?b] => destruct (Z.eqb_spec a b)
    | |- context [String.eqb ?a ?b] => destruct (String.eqb_spec a b)
    | |- context [match ?o with Some _ => _ | None => _ end] =>
        is_var o; destruct o
    | |- context [if ?b then _ else _] => is_var b; destruct b
    end;
  cbn [negb andb cl_res cl_mountpoint cl_multithreaded cl_foreground
       cl_freed cl_stderr app].

Ltac freed_in :=
  repeat first [apply list_elem_of_here | apply list_elem_of_further].

Ltac freed_notin :=
  let Hin := fresh "Hin" in
  intros Hin;
  repeat (apply elem_of_cons in Hin as [Hin|Hin]; [discriminate|]);
  by apply elem_of_nil in Hin.

(** X15. [add_default_subtype] names the subtype after the last component
    of the program name: a name without a slash is taken whole, of
    [dir/name] the part after the last slash is taken, and for a program
    name that ends in a slash the subtype is the slash itself. *)
Theorem add_default_subtype_basename
    (b : addr) (add_arg : Z) (dir name : string) :
  ¬ In slash (String.list_ascii_of_string name) →
  add_default_subtype (Some b) add_arg name
    = (add_arg, Some ("-osubtype=" +:+ name), [])
  ∧ add_default_subtype (Some b) add_arg (dir +:+ String slash name)
    = (add_arg,
       Some ("-osubtype=" +:+ (if String.eqb name "" then "/" else name)),
       []).
Proof.
  intros Hno. unfold add_default_subtype, subtype_basename.
  rewrite strrchr_no_slash, strrchr_last_slash by done.
  split; [done|]. by destruct name.
Qed.

Lemma add_default_subtype_basename_witness :
  add_default_subtype (Some 1%positive) 0 "/usr/local/bin/sshfs"
    = (0, Some "-osubtype=sshfs", []).
Proof.
  refine (proj2 (add_default_subtype_basename 1%positive 0
                   "/usr/local/bin" "sshfs" _)).
  cbn. unfold slash. intuition discriminate.
Defined.

Section LoopConstants.

Variables FUSE_LOOP_SINGLE_THREADED FUSE_LOOP_MULTI_THREADED
          FUSE_LOOP_DISPATCH : Z.



(** X18. [fuse_parse_cmdline] hands no string to [free] twice, with one
    exception: called without a place for the mount point, it frees the
    mount point at once, and when the [loop] option is then found
    invalid the error path frees the mount point a second time. With a
    place for the mount point, the same error leaves the caller a mount
    point that has been freed. A successful call never frees the [loop]
    string. *)
Theorem fuse_parse_cmdline_frees
    (parse : Z) (hopts : helper_opts) (subtype : Z)
    (mountpoint multithreaded foreground : bool) :
  let cl := fuse_parse_cmdline FUSE_LOOP_SINGLE_THREADED
              FUSE_LOOP_MULTI_THREADED FUSE_LOOP_DISPATCH
              parse hopts subtype mountpoint multithreaded foreground in
  (NoDup (cl_freed cl) ↔
     ¬ (mountpoint = false
        ∧ cl_stderr cl = ["fuse: invalid option loop"]))
  ∧ (mountpoint = false →
     cl_stderr cl = ["fuse: invalid option loop"] →
     cl_freed cl = [FreeMountpoint; FreeLoop; FreeMountpoint])
  ∧ (mountpoint = true →
     cl_stderr cl = ["fuse: invalid option loop"] →
     cl_mountpoint cl = Some (ho_mountpoint hopts)
     ∧ FreeMountpoint ∈ cl_freed cl)
  ∧ (cl_res cl = 0 → FreeLoop ∉ cl_freed cl).
Proof.
  cmdline_cases hopts.
  all: split;
    [split;
      [intros Hnd [? ?]; simplify_eq;
       (apply NoDup_cons in Hnd as [Hin _]; apply Hin; freed_in)
      |intros Hno;
       first [by exfalso; apply Hno
             |repeat (apply NoDup_cons; split; [freed_notin|]);
              apply NoDup_nil_2]]|].
  all: split; [intros; simplify_eq; done|].
  all: split; [intros; simplify_eq; (split; [done|freed_in])|].
  all: intros; simplify_eq; try lia; freed_notin.
Qed.

End LoopConstants.


End CmdlineProofs.

(** ** Signal handlers *)

Module SignalsMore.
Import Signals.

Ltac handler_cases :=
  repeat match goal with
    | H : ∀ _ : Z, _ |- _ => clear H
    | H : ∀ _ : nat, _ |- _ => clear H
    | H : context [bool_decide _] |- _ => clear H
    end;
  repeat case_bool_decide; try done; exfalso;
  unfold SIGHUP, SIGINT, SIGTERM, SIGPIPE in *;
  rewrite ?elem_of_cons, ?elem_of_nil in *;
  intuition congruence.

Lemma old_handler_set_disposition sig' sig h st :
  old_handler sig' (set_disposition sig h st)
  = if bool_decide (sig' = sig) then h else old_handler sig' st.
Proof.
  unfold old_handler, set_disposition. cbn [disposition].
  case_bool_decide as Hs.
  - subst. by rewrite lookup_insert_eq.
  - by rewrite lookup_insert_ne.
Qed.

Section System.

Variable sigaction_get_fails : Z → bool.
Variable sigaction_set_fails : Z → bool.
Variable dispatch_source_create : Z → ptr.

Lemma set_one_signal_handler_any sig h remove st :
  let '(r, st') :=
    set_one_signal_handler sigaction_get_fails sigaction_set_fails
      sig h remove st in
  fuse_instance st' = fuse_instance st
  ∧ fuse_unmount_sources st' = fuse_unmount_sources st
  ∧ ((r = 0 ∧ stderr st' = stderr st)
     ∨ (r = -1 ∧ ∃ msg, stderr st' = stderr st ++ [msg])).
Proof.
  unfold set_one_signal_handler.
  destruct (sigaction_get_fails sig); cbn; [by eauto 10|].
  case_bool_decide; [|by eauto 10].
  destruct (sigaction_set_fails sig); cbn; by eauto 10.
Qed.

Lemma register_unmount_sources_result sigs : ∀ i st,
  let '(o, st') :=
    register_unmount_sources sigaction_get_fails sigaction_set_fails
      dispatch_source_create i sigs st in
  fuse_instance st' = fuse_instance st
  ∧ ((o = None ∧ ∃ log, stderr st' = stderr st ++ log)
     ∨ (o = Some (-1) ∧ ∃ msg log, stderr st' = stderr st ++ log ++ [msg])).
Proof.
  induction sigs as [|signal sigs IH]; intros i st.
  { cbn. split; [done|]. left. split; [done|]. exists []. by rewrite app_nil_r. }
  cbn [register_unmount_sources].
  pose proof (set_one_signal_handler_any signal SIG_IGN false st) as Hone.
  destruct (set_one_signal_handler _ _ signal SIG_IGN false st) as [r st1].
  destruct Hone as (Hi1 & Hs1 & [[-> Herr1]|[-> (msg & Herr1)]]).
  2:{ cbn. split; [done|]. right. split; [done|]. by exists msg, []. }
  cbn [Z.eqb Z.opp Pos.eqb].
  destruct (default NULL (fuse_unmount_sources st1 !! i)) as [old|];
    cbn [is_null negb].
  { cbn. split; [done|]. right. split; [done|]. exists report, [].
    by rewrite Herr1. }
  unfold register_signal_source.
  destruct (dispatch_source_create signal) as [source|].
  - specialize (IH (S i) (set_source i (Some source) st1)).
    destruct (register_unmount_sources _ _ _ (S i) sigs _) as [o st'].
    cbn in IH. rewrite Hi1, Herr1 in IH. done.
  - specialize
      (IH (S i)
         (set_source i NULL
            (perror "fuse: failed to create source for signal" st1))).
    destruct (register_unmount_sources _ _ _ (S i) sigs _) as [o st'].
    cbn in IH. rewrite Hi1, Herr1 in IH.
    destruct IH as (Hi & [[-> (log & Hlog)]|[-> (msg & log & Hlog)]]).
    + split; [done|]. left. split; [done|]. eexists.
      by rewrite Hlog, <- app_assoc.
    + split; [done|]. right. split; [done|]. eexists msg, (_ :: log).
      by rewrite Hlog, <- app_assoc.
Qed.

(** X19. [fuse_set_signal_handlers] returns 0 or -1 on both platforms.
    When it returns 0 the session is recorded in [fuse_instance]; when it
    returns -1 [fuse_instance] is left as it was and the last thing
    written to [stderr] is a message of this call. *)
Theorem fuse_set_signal_handlers_result
    (pf : platform) (se : ptr) (st : sig_state) :
  let '(r, st1) :=
    fuse_set_signal_handlers sigaction_get_fails sigaction_set_fails
      dispatch_source_create pf se st in
  (r = 0 ∧ fuse_instance st1 = se)
  ∨ (r = -1 ∧ fuse_instance st1 = fuse_instance st
     ∧ ∃ msg log, stderr st1 = stderr st ++ log ++ [msg]).
Proof.
  unfold fuse_set_signal_handlers. destruct pf.
  - pose proof (register_unmount_sources_result fuse_unmount_signals 0 st)
      as Hreg.
    destruct (register_unmount_sources _ _ _ 0 _ st) as [o st1].
    destruct Hreg as (Hi & [[-> (log & Hlog)]|[-> (msg & log & Hlog)]]).
    2:{ right. eauto 10. }
    pose proof (set_one_signal_handler_any SIGPIPE SIG_IGN false st1) as Hone.
    destruct (set_one_signal_handler _ _ SIGPIPE SIG_IGN false st1)
      as [r st2].
    destruct Hone as (Hi2 & _ & [[-> Herr2]|[-> (msg & Herr2)]]); cbn.
    + by left.
    + right. split; [done|]. split; [congruence|]. exists msg, log.
      by rewrite Herr2, Hlog, <- app_assoc.
  - repeat
      (match goal with
       | |- context [set_one_signal_handler ?g ?s ?sig ?h false ?st0] =>
           let Hone := fresh "Hone" in
           let r := fresh "r" in
           let st1 := fresh "st" in
           pose proof (set_one_signal_handler_any sig h false st0) as Hone;
           destruct (set_one_signal_handler g s sig h false st0) as [r st1];
           destruct Hone as (? & _ & [[-> ?]|[-> (? & ?)]]); cbn;
           [|right; split; [done|]; split; [congruence|];
             match goal with
             | H : stderr _ = _ ++ [?m] |- _ => exists m, []
             end; cbn; congruence]
       end).
    left. split; [done|]. done.
Qed.

Lemma set_one_signal_handler_same_signals sig h remove st st' :
  disposition st = disposition st' →
  fuse_unmount_sources st = fuse_unmount_sources st' →
  let a := set_one_signal_handler sigaction_get_fails sigaction_set_fails
             sig h remove st in
  let b := set_one_signal_handler sigaction_get_fails sigaction_set_fails
             sig h remove st' in
  a.1 = b.1
  ∧ disposition (a.2) = disposition (b.2)
  ∧ fuse_unmount_sources (a.2) = fuse_unmount_sources (b.2)
  ∧ fuse_instance (a.2) = fuse_instance st
  ∧ fuse_instance (b.2) = fuse_instance st'
  ∧ ∃ log, stderr (a.2) = stderr st ++ log
           ∧ stderr (b.2) = stderr st' ++ log.
Proof.
  intros Hd Hs. unfold set_one_signal_handler, old_handler. rewrite Hd.
  destruct (sigaction_get_fails sig); cbn; [by eauto 10|].
  case_bool_decide.
  - destruct (sigaction_set_fails sig); cbn; [by eauto 10|].
    rewrite Hd. repeat split; try done. exists []. by rewrite !app_nil_r.
  - cbn. repeat split; try done. exists []. by rewrite !app_nil_r.
Qed.

Lemma release_unmount_sources_same_signals sigs : ∀ i st st',
  disposition st = disposition st' →
  fuse_unmount_sources st = fuse_unmount_sources st' →
  let a := release_unmount_sources sigaction_get_fails sigaction_set_fails
             i sigs st in
  let b := release_unmount_sources sigaction_get_fails sigaction_set_fails
             i sigs st' in
  disposition a = disposition b
  ∧ fuse_unmount_sources a = fuse_unmount_sources b
  ∧ fuse_instance a = fuse_instance st
  ∧ fuse_instance b = fuse_instance st'
  ∧ ∃ log, stderr a = stderr st ++ log ∧ stderr b = stderr st' ++ log.
Proof.
  induction sigs as [|signal sigs IH]; intros i st st' Hd Hs.
  { cbn. repeat split; try done. exists []. by rewrite !app_nil_r. }
  cbn [release_unmount_sources].
  destruct (set_one_signal_handler_same_signals signal SIG_IGN true st st'
              Hd Hs) as (_ & Hd1 & Hs1 & Hi1 & Hi1' & log1 & He1 & He1').
  set (st1 := (set_one_signal_handler _ _ signal SIG_IGN true st).2) in *.
  set (st1' := (set_one_signal_handler _ _ signal SIG_IGN true st').2) in *.
  rewrite <- Hs1.
  set (st2 := if negb _ then set_source i NULL st1 else st1).
  set (st2' := if negb _ then set_source i NULL st1' else st1').
  assert (H2 : disposition st2 = disposition st2'
               ∧ fuse_unmount_sources st2 = fuse_unmount_sources st2'
               ∧ fuse_instance st2 = fuse_instance st
               ∧ fuse_instance st2' = fuse_instance st'
               ∧ stderr st2 = stderr st ++ log1
               ∧ stderr st2' = stderr st' ++ log1).
  { subst st2 st2'. destruct (negb _); cbn; rewrite ?Hs1; done. }
  destruct H2 as (Hd2 & Hs2 & Hi2 & Hi2' & He2 & He2').
  destruct (IH (S i) st2 st2' Hd2 Hs2)
    as (Hd3 & Hs3 & Hi3 & Hi3' & log & He3 & He3').
  repeat split; try congruence.
  exists (log1 ++ log). rewrite He3, He3', He2, He2'. by rewrite !app_assoc.
Qed.

(** X20. [fuse_remove_signal_handlers] for a session that is not the
    registered one writes "unknown session" and leaves [fuse_instance] as
    it is, but goes on: the signal dispositions and the signal sources
    end exactly as if the registered session had been given. *)
Theorem fuse_remove_signal_handlers_unknown_session
    (pf : platform) (se : ptr) (st : sig_state) :
  fuse_instance st ≠ se →
  let st1 := fuse_remove_signal_handlers sigaction_get_fails
               sigaction_set_fails pf se st in
  let st2 := fuse_remove_signal_handlers sigaction_get_fails
               sigaction_set_fails pf (fuse_instance st) st in
  fuse_instance st1 = fuse_instance st
  ∧ fuse_instance st2 = NULL
  ∧ disposition st1 = disposition st2
  ∧ fuse_unmount_sources st1 = fuse_unmount_sources st2
  ∧ ∃ log,
      stderr st1
      = stderr st
        ++ "fuse: fuse_remove_signal_handlers: unknown session" :: log
      ∧ stderr st2 = stderr st ++ log.
Proof.
  intros Hne. unfold fuse_remove_signal_handlers.
  rewrite (bool_decide_eq_true_2 (fuse_instance st ≠ se)) by done.
  rewrite (bool_decide_eq_false_2 (fuse_instance st ≠ fuse_instance st))
    by (intros H; by apply H).
  set (sa := perror _ st). set (sb := set_instance NULL st).
  assert (Hd : disposition sa = disposition sb) by done.
  assert (Hs : fuse_unmount_sources sa = fuse_unmount_sources sb) by done.
  assert (Hia : fuse_instance sa = fuse_instance st) by done.
  assert (Hib : fuse_instance sb = NULL) by done.
  destruct pf.
  - destruct (release_unmount_sources_same_signals fuse_unmount_signals 0
                sa sb Hd Hs) as (Hd1 & Hs1 & Hi1 & Hi1' & log1 & He1 & He1').
    destruct (set_one_signal_handler_same_signals SIGPIPE SIG_IGN true _ _
                Hd1 Hs1) as (_ & Hd2 & Hs2 & Hi2 & Hi2' & log2 & He2 & He2').
    cbn zeta. split_and!; try congruence.
    exists (log1 ++ log2). rewrite He2, He2', He1, He1'. subst sa sb. cbn.
    by rewrite <- !app_assoc.
  - destruct (set_one_signal_handler_same_signals SIGHUP exit_handler true
                sa sb Hd Hs) as (_ & Hd1 & Hs1 & Hi1 & Hi1' & log1 & He1 & He1').
    destruct (set_one_signal_handler_same_signals SIGINT exit_handler true
                _ _ Hd1 Hs1)
      as (_ & Hd2 & Hs2 & Hi2 & Hi2' & log2 & He2 & He2').
    destruct (set_one_signal_handler_same_signals SIGTERM exit_handler true
                _ _ Hd2 Hs2)
      as (_ & Hd3 & Hs3 & Hi3 & Hi3' & log3 & He3 & He3').
    destruct (set_one_signal_handler_same_signals SIGPIPE SIG_IGN true
                _ _ Hd3 Hs3)
      as (_ & Hd4 & Hs4 & Hi4 & Hi4' & log4 & He4 & He4').
    cbn zeta in *. split_and!; try congruence.
    exists (log1 ++ log2 ++ log3 ++ log4).
    rewrite He4, He4', He3, He3', He2, He2', He1, He1'. subst sa sb. cbn.
    by rewrite <- !app_assoc.
Qed.

End System.

Lemma fuse_remove_signal_handlers_unknown_session_witness :
  let st := snd (fuse_set_signal_handlers never_fails never_fails
                   source_of_signal Other (Some 2%positive) sig_init) in
  let st1 := fuse_remove_signal_handlers never_fails never_fails Other
               (Some 5%positive) st in
  let st2 := fuse_remove_signal_handlers never_fails never_fails Other
               (fuse_instance st) st in
  fuse_instance st1 = fuse_instance st
  ∧ fuse_instance st2 = NULL
  ∧ disposition st1 = disposition st2
  ∧ fuse_unmount_sources st1 = fuse_unmount_sources st2
  ∧ ∃ log,
      stderr st1
      = stderr st
        ++ "fuse: fuse_remove_signal_handlers: unknown session" :: log
      ∧ stderr st2 = stderr st ++ log.
Proof.
  intros st.
  apply (fuse_remove_signal_handlers_unknown_session never_fails never_fails
           Other (Some 5%positive) st).
  vm_compute. discriminate.
Defined.

Section Working.

Variable sigaction_get_fails : Z → bool.
Variable sigaction_set_fails : Z → bool.
Variable dispatch_source_create : Z → ptr.

Hypothesis get_works : ∀ sig, sigaction_get_fails sig = false.
Hypothesis set_works : ∀ sig, sigaction_set_fails sig = false.

Lemma set_one_signal_handler_works sig h remove st :
  set_one_signal_handler sigaction_get_fails sigaction_set_fails
    sig h remove st
  = (0, if bool_decide
             (old_handler sig st = (if remove then h else SIG_DFL))
        then set_disposition sig (if remove then SIG_DFL else h) st
        else st).
Proof.
  unfold set_one_signal_handler. rewrite get_works, set_works.
  by case_bool_decide.
Qed.

Lemma set_one_signal_handler_pair sig h remove st :
  set_one_signal_handler sigaction_get_fails sigaction_set_fails
    sig h remove st
  = (0, (set_one_signal_handler sigaction_get_fails sigaction_set_fails
           sig h remove st).2).
Proof. by rewrite set_one_signal_handler_works. Qed.

Lemma set_one_signal_handler_fields sig h remove st :
  let st' := (set_one_signal_handler sigaction_get_fails
                sigaction_set_fails sig h remove st).2 in
  fuse_instance st' = fuse_instance st
  ∧ fuse_unmount_sources st' = fuse_unmount_sources st
  ∧ stderr st' = stderr st.
Proof.
  rewrite set_one_signal_handler_works. cbn. by case_bool_decide.
Qed.

Lemma old_handler_same sig h remove st :
  old_handler sig
    (set_one_signal_handler sigaction_get_fails sigaction_set_fails
       sig h remove st).2
  = if bool_decide (old_handler sig st = (if remove then h else SIG_DFL))
    then (if remove then SIG_DFL else h) else old_handler sig st.
Proof.
  rewrite set_one_signal_handler_works. cbn [snd].
  case_bool_decide; [|done].
  rewrite old_handler_set_disposition. by rewrite bool_decide_eq_true_2.
Qed.

Lemma old_handler_other sig' sig h remove st :
  sig' ≠ sig →
  old_handler sig'
    (set_one_signal_handler sigaction_get_fails sigaction_set_fails
       sig h remove st).2
  = old_handler sig' st.
Proof.
  intros Hne. rewrite set_one_signal_handler_works. cbn [snd].
  case_bool_decide; [|done].
  rewrite old_handler_set_disposition. by rewrite bool_decide_eq_false_2.
Qed.

Lemma register_unmount_sources_works sigs : ∀ i st st1,
  register_unmount_sources sigaction_get_fails sigaction_set_fails
    dispatch_source_create i sigs st = (None, st1) →
  fuse_instance st1 = fuse_instance st
  ∧ ∀ sig',
      old_handler sig' st1
      = if bool_decide (sig' ∈ sigs ∧ old_handler sig' st = SIG_DFL)
        then SIG_IGN else old_handler sig' st.
Proof.
  induction sigs as [|signal sigs IH]; intros i st st1 Hrun.
  { cbn in Hrun. injection Hrun as <-. split; [done|]. intros sig'.
    rewrite bool_decide_eq_false_2; [done|]. intros [Hin _].
    by apply elem_of_nil in Hin. }
  cbn [register_unmount_sources] in Hrun.
  rewrite set_one_signal_handler_pair in Hrun.
  cbn [Z.eqb Z.opp Pos.eqb] in Hrun.
  destruct (set_one_signal_handler_fields signal SIG_IGN false st)
    as (Hi1 & Hs1 & _).
  pose proof (old_handler_same signal SIG_IGN false st) as Hsame.
  pose proof (λ sig', old_handler_other sig' signal SIG_IGN false st)
    as Hother.
  set (st_a := (set_one_signal_handler _ _ signal SIG_IGN false st).2) in *.
  destruct (negb _); [done|].
  destruct (register_signal_source dispatch_source_create signal st_a)
    as [src st_b] eqn:Hsrc.
  assert (Hb : fuse_instance st_b = fuse_instance st_a
               ∧ disposition st_b = disposition st_a).
  { unfold register_signal_source in Hsrc.
    destruct (dispatch_source_create signal); by injection Hsrc as <- <-. }
  destruct Hb as [Hib Hdb].
  apply IH in Hrun as [Hi Hold]. cbn [set_source fuse_instance] in Hi.
  split; [congruence|]. intros sig'. rewrite Hold.
  change (old_handler sig' (set_source i src st_b))
    with (default SIG_DFL (disposition st_b !! sig')).
  rewrite Hdb.
  change (default SIG_DFL (disposition st_a !! sig'))
    with (old_handler sig' st_a).
  destruct (decide (sig' = signal)) as [->|Hne].
  - rewrite Hsame. cbn.
    handler_cases.
  - rewrite Hother by done.
    handler_cases.
Qed.

Lemma register_unmount_sources_succeeds sigs : ∀ i st,
  (∀ j, (i ≤ j < i + length sigs)%nat →
        default NULL (fuse_unmount_sources st !! j) = NULL) →
  ∃ st1,
    register_unmount_sources sigaction_get_fails sigaction_set_fails
      dispatch_source_create i sigs st = (None, st1).
Proof.
  induction sigs as [|signal sigs IH]; intros i st Hnull.
  { by eexists. }
  cbn [register_unmount_sources].
  rewrite set_one_signal_handler_pair. cbn [Z.eqb Z.opp Pos.eqb].
  destruct (set_one_signal_handler_fields signal SIG_IGN false st)
    as (_ & Hs1 & _).
  set (st_a := (set_one_signal_handler _ _ signal SIG_IGN false st).2) in *.
  rewrite Hs1, (Hnull i) by (cbn; lia). cbn [is_null NULL negb].
  destruct (register_signal_source dispatch_source_create signal st_a)
    as [src st_b] eqn:Hsrc.
  assert (Hb : fuse_unmount_sources st_b = fuse_unmount_sources st_a).
  { unfold register_signal_source in Hsrc.
    destruct (dispatch_source_create signal); by injection Hsrc as <- <-. }
  apply IH. intros j Hj. cbn [set_source fuse_unmount_sources].
  rewrite list_lookup_insert_ne by lia. rewrite Hb, Hs1.
  apply Hnull. cbn. lia.
Qed.

Lemma release_unmount_sources_works sigs : ∀ i st,
  let st' := release_unmount_sources sigaction_get_fails
               sigaction_set_fails i sigs st in
  fuse_instance st' = fuse_instance st
  ∧ (∀ sig',
       old_handler sig' st'
       = if bool_decide (sig' ∈ sigs ∧ old_handler sig' st = SIG_IGN)
         then SIG_DFL else old_handler sig' st)
  ∧ (∀ j, (j < i)%nat →
          fuse_unmount_sources st' !! j = fuse_unmount_sources st !! j)
  ∧ (∀ j, (i ≤ j < i + length sigs)%nat →
          default NULL (fuse_unmount_sources st' !! j) = NULL).
Proof.
  induction sigs as [|signal sigs IH]; intros i st.
  { cbn. split; [done|]. split; [|split; [done|intros; lia]].
    intros sig'. rewrite bool_decide_eq_false_2; [done|]. intros [Hin _].
    by apply elem_of_nil in Hin. }
  cbn [release_unmount_sources]. cbn zeta.
  destruct (set_one_signal_handler_fields signal SIG_IGN true st)
    as (Hi1 & Hs1 & _).
  pose proof (old_handler_same signal SIG_IGN true st) as Hsame.
  pose proof (λ sig', old_handler_other sig' signal SIG_IGN true st)
    as Hother.
  set (st_a := (set_one_signal_handler _ _ signal SIG_IGN true st).2) in *.
  set (st_b := if negb _ then set_source i NULL st_a else st_a).
  assert (Hb : fuse_instance st_b = fuse_instance st
               ∧ disposition st_b = disposition st_a
               ∧ (∀ j, j ≠ i → fuse_unmount_sources st_b !! j
                               = fuse_unmount_sources st !! j)
               ∧ default NULL (fuse_unmount_sources st_b !! i) = NULL).
  { subst st_b.
    destruct (default NULL (fuse_unmount_sources st_a !! i)) as [old|]
      eqn:Hold; cbn [is_null negb set_source fuse_instance disposition
                     fuse_unmount_sources].
    - split; [done|]. split; [done|]. split.
      + intros j Hj. rewrite list_lookup_insert_ne by done. by rewrite Hs1.
      + destruct (decide (i < length (fuse_unmount_sources st_a))%nat).
        * by rewrite list_lookup_insert_eq.
        * rewrite list_insert_ge by lia.
          rewrite (lookup_ge_None_2 _ i) by lia. done.
    - split; [done|]. split; [done|]. split; [|done].
      intros j _. by rewrite Hs1. }
  destruct Hb as (Hib & Hdb & Hsb & Hnb).
  destruct (IH (S i) st_b) as (Hi & Hold & Hlow & Hhigh).
  split; [congruence|]. split; [|split].
  - intros sig'. rewrite Hold.
    change (old_handler sig' st_b)
      with (default SIG_DFL (disposition st_b !! sig')).
    rewrite Hdb.
    change (default SIG_DFL (disposition st_a !! sig'))
      with (old_handler sig' st_a).
    destruct (decide (sig' = signal)) as [->|Hne].
    + rewrite Hsame. cbn.
      handler_cases.
    + rewrite Hother by done.
      handler_cases.
  - intros j Hj. rewrite Hlow by lia. apply Hsb. lia.
  - intros j Hj. destruct (decide (j = i)) as [->|Hne].
    + rewrite Hlow by lia. done.
    + apply Hhigh. cbn in Hj. lia.
Qed.

Lemma old_handler_set_instance sig p st :
  old_handler sig (set_instance p st) = old_handler sig st.
Proof. done. Qed.

Lemma fuse_remove_signal_handlers_darwin_works se st :
  fuse_instance st = se →
  let st2 := fuse_remove_signal_handlers sigaction_get_fails
               sigaction_set_fails Darwin se st in
  fuse_instance st2 = NULL
  ∧ (∀ sig,
       old_handler sig st2
       = if bool_decide (sig ∈ [SIGHUP; SIGINT; SIGTERM; SIGPIPE]
                         ∧ old_handler sig st = SIG_IGN)
         then SIG_DFL else old_handler sig st)
  ∧ ∀ j, (j < 3)%nat →
         default NULL (fuse_unmount_sources st2 !! j) = NULL.
Proof.
  intros Hse. unfold fuse_remove_signal_handlers.
  rewrite bool_decide_eq_false_2 by (intros H; by apply H).
  destruct (release_unmount_sources_works fuse_unmount_signals 0
              (set_instance NULL st)) as (Hi & Hold & _ & Hsrc).
  set (st_x := release_unmount_sources _ _ 0 _ _) in *.
  destruct (set_one_signal_handler_fields SIGPIPE SIG_IGN true st_x)
    as (Hi2 & Hs2 & _).
  cbn zeta. split; [by rewrite Hi2, Hi|]. split.
  - intros sig. destruct (decide (sig = SIGPIPE)) as [->|Hne].
    + rewrite old_handler_same, Hold, old_handler_set_instance.
      unfold fuse_unmount_signals.
      handler_cases.
    + rewrite old_handler_other by done.
      rewrite Hold, old_handler_set_instance. unfold fuse_unmount_signals.
      handler_cases.
  - intros j Hj. rewrite Hs2. apply Hsrc. cbn. lia.
Qed.

Ltac sig_neq := first [assumption | compute; discriminate].

Ltac old_chain :=
  repeat first
    [ rewrite old_handler_set_instance
    | rewrite old_handler_same
    | rewrite old_handler_other by sig_neq ].

Lemma fuse_remove_signal_handlers_other_works se st :
  fuse_instance st = se →
  let st2 := fuse_remove_signal_handlers sigaction_get_fails
               sigaction_set_fails Other se st in
  fuse_instance st2 = NULL
  ∧ (∀ sig,
       old_handler sig st2
       = if bool_decide
              ((sig ∈ [SIGHUP; SIGINT; SIGTERM]
                ∧ old_handler sig st = exit_handler)
               ∨ (sig = SIGPIPE ∧ old_handler sig st = SIG_IGN))
         then SIG_DFL else old_handler sig st).
Proof.
  intros Hse. unfold fuse_remove_signal_handlers.
  rewrite bool_decide_eq_false_2 by (intros H; by apply H).
  cbn zeta. split.
  - repeat match goal with
      | |- context [(set_one_signal_handler ?g ?s ?sig ?h true ?st0).2] =>
          rewrite (proj1 (set_one_signal_handler_fields sig h true st0))
      end.
    done.
  - intros sig.
    destruct (decide (sig = SIGHUP)) as [->|?];
      [|destruct (decide (sig = SIGINT)) as [->|?];
        [|destruct (decide (sig = SIGTERM)) as [->|?];
          [|destruct (decide (sig = SIGPIPE)) as [->|?]]]];
      old_chain; cbn;
      handler_cases.
Qed.

(** X21. With a working [sigaction], registering a session and removing
    it again clears [fuse_instance], gives every signal whose action was
    the default its default action back and touches no signal other than
    the four the library handles; a [SIGPIPE] that was ignored before the
    registration, however, ends with its default action. Afterwards a new
    registration succeeds. *)
Theorem fuse_set_then_remove_signal_handlers
    (pf : platform) (se : ptr) (st st1 : sig_state) :
  fuse_set_signal_handlers sigaction_get_fails sigaction_set_fails
    dispatch_source_create pf se st = (0, st1) →
  let st2 := fuse_remove_signal_handlers sigaction_get_fails
               sigaction_set_fails pf se st1 in
  fuse_instance st2 = NULL
  ∧ (∀ sig, old_handler sig st = SIG_DFL → old_handler sig st2 = SIG_DFL)
  ∧ (∀ sig, sig ∉ [SIGHUP; SIGINT; SIGTERM; SIGPIPE] →
            old_handler sig st2 = old_handler sig st)
  ∧ (old_handler SIGPIPE st = SIG_IGN → old_handler SIGPIPE st2 = SIG_DFL)
  ∧ ∀ se', ∃ st3,
      fuse_set_signal_handlers sigaction_get_fails sigaction_set_fails
        dispatch_source_create pf se' st2 = (0, st3).
Proof.
  intros Hset. destruct pf.
  - unfold fuse_set_signal_handlers in Hset.
    pose proof (register_unmount_sources_result sigaction_get_fails
                  sigaction_set_fails dispatch_source_create
                  fuse_unmount_signals 0 st) as Hres.
    destruct (register_unmount_sources _ _ _ 0 fuse_unmount_signals st)
      as [o st_r] eqn:Hreg.
    destruct Hres as (_ & [[-> _]|[-> _]]); [|discriminate Hset].
    rewrite set_one_signal_handler_pair in Hset.
    cbn [Z.eqb Z.opp Pos.eqb] in Hset. injection Hset as <-.
    apply register_unmount_sources_works in Hreg as [_ Hreg].
    destruct (fuse_remove_signal_handlers_darwin_works se
                (set_instance se
                   (set_one_signal_handler sigaction_get_fails
                      sigaction_set_fails SIGPIPE SIG_IGN false st_r).2))
      as (Hi & Hold & Hsrc); [done|].
    cbn zeta in *.
    set (st2 := fuse_remove_signal_handlers _ _ Darwin se _) in *.
    assert (Hall : ∀ sig,
      old_handler sig st2
      = if bool_decide (sig ∈ [SIGHUP; SIGINT; SIGTERM; SIGPIPE])
        then (if bool_decide (old_handler sig st = exit_handler)
              then exit_handler else SIG_DFL)
        else old_handler sig st).
    { intros sig. rewrite Hold.
      destruct (decide (sig = SIGPIPE)) as [->|Hne].
      - old_chain. rewrite Hreg. unfold fuse_unmount_signals. cbn.
        destruct (old_handler SIGPIPE st);
          handler_cases.
      - old_chain. rewrite Hreg. unfold fuse_unmount_signals.
        destruct (old_handler sig st);
          handler_cases. }
    split; [done|]. split; [|split; [|split]].
    + intros sig Hd. rewrite Hall, Hd. by repeat case_bool_decide.
    + intros sig Hno. rewrite Hall. by rewrite bool_decide_eq_false_2.
    + intros Hig. rewrite Hall, Hig.
      rewrite bool_decide_eq_true_2; [done|].
      rewrite !elem_of_cons. tauto.
    + intros se'. unfold fuse_set_signal_handlers.
      destruct (register_unmount_sources_succeeds fuse_unmount_signals 0
                  st2) as [st_r' ->].
      { intros j Hj. apply Hsrc. cbn in Hj. lia. }
      rewrite set_one_signal_handler_pair. cbn [Z.eqb Z.opp Pos.eqb].
      by eexists.
  - unfold fuse_set_signal_handlers in Hset.
    rewrite (set_one_signal_handler_pair SIGHUP exit_handler false _)
      in Hset; cbn [Z.eqb Z.opp Pos.eqb] in Hset.
    rewrite (set_one_signal_handler_pair SIGINT exit_handler false _)
      in Hset; cbn [Z.eqb Z.opp Pos.eqb] in Hset.
    rewrite (set_one_signal_handler_pair SIGTERM exit_handler false _)
      in Hset; cbn [Z.eqb Z.opp Pos.eqb] in Hset.
    rewrite (set_one_signal_handler_pair SIGPIPE SIG_IGN false _)
      in Hset; cbn [Z.eqb Z.opp Pos.eqb] in Hset.
    injection Hset as <-.
    match goal with
    | |- context [fuse_remove_signal_handlers _ _ Other se ?s] =>
        destruct (fuse_remove_signal_handlers_other_works se s)
          as (Hi & Hold); [done|]
    end.
    cbn zeta in *.
    set (st2 := fuse_remove_signal_handlers _ _ Other se _) in *.
    assert (Hall : ∀ sig,
      old_handler sig st2
      = if bool_decide (sig ∈ [SIGHUP; SIGINT; SIGTERM])
        then (if bool_decide (old_handler sig st = SIG_IGN)
              then SIG_IGN else SIG_DFL)
        else if bool_decide (sig = SIGPIPE)
        then (if bool_decide (old_handler sig st = exit_handler)
              then exit_handler else SIG_DFL)
        else old_handler sig st).
    { intros sig. rewrite Hold.
      destruct (decide (sig = SIGHUP)) as [->|?];
        [|destruct (decide (sig = SIGINT)) as [->|?];
          [|destruct (decide (sig = SIGTERM)) as [->|?];
            [|destruct (decide (sig = SIGPIPE)) as [->|?]]]];
        old_chain; cbn;
        match goal with
        | |- context [old_handler ?x st] => destruct (old_handler x st)
        end;
        handler_cases. }
    split; [done|]. split; [|split; [|split]].
    + intros sig Hd. rewrite Hall, Hd. by repeat case_bool_decide.
    + intros sig Hno. rewrite Hall.
      rewrite !not_elem_of_cons in Hno.
      rewrite bool_decide_eq_false_2
        by (rewrite !elem_of_cons, elem_of_nil; tauto).
      by rewrite bool_decide_eq_false_2 by tauto.
    + intros Hig. rewrite Hall, Hig. handler_cases.
    + intros se'. unfold fuse_set_signal_handlers.
      rewrite (set_one_signal_handler_pair SIGHUP exit_handler false _);
        cbn [Z.eqb Z.opp Pos.eqb].
      rewrite (set_one_signal_handler_pair SIGINT exit_handler false _);
        cbn [Z.eqb Z.opp Pos.eqb].
      rewrite (set_one_signal_handler_pair SIGTERM exit_handler false _);
        cbn [Z.eqb Z.opp Pos.eqb].
      rewrite (set_one_signal_handler_pair SIGPIPE SIG_IGN false _);
        cbn [Z.eqb Z.opp Pos.eqb].
      by eexists.
Qed.

End Working.

Lemma fuse_set_then_remove_signal_handlers_witness :
  let st := set_disposition SIGPIPE SIG_IGN sig_init in
  let st1 := snd (fuse_set_signal_handlers never_fails never_fails
                    source_of_signal Darwin (Some 2%positive) st) in
  let st2 := fuse_remove_signal_handlers never_fails never_fails Darwin
               (Some 2%positive) st1 in
  old_handler SIGPIPE st = SIG_IGN
  ∧ old_handler SIGPIPE st2 = SIG_DFL
  ∧ fuse_instance st2 = NULL.
Proof.
  intros st st1 st2.
  destruct (fuse_set_then_remove_signal_handlers never_fails never_fails
              source_of_signal (λ _, eq_refl) (λ _, eq_refl) Darwin
              (Some 2%positive) st st1 eq_refl)
    as (Hi & _ & _ & Hpipe & _).
  split; [reflexivity|]. split; [apply Hpipe; reflexivity|exact Hi].
Defined.

End SignalsMore.

(** ** The dispatch loop *)

Module LoopDispatchMore.
Import LoopDispatch.

Section Errno.

Variable EINTR : Z.

Lemma apply_pass_loop_body r tmpch process_buf st :
  let p := loop_body EINTR r tmpch process_buf in
  let st' := apply_pass p st in
  receives st' = S (receives st)
  ∧ (∃ k, submitted st' = submitted st ++ k ∧ (length k ≤ 1)%nat)
  ∧ ((log st' = log st ∧ ctl p ≠ Break)
     ∨ (log st' = log st ∧ ctl p = Break)
     ∨ (ctl p = Break ∧ res st' = -1 ∧ ∃ msg, log st' = log st ++ [msg])).
Proof.
  unfold loop_body, apply_pass.
  destruct (r =? - EINTR); [|destruct (r <=? 0); [|destruct process_buf]];
    cbn; (split; [done|]);
    (split; [eexists; split; [done|cbn; lia]|]); rewrite ?app_nil_r.
  - by left.
  - right. by left.
  - by left.
  - right. right. eauto.
Qed.

Lemma while_loop_result script : ∀ st st',
  while_loop EINTR script st = Some st' →
  (∃ k n, submitted st' = submitted st ++ k
          ∧ receives st' = (receives st + n)%nat ∧ (length k ≤ n)%nat)
  ∧ (log st' = log st
     ∨ (res st' = -1 ∧ ∃ msg, log st' = log st ++ [msg])).
Proof.
  induction script as [|[|r tmpch process_buf] script IH]; intros st st' Hrun.
  - done.
  - cbn in Hrun. injection Hrun as <-. split; [|by left].
    exists [], 0%nat. by rewrite app_nil_r, Nat.add_0_r.
  - cbn [while_loop] in Hrun.
    destruct (apply_pass_loop_body r tmpch process_buf st)
      as (Hrecv & (k & Hsub & Hk) & Hlog).
    cbn zeta in *.
    set (p := loop_body EINTR r tmpch process_buf) in *.
    set (st1 := apply_pass p st) in *.
    destruct Hlog as [[Hlog Hctl]|[[Hlog Hctl]|(Hctl & Hres & msg & Hlog)]].
    + assert (Hnext : while_loop EINTR script st1 = Some st')
        by (destruct (ctl p); done).
      apply IH in Hnext as [(k' & n & Hsub' & Hrecv' & Hk') Hlog'].
      split.
      * exists (k ++ k'), (S n). rewrite Hsub', Hsub, Hrecv', Hrecv.
        rewrite length_app, <- app_assoc. split; [done|]. lia.
      * rewrite Hlog in Hlog'. done.
    + rewrite Hctl in Hrun. injection Hrun as <-. split; [|by left].
      exists k, 1%nat. rewrite Hrecv. split; [done|]. lia.
    + rewrite Hctl in Hrun. injection Hrun as <-. split; [|right; eauto].
      exists k, 1%nat. rewrite Hrecv. split; [done|]. lia.
Qed.

(** X22. Whatever the loop meets, [fuse_session_loop_dispatch] returns 0
    or -1, and 0 only when nothing was written to [stderr]. It skips the
    wait for the group exactly when one of the three allocations of the
    set-up failed, and then it has received nothing, dispatched nothing
    and written one message. It never dispatches more blocks than it has
    made receive calls, and a wait that fails makes the result -1 with
    the time-out message last. *)
Theorem fuse_session_loop_dispatch_result
    (w : setup) (script : list pass) (r : loop_result) :
  fuse_session_loop_dispatch EINTR w script = Some r →
  (returned r = 0 ∨ returned r = -1)
  ∧ (errors r ≠ [] → returned r = -1)
  ∧ (waited r = false ↔ buf w = NULL ∨ queue w = NULL ∨ group w = NULL)
  ∧ (waited r = false →
       received r = 0%nat ∧ blocks r = [] ∧ ∃ msg, errors r = [msg])
  ∧ (length (blocks r) ≤ received r)%nat
  ∧ (waited r = true → group_wait w ≠ 0 →
       returned r = -1
       ∧ last (errors r) = Some "fuse: dispatch_group_wait timed out").
Proof.
  unfold fuse_session_loop_dispatch, NULL. intros Hrun.
  destruct (buf w) as [b|]; cbn [is_null] in Hrun;
    [|injection Hrun as <-; cbn; split_and!; try done; eauto; tauto].
  destruct (queue w) as [q|]; cbn [is_null] in Hrun;
    [|injection Hrun as <-; cbn; split_and!; try done; eauto; tauto].
  destruct (group w) as [g|]; cbn [is_null] in Hrun;
    [|injection Hrun as <-; cbn; split_and!; try done; eauto; tauto].
  destruct (while_loop EINTR script loop_init) as [st|] eqn:Hloop; [|done].
  apply while_loop_result in Hloop
    as [(k & n & Hsub & Hrecv & Hk) Hlog].
  cbn in Hsub, Hrecv, Hlog.
  destruct (Z.eqb_spec (group_wait w) 0) as [Hw|Hw]; cbn [negb] in Hrun;
    injection Hrun as <-; unfold finish; cbn.
  - split_and!.
    + destruct (res st <? 0); auto.
    + intros Hne. destruct Hlog as [Hlog|[Hres _]]; [done|].
      by rewrite Hres.
    + split; [done|]. intros [?|[?|?]]; done.
    + done.
    + rewrite Hsub, Hrecv. lia.
    + done.
  - split_and!; try done.
    + by right.
    + split; [done|]. intros [?|[?|?]]; done.
    + rewrite Hsub, Hrecv. lia.
    + intros _ _. split; [done|]. by rewrite last_snoc.
Qed.

End Errno.

Lemma fuse_session_loop_dispatch_result_witness :
  let r := {| returned := -1; blocks := [];
              errors := ["fuse: dispatch_group_wait timed out"];
              received := 1; waited := true |} in
  returned r = -1
  ∧ last (errors r) = Some "fuse: dispatch_group_wait timed out".
Proof.
  intros r.
  destruct (fuse_session_loop_dispatch_result 4
              {| buf := Some 100%positive; queue := Some 101%positive;
                 group := Some 102%positive; group_wait := 1 |}
              [Received 0 NULL NULL] r eq_refl)
    as (_ & _ & _ & _ & _ & Hwait).
  apply Hwait; [reflexivity|discriminate].
Defined.

End LoopDispatchMore.

(** ** The worker pool *)

Module MtMore.
Import Mt.







End MtMore.

(** ** Processing a request (fuse_session_process_buf) *)

Lemma fuse_session_process_run se sd buf len ch s :
  sessions s !! se = Some sd →
  fuse_session_process (Some se) buf len ch s
  = Ret tt (upd_trace
              (fun t => t ++ [EvProcess (op_process (se_op sd)) (se_data sd)
                                buf len ch]) s).
Proof.
  intros Hsd. unfold fuse_session_process, bind.
  by rewrite (load_session_Some _ _ _ Hsd).
Qed.

(** X25. For a session without a [process_buf] override and a buffer that
    is not a file descriptor, [fuse_session_process_buf] is
    [fuse_session_process] called on the session's [data] in place of the
    session. So its behaviour is undefined when [data] is [NULL] or points
    at no session, and when [data] points at a session it agrees with
    [fuse_session_process] on the session itself exactly when that
    session has the same [process] operation and the same [data]. A
    buffer that is a file descriptor stops at the assertion. With the
    override set, the override is called with the session's [data]. *)
Theorem fuse_session_process_buf_fallback
    (se : addr) (s : fuse_session) (buf : fuse_buf) (ch : ptr) (σ : state) :
  sessions σ !! se = Some s →
  (∀ f, se_process_buf s = Some f →
     fuse_session_process_buf (Some se) buf ch σ
     = Ret tt (upd_trace
                 (fun t => t ++ [EvProcessBuf f (se_data s) buf ch]) σ))
  ∧ (se_process_buf s = None →
     Z.land (buf_flags buf) FUSE_BUF_IS_FD = 0 →
     fuse_session_process_buf (Some se) buf ch σ
     = fuse_session_process (se_data s) (buf_mem buf) (buf_size buf) ch σ
     ∧ (se_data s = NULL → fuse_session_process_buf (Some se) buf ch σ = Undef)
     ∧ (∀ d, se_data s = Some d → sessions σ !! d = None →
          fuse_session_process_buf (Some se) buf ch σ = Undef)
     ∧ (∀ d sd, se_data s = Some d → sessions σ !! d = Some sd →
          (fuse_session_process_buf (Some se) buf ch σ
           = fuse_session_process (Some se) (buf_mem buf) (buf_size buf)
               ch σ)
          ↔ (op_process (se_op sd) = op_process (se_op s)
             ∧ se_data sd = se_data s)))
  ∧ (se_process_buf s = None →
     Z.land (buf_flags buf) FUSE_BUF_IS_FD ≠ 0 →
     fuse_session_process_buf (Some se) buf ch σ
     = Halt (AssertFailed "!(buf->flags & FUSE_BUF_IS_FD)") σ).
Proof.
  intros Hs.
  assert (Hrun :
    fuse_session_process_buf (Some se) buf ch σ
    = match se_process_buf s with
      | Some f => emit (EvProcessBuf f (se_data s) buf ch) σ
      | None =>
          (assert (Z.land (buf_flags buf) FUSE_BUF_IS_FD =? 0)
             "!(buf->flags & FUSE_BUF_IS_FD)" ;;;
           fuse_session_process (se_data s) (buf_mem buf) (buf_size buf) ch)
            σ
      end).
  { unfold fuse_session_process_buf, bind at 1.
    rewrite (load_session_Some _ _ _ Hs). by destruct (se_process_buf s). }
  split.
  { intros f Hf. rewrite Hrun, Hf. done. }
  split.
  2:{ intros Hnone Hflags. rewrite Hrun, Hnone. unfold bind, assert.
      by destruct (Z.eqb_spec (Z.land (buf_flags buf) FUSE_BUF_IS_FD) 0). }
  intros Hnone Hflags.
  assert (Heq : fuse_session_process_buf (Some se) buf ch σ
                = fuse_session_process (se_data s) (buf_mem buf)
                    (buf_size buf) ch σ).
  { rewrite Hrun, Hnone. unfold bind, assert. by rewrite Hflags. }
  split; [done|]. rewrite Heq. split; [|split].
  - intros ->. done.
  - intros d Hd Hnod. rewrite Hd. unfold fuse_session_process, bind,
      load_session. by rewrite Hnod.
  - intros d sd Hd Hsd. rewrite Hd.
    rewrite (fuse_session_process_run d sd), (fuse_session_process_run se s)
      by done.
    split.
    + intros Hsame. injection Hsame as Hsame.
      apply app_inv_head in Hsame. inversion Hsame.
      split; [done|congruence].
    + intros [Hop Hdata]. by rewrite Hop, Hdata, Hd.
Qed.

Lemma fuse_session_process_buf_fallback_witness :
  fuse_session_process_buf (Some 2%positive) (mem_buf (Some 9%positive) 16)
    (Some 1%positive) (two_session_state (Some 6%positive))
  = Undef.
Proof.
  destruct (fuse_session_process_buf_fallback 2%positive
              (session_with_data (Some 6%positive))
              (mem_buf (Some 9%positive) 16) (Some 1%positive)
              (two_session_state (Some 6%positive)) eq_refl)
    as (_ & Hfall & _).
  destruct (Hfall eq_refl eq_refl) as (_ & _ & Hdangling & _).
  apply (Hdangling 6%positive); reflexivity.
Defined.

(** ** Setting up (fuse_setup_common) *)

Module SetupProofs.
Import Cmdline Setup.

Section LoopConstants.

Variables FUSE_LOOP_SINGLE_THREADED FUSE_LOOP_MULTI_THREADED
          FUSE_LOOP_DISPATCH : Z.

(** X26. [fuse_setup_common] returns a file system exactly when every
    step succeeds, and then it has undone nothing. When it fails after
    the mount has given a channel, it unmounts that channel once, destroys
    the file system if one was made, and frees the mount point last; when
    the mount itself fails it only frees the arguments and the mount
    point. Before the mount it cleans up nothing: not after a failed
    [fuse_parse_cmdline], and not on Darwin without a mount point, where
    not even the arguments are freed. Together with [fuse_parse_cmdline]
    it never frees the mount point twice. *)
Theorem fuse_setup_common_cleanup
    (pf : platform) (parse : Z) (hopts : helper_opts) (subtype : Z)
    (multithreaded fd : bool) (w : world) :
  let '(fuse, cl, acts) :=
    fuse_setup_common FUSE_LOOP_SINGLE_THREADED FUSE_LOOP_MULTI_THREADED
      FUSE_LOOP_DISPATCH pf parse hopts subtype multithreaded fd w in
  let mountpoint := ho_mountpoint hopts in
  let reached := cl_res cl = 0 ∧ (pf = Darwin → mountpoint ≠ None) in
  (fuse ≠ NULL ↔
     reached ∧ w_ch w ≠ NULL ∧ w_fuse w ≠ NULL
     ∧ w_daemonize w ≠ -1 ∧ w_signals w ≠ -1)
  ∧ (fuse ≠ NULL →
       fuse = w_fuse w
       ∧ List.filter is_free acts = []
       ∧ List.filter is_unmount acts = []
       ∧ List.filter is_destroy acts = []
       ∧ cl_freed cl = [])
  ∧ (fuse = NULL → reached → w_ch w ≠ NULL →
       List.filter is_unmount acts = [UnmountCommon mountpoint (w_ch w)]
       ∧ List.filter is_destroy acts
         = (if is_null (w_fuse w) then [] else [Destroy (w_fuse w)])
       ∧ last acts = Some (Free mountpoint))
  ∧ (reached → w_ch w = NULL →
       acts = [MountCommon mountpoint; OptFreeArgs; Free mountpoint])
  ∧ (¬ reached →
       fuse = NULL
       ∧ (acts = [] ∨ acts = [Stderr "fuse: no mount point"]))
  ∧ (length (List.filter is_mount acts) ≤ 1)%nat
  ∧ length (List.filter is_free_args acts)
    = length (List.filter is_mount acts)
  ∧ (length (List.filter is_free_mountpoint (cl_freed cl))
     + length (List.filter is_free acts) ≤ 1)%nat.
Proof.
  unfold fuse_setup_common.
  set (cl := fuse_parse_cmdline _ _ _ parse hopts subtype true multithreaded
               true).
  assert (Hcl : (cl_res cl = -1
                 ∧ (length (List.filter is_free_mountpoint (cl_freed cl))
                    ≤ 1)%nat)
                ∨ (cl_res cl = 0 ∧ cl_freed cl = [])).
  { subst cl. CmdlineProofs.cmdline_cases hopts; cbn; auto. }
  destruct Hcl as [[Hres Hfreed]|[Hres Hfreed]]; rewrite Hres;
    cbn [Z.eqb Z.opp Pos.eqb].
  { cbv beta iota zeta. split_and!.
    - split; [done|]. intros [[H0 _] _]. congruence.
    - done.
    - intros _ [H0 _]. congruence.
    - intros [H0 _]. congruence.
    - intros _. split; [done|by left].
    - cbn. lia.
    - done.
    - cbn. lia. }
  destruct pf, (ho_mountpoint hopts) as [mp|] eqn:Hmp;
    cbn [bool_decide decide_rel];
    try rewrite bool_decide_eq_true_2 by done;
    try rewrite bool_decide_eq_false_2 by done.
  all: try (destruct (w_ch w) as [ch|]; cbn [is_null];
            [destruct (w_fuse w) as [fuse|]; cbn [is_null];
             [destruct (Z.eqb_spec (w_daemonize w) (-1));
              [|destruct (Z.eqb_spec (w_signals w) (-1));
                [|destruct fd]]|]|]).
  all: cbv beta iota zeta.
  all: rewrite ?Hfreed.
  all: cbn [app List.filter is_free is_unmount is_destroy is_free_args
            is_mount length last is_null Nat.add].
  all: unfold NULL; split_and!; try done; try (cbn; lia).
  all: try (split; [intros ?|intros (? & ? & ? & ? & ?)]; try done).
  all: try (intros [_ Hd]; by (exfalso; apply Hd)).
  all: try (split_and!; try done; by intros ?).
  all: try (intros Hnot; split; [done|]; first [by left|by right]).
  all: try (intros Hnot; exfalso; apply Hnot; split; [done|]; by intros ?).
  all: intros; exfalso;
    match goal with
    | H : _ ∧ (Darwin = Darwin → None ≠ None) |- _ =>
        destruct H as [_ H]; by apply H
    end.
Qed.

End LoopConstants.

Lemma fuse_setup_common_cleanup_witness :
  let hopts := {| ho_foreground := 0; ho_singlethread := 1; ho_loop := None;
                  ho_nodefault_subtype := 0;
                  ho_mountpoint := Some "/mnt" |} in
  let w := {| w_ch := Some 1%positive; w_fuse := Some 7%positive;
              w_session := Some 2%positive; w_daemonize := -1;
              w_signals := 0 |} in
  let r := fuse_setup_common 0 1 2 Darwin 0 hopts 0 true false w in
  r.1.1 = NULL
  ∧ List.filter is_unmount (r.2)
    = [UnmountCommon (Some "/mnt") (Some 1%positive)]
  ∧ List.filter is_destroy (r.2) = [Destroy (Some 7%positive)]
  ∧ last (r.2) = Some (Free (Some "/mnt")).
Proof.
  intros hopts w r.
  pose proof (fuse_setup_common_cleanup 0 1 2 Darwin 0 hopts 0 true false w)
    as Hall.
  change (fuse_setup_common 0 1 2 Darwin 0 hopts 0 true false w) with r
    in Hall.
  destruct r as [[fuse cl] acts] eqn:Hr.
  destruct Hall as (_ & _ & Hfail & _).
  assert (Hnull : fuse = NULL) by (by injection Hr as <- _ _).
  split; [exact Hnull|].
  apply Hfail; [exact Hnull| |discriminate].
  split; [by injection Hr as _ <- _|discriminate].
Defined.

End SetupProofs.
